(** * Bounded retry with exponential backoff in the Spotify acquisition scripts

    Shallow embedding of the three retrying fetch functions of the pipeline,

      - [get_albums_from_spotify]          (scripts/get_albums.py),
      - [get_artist_spotify]               (scripts/get_artists.py),
      - [fetch_album_songs_from_spotify]   (scripts/get_songs.py),

    over a small state-and-exception monad.  The state records what the
    outside world can observe of one call: the HTTP requests issued, the
    log lines written and the calls to [time.sleep], in order. *)

From Stdlib Require Import ZArith List Ascii String Bool Lia.
From Stdlib Require DecimalString DecimalZ.
Import ListNotations.

Local Open Scope string_scope.
Local Open Scope Z_scope.
Local Open Scope list_scope.

(** ** Python values *)

(** The exceptions that occur in the scripts.  [Exception_] and
    [RuntimeError] carry the f-string they are built from, kept in
    structured form; [KeyError_] is [KeyError] with the missing key.
    [KeyboardInterrupt] stands for the exceptions that derive from
    [BaseException] only, which [except Exception] lets through. *)
Inductive exn : Type :=
| ConnectionError
| ReadTimeout
| HTTPError (status : Z)
| JSONDecodeError
| TypeError
| ValueError
| OverflowError
| KeyError_ (key : string)
| KeyboardInterrupt
| UnboundLocalError (name : string)
| RuntimeError (m : message)
| Exception_ (m : message)
with message : Type :=
| FailedAfter (text : string) (max_retries : Z)
    (* f"{text}. Failed after {max_retries} attempts." *)
| Because (text : string) (cause : exn).
    (* f"{text}: {e}" *)

(** [isinstance(e, Exception)] *)
Definition is_Exception (e : exn) : bool :=
  match e with
  | KeyboardInterrupt => false
  | _ => true
  end.

(** The arguments of one [requests.get] call. *)
Record Request : Type := mkRequest {
  url : string;
  headers : list (string * string);
  params : list (string * string);
  timeout : option Z
}.

(** What the scripts look at in a [requests.Response]. *)
Record Response : Type := mkResponse {
  status_code : Z;
  text : string
}.

(** Outcome of one [requests.get]: the call raises, or a response arrives. *)
Inductive Reply : Type :=
| Raises (e : exn)
| Responds (r : Response).

(** An element of the batch, as far as the scripts read it here.
    [mkArtist] is a dictionary with a ["spotify_id"] entry, such as
    [process_kworb_html] builds: the entry starts as [None] and is only set
    when the table cell holds a link, and [None] stands for every value
    that is not a [str].  [NoSpotifyId] is a dictionary without that key,
    [NotADict] a value that is no dictionary. *)
Inductive Artist : Type :=
| mkArtist (id name : option string)
| NoSpotifyId
| NotADict.

Definition spotify_id (a : Artist) : option string :=
  match a with
  | mkArtist id _ => id
  | _ => None
  end.

Definition artist_name (a : Artist) : option string :=
  match a with
  | mkArtist _ name => name
  | _ => None
  end.

(** ** Observable effects *)

Inductive Event : Type :=
| TokenCall                                   (* get_spotify_access_token() *)
| HttpGet (r : Request)                       (* requests.get(...) *)
| LogWarning (what : string) (e : exn) (backoff_time : Z)
    (* logger.warning(f"{what}: {e}. Retrying in {backoff_time} seconds.") *)
| LogError (m : message)                      (* logger.error(...) *)
| Sleep (seconds : Z).                        (* time.sleep(seconds) *)

(** State of a running call: how many requests the transport has answered,
    the effects so far (oldest first), and the local variable [e] of the
    function's frame ([None] when it is unbound). *)
Record World : Type := mkWorld {
  calls : nat;
  trace : list Event;
  local_e : option exn
}.

Definition w0 : World := mkWorld 0 [] None.

Definition emit (ev : Event) (w : World) : World :=
  mkWorld (calls w) (trace w ++ [ev]) (local_e w).

Definition set_e (v : option exn) (w : World) : World :=
  mkWorld (calls w) (trace w) v.

(** ** The monad *)

Inductive Result (A : Type) : Type :=
| Returned (a : A)
| Raised (e : exn).
Arguments Returned {A} a.
Arguments Raised {A} e.

Definition M (A : Type) : Type := World -> Result A * World.

Definition ret {A} (a : A) : M A := fun w => (Returned a, w).

Definition raise {A} (e : exn) : M A := fun w => (Raised e, w).

Definition bind {A B} (m : M A) (k : A -> M B) : M B :=
  fun w =>
    match m w with
    | (Returned a, w1) => k a w1
    | (Raised e, w1) => (Raised e, w1)
    end.

Notation "x <- m ;; k" := (bind m (fun x => k))
  (at level 61, m at next level, right associativity).
Notation "m ;; k" := (bind m (fun _ => k))
  (at level 61, right associativity).

(** [try: body / except Exception as e: handler].  The name [e] is bound on
    entry to the handler and deleted when the handler is left, whether it
    falls through or raises. *)
Definition try_except_as {A} (body : M A) (handler : exn -> M A) : M A :=
  fun w =>
    match body w with
    | (Returned a, w1) => (Returned a, w1)
    | (Raised e, w1) =>
        if is_Exception e then
          let (r, w2) := handler e (set_e (Some e) w1) in
          (r, set_e None w2)
        else (Raised e, w1)
    end.

(** Reading the local [e] outside a handler. *)
Definition load_e : M exn :=
  fun w =>
    match local_e w with
    | Some e => (Returned e, w)
    | None => (Raised (UnboundLocalError "e"), w)
    end.

(** [for x in xs: body] followed by the code after the loop.  The body
    yields [Some v] for [return v] and [None] when it falls through. *)
Fixpoint for_each {A} (xs : list Z) (body : Z -> M (option A)) (after : M A)
  : M A :=
  match xs with
  | [] => after
  | x :: rest =>
      r <- body x ;;
      match r with
      | Some v => ret v
      | None => for_each rest body after
      end
  end.

(** [range(n)]: empty when [n <= 0]. *)
Definition range (n : Z) : list Z :=
  map Z.of_nat (seq 0 (Z.to_nat n)).

(** [sep.join(items)]: [TypeError] when an item is not a [str]. *)
Fixpoint all_str (items : list (option string)) : option (list string) :=
  match items with
  | [] => Some []
  | Some s :: rest =>
      match all_str rest with
      | Some l => Some (s :: l)
      | None => None
      end
  | None :: _ => None
  end.

Definition str_join (sep : string) (items : list (option string)) : M string :=
  match all_str items with
  | Some l => ret (String.concat sep l)
  | None => raise TypeError
  end.

(** [artist["spotify_id"]]: [KeyError] when the dictionary has no such key,
    [TypeError] when [artist] is no dictionary. *)
Definition read_id (a : Artist) : M (option string) :=
  match a with
  | mkArtist id _ => ret id
  | NoSpotifyId => raise (KeyError_ "spotify_id")
  | NotADict => raise TypeError
  end.

(** [[f(x) for x in xs]] *)
Fixpoint comprehension {A B} (f : A -> M B) (xs : list A) : M (list B) :=
  match xs with
  | [] => ret []
  | x :: rest =>
      y <- f x ;;
      ys <- comprehension f rest ;;
      ret (y :: ys)
  end.

(** [logger.warning] and [logger.error]. *)
Definition logger_warning (what : string) (e : exn) (backoff_time : Z) : M unit :=
  fun w => (Returned tt, emit (LogWarning what e backoff_time) w).

Definition logger_error (m : message) : M unit :=
  fun w => (Returned tt, emit (LogError m) w).

(** The longest sleep [time.sleep] takes, in whole seconds.  The length is
    first converted to a count of nanoseconds held in 64 bits, so it must
    lie within [(2^63 - 1) / 10^9] seconds of zero. *)
Definition sleep_max : Z := 9223372036.

(** What [time.sleep(seconds)] raises for an [int] it does not take:
    [OverflowError] when the length does not convert, then [ValueError]
    when it is negative. *)
Definition sleep_refusal (seconds : Z) : option exn :=
  if (seconds <? - sleep_max) || (sleep_max <? seconds)
  then Some OverflowError
  else if seconds <? 0 then Some ValueError
  else None.

Definition time_sleep (seconds : Z) : M unit :=
  fun w =>
    match sleep_refusal seconds with
    | Some e => (Raised e, w)
    | None => (Returned tt, emit (Sleep seconds) w)
    end.

(** The lengths [time.sleep] takes. *)
Definition sleepable (seconds : Z) : Prop := 0 <= seconds <= sleep_max.

(** [response.raise_for_status()]: [HTTPError] for 4xx and 5xx. *)
Definition raise_for_status (r : Response) : M unit :=
  if (400 <=? status_code r) && (status_code r <? 600)
  then raise (HTTPError (status_code r))
  else ret tt.

(** What the observer reads off a trace. *)
Fixpoint requests_of (t : list Event) : list Request :=
  match t with
  | [] => []
  | HttpGet r :: t' => r :: requests_of t'
  | _ :: t' => requests_of t'
  end.

Fixpoint sleeps_of (t : list Event) : list Z :=
  match t with
  | [] => []
  | Sleep s :: t' => s :: sleeps_of t'
  | _ :: t' => sleeps_of t'
  end.

Fixpoint token_calls_of (t : list Event) : nat :=
  match t with
  | [] => O
  | TokenCall :: t' => S (token_calls_of t')
  | _ :: t' => token_calls_of t'
  end.

Definition attempts_made (w : World) : nat := List.length (requests_of (trace w)).
Definition slept (w : World) : list Z := sleeps_of (trace w).

(** The delay of the source: [sleep_time * (2**attempt)]. *)
Definition backoff (sleep_time attempt : Z) : Z := sleep_time * 2 ^ attempt.

(** ** The scripts *)

Section Scripts.

(** Decoded JSON documents and the decoder behind [response.json()];
    [None] when the body does not parse. *)
Variable Json : Type.
Variable json_loads : string -> option Json.

(** The remote side: the reply to the [i]-th request seen so far. *)
Variable transport : nat -> Request -> Reply.

(** Outcome of [auth.get_spotify_access_token()]. *)
Variable token_outcome : exn + string.

Definition requests_get (u : string) (h p : list (string * string))
           (t : option Z) : M Response :=
  fun w =>
    let req := mkRequest u h p t in
    let w1 := mkWorld (S (calls w)) (trace w ++ [HttpGet req]) (local_e w) in
    match transport (calls w) req with
    | Raises e => (Raised e, w1)
    | Responds r => (Returned r, w1)
    end.

Definition response_json (r : Response) : M Json :=
  match json_loads (text r) with
  | Some j => ret j
  | None => raise JSONDecodeError
  end.

Definition get_spotify_access_token : M string :=
  fun w =>
    match token_outcome with
    | inl e => (Raised e, emit TokenCall w)
    | inr tok => (Returned tok, emit TokenCall w)
    end.

(** get_albums.py, lines 45-66 *)
Definition get_albums_from_spotify (spotify_artist_id token : string)
           (max_retries sleep_time : Z) : M Json :=
  for_each (range max_retries)
    (fun attempt =>
       try_except_as
         (let url := ("https://api.spotify.com/v1/artists/"
                        ++ spotify_artist_id ++ "/albums")%string in
          let headers := [("Authorization", ("Bearer " ++ token)%string)] in
          let params := [("limit", "50");
                         ("include_groups", "album,single,compilation");
                         ("market", "US")]%string in
          response <- requests_get url headers params (Some 10) ;;
          raise_for_status response ;;
          j <- response_json response ;;
          ret (Some j))
         (fun e =>
            let backoff_time := sleep_time * 2 ^ attempt in
            logger_warning
              "Error getting artist's metadata from spotify api" e backoff_time ;;
            time_sleep backoff_time ;;
            ret None))
    (logger_error
       (FailedAfter "Error getting albums from spotify" max_retries) ;;
     raise (RuntimeError
              (FailedAfter "Error getting albums from spotify" max_retries))).

(** get_artists.py, lines 102-134 *)
Definition get_artist_spotify (batch_artist_list : list Artist)
           (max_retries sleep_time : Z) : M Json :=
  token <- try_except_as get_spotify_access_token
             (fun e =>
                logger_error (Because "Error getting spotify access token" e) ;;
                raise (Exception_
                         (Because "Error getting spotify access token" e))) ;;
  for_each (range max_retries)
    (fun attempt =>
       try_except_as
         (let headers := [("Authorization", ("Bearer " ++ token)%string)] in
          spotify_ids <- comprehension read_id batch_artist_list ;;
          spotify_ids_str <- str_join "," spotify_ids ;;
          let params := [("ids"%string, spotify_ids_str)] in
          response <- requests_get "https://api.spotify.com/v1/artists"
                        headers params None ;;
          raise_for_status response ;;
          j <- response_json response ;;
          ret (Some j))
         (fun e =>
            let backoff_time := sleep_time * 2 ^ attempt in
            logger_warning
              "Error getting artist's metadata from spotify api" e backoff_time ;;
            time_sleep backoff_time ;;
            ret None))
    (logger_error
       (FailedAfter "Error getting artist's metadata from spotify api"
                    max_retries) ;;
     raise (RuntimeError
              (FailedAfter "Error getting artist's metadata from spotify api"
                           max_retries))).

(** get_songs.py, lines 56-71.  The two statements after the loop format
    the local [e]. *)
Definition fetch_album_songs_from_spotify (album_id token : string)
           (max_retries sleep_time : Z) : M Json :=
  for_each (range max_retries)
    (fun attempt =>
       try_except_as
         (let url := ("https://api.spotify.com/v1/albums/"
                        ++ album_id ++ "/tracks")%string in
          let headers := [("Authorization", ("Bearer " ++ token)%string)] in
          let params := [("limit", "50")]%string in
          response <- requests_get url headers params (Some 10) ;;
          raise_for_status response ;;
          j <- response_json response ;;
          ret (Some j))
         (fun e =>
            let backoff_time := sleep_time * 2 ^ attempt in
            logger_warning
              "Error getting album songs from spotify" e backoff_time ;;
            time_sleep backoff_time ;;
            ret None))
    (e <- load_e ;;
     logger_error (Because "Error getting album songs from spotify" e) ;;
     e' <- load_e ;;
     raise (Exception_ (Because "Error getting album songs from spotify" e'))).

End Scripts.

Arguments requests_get transport u h p t _ : assert.
Arguments response_json {Json} json_loads r _.
Arguments get_albums_from_spotify {Json} json_loads transport
  spotify_artist_id token max_retries sleep_time _.
Arguments get_artist_spotify {Json} json_loads transport token_outcome
  batch_artist_list max_retries sleep_time _.
Arguments fetch_album_songs_from_spotify {Json} json_loads transport
  album_id token max_retries sleep_time _.

(** ** Classifying one attempt *)

(** What the [try] block makes of a reply: the value it returns or the
    exception that reaches the [except] clause. *)
Definition attempt_result {Json} (json_loads : string -> option Json)
           (rp : Reply) : Result Json :=
  match rp with
  | Raises e => Raised e
  | Responds r =>
      if (400 <=? status_code r) && (status_code r <? 600)
      then Raised (HTTPError (status_code r))
      else match json_loads (text r) with
           | Some j => Returned j
           | None => Raised JSONDecodeError
           end
  end.

(** The attempt ends in the [except Exception] clause with [e]. *)
Definition fails_with {Json} (json_loads : string -> option Json)
           (rp : Reply) (e : exn) : Prop :=
  attempt_result json_loads rp = Raised e /\ is_Exception e = true.

Definition fails {Json} (json_loads : string -> option Json)
           (rp : Reply) : Prop :=
  exists e, fails_with json_loads rp e.

(** The exception a failed attempt hands to the handler. *)
Definition error_of {Json} (json_loads : string -> option Json)
           (rp : Reply) : exn :=
  match attempt_result json_loads rp with
  | Raised e => e
  | Returned _ => JSONDecodeError
  end.

(** The requests the three functions build. *)
Definition albums_request (spotify_artist_id token : string) : Request :=
  mkRequest ("https://api.spotify.com/v1/artists/"
               ++ spotify_artist_id ++ "/albums")%string
            [("Authorization", ("Bearer " ++ token)%string)]
            [("limit", "50");
             ("include_groups", "album,single,compilation");
             ("market", "US")]
            (Some 10).

Definition songs_request (album_id token : string) : Request :=
  mkRequest ("https://api.spotify.com/v1/albums/" ++ album_id ++ "/tracks")%string
            [("Authorization", ("Bearer " ++ token)%string)]
            [("limit", "50")]
            (Some 10).

Definition artists_request (ids : list string) (token : string) : Request :=
  mkRequest "https://api.spotify.com/v1/artists"
            [("Authorization", ("Bearer " ++ token)%string)]
            [("ids", String.concat "," ids)]
            None.

(** The exhaustion errors raised after the loops of get_albums.py and
    get_artists.py, and the one get_songs.py builds. *)
Definition albums_exhausted (max_retries : Z) : exn :=
  RuntimeError (FailedAfter "Error getting albums from spotify" max_retries).

Definition artists_exhausted (max_retries : Z) : exn :=
  RuntimeError
    (FailedAfter "Error getting artist's metadata from spotify api" max_retries).

Definition songs_exhausted (e : exn) : exn :=
  Exception_ (Because "Error getting album songs from spotify" e).

(** Strictly increasing lists of delays. *)
Fixpoint strictly_increasing (l : list Z) : Prop :=
  match l with
  | [] => True
  | x :: l' =>
      match l' with
      | [] => True
      | y :: _ => x < y /\ strictly_increasing l'
      end
  end.

(** ** Stub collaborators *)

(** A decoder for stubbed bodies: a document is anything that opens with a
    brace; everything else, the empty body included, does not parse. *)
Definition stub_json_loads (s : string) : option string :=
  match s with
  | String "{"%char _ => Some s
  | _ => None
  end.

(** A transport that answers every request alike. *)
Definition always (rp : Reply) : nat -> Request -> Reply :=
  fun _ _ => rp.

(** A transport that plays a script, then keeps repeating [last]. *)
Definition scripted (script : list Reply) (last : Reply)
  : nat -> Request -> Reply :=
  fun i _ => nth i script last.

Definition status (code : Z) : Reply := Responds (mkResponse code "").
Definition ok_body (body : string) : Reply := Responds (mkResponse 200 body).

(** ** The shape shared by the three loops *)

(** The [try] block: one request, the status check, the decoding. *)
Definition attempt {Json} (json_loads : string -> option Json)
           (transport : nat -> Request -> Reply) (req : Request)
  : M (option Json) :=
  response <- requests_get transport (url req) (headers req) (params req)
                (timeout req) ;;
  raise_for_status response ;;
  j <- response_json json_loads response ;;
  ret (Some j).

(** The [except] block. *)
Definition on_failure {A} (what : string) (sleep_time attempt : Z) (e : exn)
  : M (option A) :=
  logger_warning what e (sleep_time * 2 ^ attempt) ;;
  time_sleep (sleep_time * 2 ^ attempt) ;;
  ret None.

Definition retrying {A} (body : M (option A)) (what : string) (after : M A)
           (attempts : list Z) (sleep_time : Z) : M A :=
  for_each attempts
    (fun attempt => try_except_as body (on_failure what sleep_time attempt))
    after.

(** The code after each loop. *)
Definition albums_after {A} (max_retries : Z) : M A :=
  logger_error (FailedAfter "Error getting albums from spotify" max_retries) ;;
  raise (albums_exhausted max_retries).

Definition artists_after {A} (max_retries : Z) : M A :=
  logger_error
    (FailedAfter "Error getting artist's metadata from spotify api" max_retries) ;;
  raise (artists_exhausted max_retries).

Definition songs_after {A} : M A :=
  e <- load_e ;;
  logger_error (Because "Error getting album songs from spotify" e) ;;
  e' <- load_e ;;
  raise (songs_exhausted e').

(** The effects of [k] consecutive failed attempts, the first being attempt
    [a] of the loop and request [c] of the transport. *)
Fixpoint failure_events {Json} (json_loads : string -> option Json)
         (transport : nat -> Request -> Reply) (req : Request)
         (what : string) (sleep_time : Z) (c a k : nat) : list Event :=
  match k with
  | O => []
  | S k' =>
      HttpGet req
        :: LogWarning what (error_of json_loads (transport c req))
             (backoff sleep_time (Z.of_nat a))
        :: Sleep (backoff sleep_time (Z.of_nat a))
        :: failure_events json_loads transport req what sleep_time
             (S c) (S a) k'
  end.

(** A computation that neither sleeps nor asks for a token. *)
Definition quiet {A} (m : M A) : Prop :=
  forall w, exists evs,
    trace (snd (m w)) = trace w ++ evs
    /\ sleeps_of evs = []
    /\ token_calls_of evs = O.

(** The [try] block of [get_artist_spotify], which also joins the ids. *)
Definition artists_attempt {Json} (json_loads : string -> option Json)
           (transport : nat -> Request -> Reply)
           (batch_artist_list : list Artist) (token : string)
  : M (option Json) :=
  let headers := [("Authorization", ("Bearer " ++ token)%string)] in
  spotify_ids <- comprehension read_id batch_artist_list ;;
  spotify_ids_str <- str_join "," spotify_ids ;;
  let params := [("ids", spotify_ids_str)] in
  response <- requests_get transport "https://api.spotify.com/v1/artists"
                headers params None ;;
  raise_for_status response ;;
  j <- response_json json_loads response ;;
  ret (Some j).

(** The seconds a call has spent asleep. *)
Definition total_slept (w : World) : Z := fold_right Z.add 0 (slept w).

(** A computation that sends at most [b] requests. *)
Definition requests_at_most {A} (b : nat) (m : M A) : Prop :=
  forall w, exists evs,
    trace (snd (m w)) = trace w ++ evs
    /\ (List.length (requests_of evs) <= b)%nat.

(** What the [try] block of [get_artist_spotify] raises when the ids of
    the batch do not join: the error of the first element whose
    ["spotify_id"] cannot be read, else the [TypeError] of [",".join]. *)
Fixpoint ids_error (batch : list Artist) : exn :=
  match batch with
  | [] => TypeError
  | mkArtist _ _ :: rest => ids_error rest
  | NoSpotifyId :: _ => KeyError_ "spotify_id"
  | NotADict :: _ => TypeError
  end.

(** The effects of [k] consecutive attempts of [get_artist_spotify] whose
    ids do not join: a warning and a sleep each, and no request. *)
Fixpoint join_failure_events (what : string) (e : exn) (sleep_time : Z)
         (a k : nat) : list Event :=
  match k with
  | O => []
  | S k' =>
      LogWarning what e (backoff sleep_time (Z.of_nat a))
        :: Sleep (backoff sleep_time (Z.of_nat a))
        :: join_failure_events what e sleep_time (S a) k'
  end.

(** * The stages around the fetch functions *)

(** ** Documents *)

#[local] Set Warnings "-register-all".

(** What [json.loads] builds: [None], booleans, integers, floats (kept as
    their literal), strings, lists, and dictionaries with their keys in
    insertion order. *)
Inductive json : Type :=
| JNull
| JBool (b : bool)
| JInt (z : Z)
| JFloat (literal : string)
| JStr (s : string)
| JList (items : list json)
| JObj (fields : list (string * json)).

(** A subscript: a string key or an integer position. *)
Inductive index : Type :=
| Key (k : string)
| At (i : Z).

(** The class a stage gives to the exception it raises from its handler. *)
Inductive wrapper : Type :=
| AsException                                  (* raise Exception(...) *)
| AsRuntimeError.                              (* raise RuntimeError(...) *)

(** The exceptions seen by the stages: those of the fetch functions, the
    two lookup errors, and [cls(f"{text}: {e}")] raised by a handler. *)
Inductive perr : Type :=
| Low (e : exn)
| KeyError (k : index)
| IndexError
| Wrapped (cls : wrapper) (text : string) (cause : perr).

(** [isinstance(e, Exception)] *)
Definition is_pException (e : perr) : bool :=
  match e with
  | Low e' => is_Exception e'
  | _ => true
  end.

Inductive PResult (A : Type) : Type :=
| Done (a : A)
| Failed (e : perr).
Arguments Done {A} a.
Arguments Failed {A} e.

(** [str(n)] for an [int]. *)
Definition str_of_Z (z : Z) : string :=
  DecimalString.NilZero.string_of_int (Z.to_int z).

Definition str_of_nat (n : nat) : string := str_of_Z (Z.of_nat n).

(** [d[k]] on a dictionary, first binding of [k]. *)
Fixpoint lookup (k : string) (fields : list (string * json)) : option json :=
  match fields with
  | [] => None
  | (k', v) :: rest => if String.eqb k k' then Some v else lookup k rest
  end.

(** A position as Python resolves it against a length: negative positions
    count from the end. *)
Definition resolve (i : Z) (len : nat) : option nat :=
  if (0 <=? i) && (i <? Z.of_nat len) then Some (Z.to_nat i)
  else if (i <? 0) && (0 <=? i + Z.of_nat len)
       then Some (Z.to_nat (i + Z.of_nat len))
       else None.

(** [v[k]] *)
Definition subscript (v : json) (k : index) : PResult json :=
  match v, k with
  | JObj fields, Key s =>
      match lookup s fields with
      | Some x => Done x
      | None => Failed (KeyError k)
      end
  | JObj _, At _ => Failed (KeyError k)
  | JList items, At i =>
      match resolve i (List.length items) with
      | Some p =>
          match nth_error items p with
          | Some x => Done x
          | None => Failed IndexError
          end
      | None => Failed IndexError
      end
  | JStr s, At i =>
      match resolve i (String.length s) with
      | Some p =>
          match String.get p s with
          | Some c => Done (JStr (String c EmptyString))
          | None => Failed IndexError
          end
      | None => Failed IndexError
      end
  | _, _ => Failed (Low TypeError)
  end.

(** [iter(v)], run to its end: the elements of a list, the keys of a
    dictionary, the characters of a string. *)
Definition elements (v : json) : PResult (list json) :=
  match v with
  | JList items => Done items
  | JObj fields => Done (map (fun kv => JStr (fst kv)) fields)
  | JStr s =>
      Done (map (fun c => JStr (String c EmptyString)) (list_ascii_of_string s))
  | _ => Failed (Low TypeError)
  end.

(** The keys of a dictionary, in order. *)
Definition keys (v : json) : list string :=
  match v with
  | JObj fields => map fst fields
  | _ => []
  end.

(** ** Effects of a stage *)

Inductive PEvent : Type :=
| Net (ev : Event)                       (* an effect of the fetch layer *)
| LogInfo (text : string)                (* logger.info(text) *)
| LogFailure (text : string) (cause : perr)
    (* logger.error(f"{text}: {e}") *)
| Upload (bucket_name blob_name data : string).
    (* blob.upload_from_string(data), once it has returned *)

Record PWorld : Type := mkPWorld {
  pcalls : nat;
  ptrace : list PEvent
}.

Definition pw0 : PWorld := mkPWorld 0 [].

Definition P (A : Type) : Type := PWorld -> PResult A * PWorld.

Definition p_ret {A} (a : A) : P A := fun pw => (Done a, pw).

Definition p_raise {A} (e : perr) : P A := fun pw => (Failed e, pw).

Definition p_bind {A B} (m : P A) (k : A -> P B) : P B :=
  fun pw =>
    match m pw with
    | (Done a, pw1) => k a pw1
    | (Failed e, pw1) => (Failed e, pw1)
    end.

Notation "x <-- m ;; k" := (p_bind m (fun x => k))
  (at level 61, m at next level, right associativity).

(** A value or an exception computed without effects. *)
Definition pure {A} (r : PResult A) : P A := fun pw => (r, pw).

(** A computation of the fetch layer run from a stage: it has a frame of
    its own (its [e] starts unbound), talks to the same transport, and its
    effects follow those made so far. *)
Definition lift {A} (m : M A) : P A :=
  fun pw =>
    let (r, w) := m (mkWorld (pcalls pw) [] None) in
    (match r with
     | Returned a => Done a
     | Raised e => Failed (Low e)
     end,
     mkPWorld (calls w) (ptrace pw ++ map Net (trace w))).

Definition logger_info (text : string) : P unit :=
  fun pw => (Done tt, mkPWorld (pcalls pw) (ptrace pw ++ [LogInfo text])).

Definition logger_failure (text : string) (cause : perr) : P unit :=
  fun pw =>
    (Done tt, mkPWorld (pcalls pw) (ptrace pw ++ [LogFailure text cause])).

(** [try: body / except Exception as e: handler] in a stage. *)
Definition p_try_except {A} (body : P A) (handler : perr -> P A) : P A :=
  fun pw =>
    match body pw with
    | (Done a, pw1) => (Done a, pw1)
    | (Failed e, pw1) =>
        if is_pException e then handler e pw1 else (Failed e, pw1)
    end.

(** A loop that appends one value per element, in order. *)
Fixpoint map_each {B} (f : json -> P B) (xs : list json) : P (list B) :=
  match xs with
  | [] => p_ret []
  | x :: rest =>
      y <-- f x ;;
      ys <-- map_each f rest ;;
      p_ret (y :: ys)
  end.

(** The effects of the fetch layer within a stage's trace. *)
Fixpoint net_of (t : list PEvent) : list Event :=
  match t with
  | [] => []
  | Net ev :: t' => ev :: net_of t'
  | _ :: t' => net_of t'
  end.

Definition p_requests (pw : PWorld) : list Request :=
  requests_of (net_of (ptrace pw)).

Definition p_slept (pw : PWorld) : list Z := sleeps_of (net_of (ptrace pw)).

(** [BASE_URL.format(page_number=...)] of get_artists.py *)
Definition BASE_URL (page_number : string) : string :=
  ("https://kworb.net/spotify/listeners" ++ page_number ++ ".html")%string.

(** The keys of the records the two processing stages build. *)
Definition album_keys : list string :=
  ["id"; "name"; "artist_name"; "url"; "type"; "release_date";
   "total_tracks"; "is_processed"; "images"].

Definition song_keys : list string :=
  ["spotify_id"; "name"; "album"; "artists"; "primary_artist";
   "spotify_url"; "release_date"; "duration_ms"; "explicit"].

Section Stages.

(** The decoder behind [response.json()] and the remote side. *)
Variable json_loads : string -> option json.
Variable transport : nat -> Request -> Reply.

(** [repr] of the values whose text is not spelled out here: floats,
    lists and dictionaries. *)
Variable py_repr : json -> string.

(** [str(v)], which is what an f-string writes for [{v}]. *)
Definition py_str (v : json) : string :=
  match v with
  | JStr s => s
  | JNull => "None"
  | JBool true => "True"
  | JBool false => "False"
  | JInt z => str_of_Z z
  | _ => py_repr v
  end.

(** get_artists.py, lines 27-48 *)
Definition get_artists_kworb (page_number : Z) : P string :=
  _ <-- logger_info ("Getting html of page " ++ str_of_Z page_number
                       ++ " from kworb's page")%string ;;
  p_try_except
    (let headers := [("User-Agent", "Mozilla/5.0")] in
     let url := if page_number =? 1
                then BASE_URL ""
                else BASE_URL (str_of_Z page_number) in
     response <-- lift (requests_get transport url headers [] (Some 10)) ;;
     _ <-- lift (raise_for_status response) ;;
     _ <-- logger_info ("Successfully got html of page "
                          ++ str_of_Z page_number
                          ++ " from kworb's page")%string ;;
     p_ret (text response))
    (fun e =>
       _ <-- logger_failure
               ("Error getting html page " ++ str_of_Z page_number
                  ++ " for kworb artists")%string e ;;
       p_raise (Wrapped AsRuntimeError
                  ("Error getting html page " ++ str_of_Z page_number
                     ++ " for kworb artists")%string e)).

(** The body of the loop of [process_albums_from_spotify]: the record
    built for one album. *)
Definition individual_album (album artist : json) : P json :=
  id <-- pure (subscript album (Key "id")) ;;
  name <-- pure (subscript album (Key "name")) ;;
  artist_name <-- pure (subscript artist (Key "artist_name")) ;;
  external_urls <-- pure (subscript album (Key "external_urls")) ;;
  url <-- pure (subscript external_urls (Key "spotify")) ;;
  album_type <-- pure (subscript album (Key "album_type")) ;;
  release_date <-- pure (subscript album (Key "release_date")) ;;
  total_tracks <-- pure (subscript album (Key "total_tracks")) ;;
  images <-- pure (subscript album (Key "images")) ;;
  p_ret (JObj [("id", id); ("name", name); ("artist_name", artist_name);
               ("url", url); ("type", album_type);
               ("release_date", release_date);
               ("total_tracks", total_tracks);
               ("is_processed", JBool false); ("images", images)]).

(** get_albums.py, lines 69-93 *)
Definition process_albums_from_spotify (artist : json) (token : string)
  : P (list json) :=
  p_try_except
    (spotify_id <-- pure (subscript artist (Key "spotify_id")) ;;
     response <-- lift (get_albums_from_spotify json_loads transport
                          (py_str spotify_id) token 3 1) ;;
     items <-- pure (subscript response (Key "items")) ;;
     albums <-- pure (elements items) ;;
     album_list <-- map_each (fun album => individual_album album artist)
                      albums ;;
     artist_name <-- pure (subscript artist (Key "artist_name")) ;;
     _ <-- logger_info ("Successfully processed "
                          ++ str_of_nat (List.length album_list)
                          ++ " albums for " ++ py_str artist_name
                          ++ " from spotify")%string ;;
     p_ret album_list)
    (fun e =>
       _ <-- logger_failure "Error processing albums from spotify" e ;;
       p_raise (Wrapped AsException "Error processing albums from spotify" e)).

(** The body of the loop of [process_album_songs_from_spotify]. *)
Definition individual_song (song album : json) : P json :=
  id <-- pure (subscript song (Key "id")) ;;
  name <-- pure (subscript song (Key "name")) ;;
  album_name <-- pure (subscript album (Key "album")) ;;
  song_artists <-- pure (subscript song (Key "artists")) ;;
  artists <-- pure (elements song_artists) ;;
  names <-- map_each (fun artist => pure (subscript artist (Key "name")))
              artists ;;
  song_artists' <-- pure (subscript song (Key "artists")) ;;
  first <-- pure (subscript song_artists' (At 0)) ;;
  primary_artist <-- pure (subscript first (Key "name")) ;;
  external_urls <-- pure (subscript song (Key "external_urls")) ;;
  spotify_url <-- pure (subscript external_urls (Key "spotify")) ;;
  release_date <-- pure (subscript album (Key "release_date")) ;;
  duration_ms <-- pure (subscript song (Key "duration_ms")) ;;
  explicit <-- pure (subscript song (Key "explicit")) ;;
  p_ret (JObj [("spotify_id", id); ("name", name); ("album", album_name);
               ("artists", JList names); ("primary_artist", primary_artist);
               ("spotify_url", spotify_url); ("release_date", release_date);
               ("duration_ms", duration_ms); ("explicit", explicit)]).

(** get_songs.py, lines 73-93 *)
Definition process_album_songs_from_spotify (album : json) (token : string)
  : P (list json) :=
  p_try_except
    (album_id <-- pure (subscript album (Key "spotify_id")) ;;
     songs <-- lift (fetch_album_songs_from_spotify json_loads transport
                       (py_str album_id) token 3 1) ;;
     items <-- pure (subscript songs (Key "items")) ;;
     song_items <-- pure (elements items) ;;
     songs_list <-- map_each (fun song => individual_song song album)
                      song_items ;;
     p_ret songs_list)
    (fun e =>
       _ <-- logger_failure "Error processing album songs from spotify" e ;;
       p_raise (Wrapped AsException
                  "Error processing album songs from spotify" e)).

End Stages.

(** ** The enrichment stage of get_artists.py *)

(** [d[k] = v] on a dictionary: the value of an existing key is replaced
    in place, a new key goes to the end. *)
Fixpoint update (k : string) (v : json) (fields : list (string * json))
  : list (string * json) :=
  match fields with
  | [] => [(k, v)]
  | (k', x) :: rest =>
      if String.eqb k k' then (k', v) :: rest
      else (k', x) :: update k v rest
  end.

Definition setitem (d : json) (k : string) (v : json) : PResult json :=
  match d with
  | JObj fields => Done (JObj (update k v fields))
  | _ => Failed (Low TypeError)
  end.

(** [d[p1]...[pn][k] = v]: the dictionaries on the path are looked up from
    the outside in, the innermost is assigned to, and since they are
    mutated in place the change shows in [d]. *)
Fixpoint setitem_at (d : json) (path : list string) (k : string) (v : json)
  : PResult json :=
  match path with
  | [] => setitem d k v
  | p :: path' =>
      match subscript d (Key p) with
      | Done inner =>
          match setitem_at inner path' k v with
          | Done inner' => setitem d p inner'
          | Failed e => Failed e
          end
      | Failed e => Failed e
      end
  end.

(** The values of [range(0, len, batch_size)]. *)
Definition batch_starts (len : nat) (batch_size : Z) : PResult (list nat) :=
  if batch_size =? 0 then Failed (Low ValueError)
  else if batch_size <? 0 then Done []
       else Done (map (fun k => (k * Z.to_nat batch_size)%nat)
                      (seq 0 ((len + Z.to_nat batch_size - 1)
                                / Z.to_nat batch_size))).

(** [l[i : i + batch_size]] for [i >= 0] and [batch_size > 0]. *)
Definition slice {A} (l : list A) (i : nat) (batch_size : Z) : list A :=
  firstn (Z.to_nat batch_size) (skipn i l).

(** What [get_artist_spotify] reads of an element of the batch: its
    ["spotify_id"], which joins only if it is a string; the lookup raises
    [KeyError] on a dictionary without the key and [TypeError] on a value
    that is no dictionary. *)
Definition as_artist (artist : json) : Artist :=
  match subscript artist (Key "spotify_id") with
  | Done v =>
      mkArtist
        match v with
        | JStr s => Some s
        | _ => None
        end
        match subscript artist (Key "artist_name") with
        | Done (JStr s) => Some s
        | _ => None
        end
  | Failed (KeyError _) => NoSpotifyId
  | Failed _ => NotADict
  end.

(** [for index, x in enumerate(xs)] with one value appended per element. *)
Fixpoint map_enumerate {B} (f : nat -> json -> P B) (index : nat)
         (xs : list json) : P (list B) :=
  match xs with
  | [] => p_ret []
  | x :: rest =>
      y <-- f index x ;;
      ys <-- map_enumerate f (S index) rest ;;
      p_ret (y :: ys)
  end.

Section Enrichment.

Variable json_loads : string -> option json.
Variable transport : nat -> Request -> Reply.

(** Outcome of the [n]-th call of [get_spotify_access_token] of a run. *)
Variable token_source : nat -> exn + string.

(** [int(v)] for a float or a string. *)
Variable int_of_text : json -> PResult Z.

(** [datetime.now().strftime("%Y-%m-%d %H:%M:%S")], read when asked. *)
Variable strftime_now : PWorld -> string.

(** [int(v)] *)
Definition py_int (v : json) : PResult json :=
  match v with
  | JInt z => Done (JInt z)
  | JBool b => Done (JInt (if b then 1 else 0))
  | JFloat _ | JStr _ =>
      match int_of_text v with
      | Done z => Done (JInt z)
      | Failed e => Failed e
      end
  | _ => Failed (Low TypeError)
  end.

Definition now : P string := fun pw => (Done (strftime_now pw), pw).

(** [response["artists"][index]] *)
Definition entry_of (response : json) (index : nat) : P json :=
  artists <-- pure (subscript response (Key "artists")) ;;
  pure (subscript artists (At (Z.of_nat index))).

(** The body of the inner loop of [process_spotify_response]: the eight
    assignments to one artist, each right-hand side evaluated first. *)
Definition enrich (response : json) (index : nat) (artist : json) : P json :=
  entry <-- entry_of response index ;;
  external_urls <-- pure (subscript entry (Key "external_urls")) ;;
  url <-- pure (subscript external_urls (Key "spotify")) ;;
  artist <-- pure (setitem artist "spotify_url" url) ;;
  stamp <-- now ;;
  artist <-- pure (setitem artist "init_processed_at" (JStr stamp)) ;;
  artist <-- pure (setitem_at artist ["metrics"] "spotify" (JObj [])) ;;
  entry <-- entry_of response index ;;
  followers <-- pure (subscript entry (Key "followers")) ;;
  total <-- pure (subscript followers (Key "total")) ;;
  total <-- pure (py_int total) ;;
  artist <-- pure (setitem_at artist ["metrics"; "spotify"] "followers"
                     total) ;;
  entry <-- entry_of response index ;;
  popularity <-- pure (subscript entry (Key "popularity")) ;;
  popularity <-- pure (py_int popularity) ;;
  artist <-- pure (setitem_at artist ["metrics"; "spotify"] "popularity"
                     popularity) ;;
  artist <-- pure (setitem artist "spotify_meta" (JObj [])) ;;
  entry <-- entry_of response index ;;
  genres <-- pure (subscript entry (Key "genres")) ;;
  artist <-- pure (setitem_at artist ["spotify_meta"] "genres" genres) ;;
  entry <-- entry_of response index ;;
  images <-- pure (subscript entry (Key "images")) ;;
  artist <-- pure (setitem_at artist ["spotify_meta"] "images" images) ;;
  p_ret artist.

(** [get_artist_spotify(batch_artist_list)], with its defaults; the token
    service is asked anew by every call. *)
Definition fetch_batch (batch : list json) : P json :=
  fun pw =>
    lift (get_artist_spotify json_loads transport
            (token_source (token_calls_of (net_of (ptrace pw))))
            (map as_artist batch) 3 1) pw.

(** The outer loop: one batch per start index.  The artists are updated in
    place, so the list carries the changes of the batches done so far. *)
Fixpoint for_batches (starts : list nat) (batch_size : Z)
         (artist_list : list json) : P (list json) :=
  match starts with
  | [] => p_ret artist_list
  | i :: rest =>
      let batch_artist_list := slice artist_list i batch_size in
      response <-- fetch_batch batch_artist_list ;;
      updated <-- map_enumerate (enrich response) 0 batch_artist_list ;;
      _ <-- lift (time_sleep 1) ;;
      for_batches rest batch_size
        (firstn i artist_list ++ updated
           ++ skipn (i + List.length batch_artist_list) artist_list)
  end.

(** get_artists.py, lines 137-166.  The progress bar of [tqdm] is left
    out; when the function raises, the artists updated so far stay updated
    in the caller's list, which the result here does not show. *)
Definition process_spotify_response (artist_list : list json)
           (batch_size : Z) : P (list json) :=
  p_try_except
    (_ <-- logger_info ("Processing spotify response for "
                          ++ str_of_nat (List.length artist_list)
                          ++ " artists")%string ;;
     starts <-- pure (batch_starts (List.length artist_list) batch_size) ;;
     artist_list' <-- for_batches starts batch_size artist_list ;;
     _ <-- logger_info ("Successfully processed spotify response for "
                          ++ str_of_nat (List.length artist_list')
                          ++ " artists")%string ;;
     p_ret artist_list')
    (fun e =>
       _ <-- logger_failure "Error processing spotify response" e ;;
       p_raise (Wrapped AsException "Error processing spotify response" e)).

End Enrichment.

(** [v[k1]...[kn]] *)
Fixpoint at_path (v : json) (path : list string) : PResult json :=
  match path with
  | [] => Done v
  | k :: rest =>
      match subscript v (Key k) with
      | Done x => at_path x rest
      | Failed e => Failed e
      end
  end.

(** A document [get_artist_spotify] returned for a batch: the decoded
    reply to a request that carries the ids of the batch. *)
Definition fetched_for (json_loads : string -> option json)
           (transport : nat -> Request -> Reply) (batch : list json)
           (response : json) : Prop :=
  exists ids tok c,
    all_str (map spotify_id (map as_artist batch)) = Some ids
    /\ attempt_result json_loads (transport c (artists_request ids tok))
       = Returned response.

(** A request for one batch of [artist_list]: it carries the ids of the
    artists of a slice [artist_list[i : i + batch_size]] whose start [i]
    is a multiple of [batch_size] within the list. *)
Definition batch_request (artist_list : list json) (batch_size : Z)
           (req : Request) : Prop :=
  exists k ids tok,
    (k * Z.to_nat batch_size < List.length artist_list)%nat
    /\ all_str (map spotify_id
                  (map as_artist
                       (slice artist_list (k * Z.to_nat batch_size)
                              batch_size)))
       = Some ids
    /\ (0 < List.length ids <= Z.to_nat batch_size)%nat
    /\ req = artists_request ids tok.

(** What the inner loop of [process_spotify_response] makes of an artist
    from the entry Spotify returned for it: the url, the time stamp, the
    two numbers under ["metrics"]["spotify"] and the two lists under
    ["spotify_meta"] are assigned; the other entries of the artist and of
    its ["metrics"] stay as they were. *)
Definition enriched_from (int_of_text : json -> PResult Z) (entry : json)
           (stamp : string) (artist artist' : json) : Prop :=
  exists url total followers popularity popularity' genres images
         metrics metrics',
    at_path entry ["external_urls"; "spotify"] = Done url
    /\ at_path entry ["followers"; "total"] = Done total
    /\ py_int int_of_text total = Done followers
    /\ at_path entry ["popularity"] = Done popularity
    /\ py_int int_of_text popularity = Done popularity'
    /\ at_path entry ["genres"] = Done genres
    /\ at_path entry ["images"] = Done images
    /\ subscript artist' (Key "spotify_url") = Done url
    /\ subscript artist' (Key "init_processed_at") = Done (JStr stamp)
    /\ subscript artist (Key "metrics") = Done metrics
    /\ subscript artist' (Key "metrics") = Done metrics'
    /\ subscript metrics' (Key "spotify")
       = Done (JObj [("followers", followers);
                     ("popularity", popularity')])
    /\ (forall k, k <> "spotify" ->
                  subscript metrics' (Key k) = subscript metrics (Key k))
    /\ subscript artist' (Key "spotify_meta")
       = Done (JObj [("genres", genres); ("images", images)])
    /\ (forall k,
          ~ In k ["spotify_url"; "init_processed_at"; "metrics";
                  "spotify_meta"] ->
          subscript artist' (Key k) = subscript artist (Key k)).

(** The request [get_artists_kworb] sends for a page. *)
Definition kworb_request (page_number : Z) : Request :=
  mkRequest (if page_number =? 1
             then BASE_URL ""
             else BASE_URL (str_of_Z page_number))
            [("User-Agent", "Mozilla/5.0")] [] (Some 10).

(** A decoder for stubbed documents: two bodies stand for two documents,
    anything else does not parse. *)
Definition stub_documents (s : string) : option json :=
  if String.eqb s "albums" then
    Some (JObj [("items",
                 JList [JObj [("id", JStr "al1"); ("name", JStr "One");
                              ("external_urls",
                               JObj [("spotify", JStr "https://x/al1")]);
                              ("album_type", JStr "album");
                              ("release_date", JStr "2001");
                              ("total_tracks", JInt 2);
                              ("images", JList [])]]);
                ("next", JStr "https://api.spotify.com/v1/next-page")])
  else if String.eqb s "tracks" then
    Some (JObj [("items",
                 JList [JObj [("id", JStr "t1"); ("name", JStr "Song");
                              ("artists",
                               JList [JObj [("name", JStr "Ann")];
                                      JObj [("name", JStr "Bob")]]);
                              ("external_urls",
                               JObj [("spotify", JStr "https://x/t1")]);
                              ("duration_ms", JInt 1000);
                              ("explicit", JBool false)]])])
  else None.

Definition stub_repr (v : json) : string := "<repr>".

(** An album as Spotify lists it. *)
Definition stub_album_item : json :=
  JObj [("id", JStr "al1"); ("name", JStr "One");
        ("external_urls", JObj [("spotify", JStr "https://x/al1")]);
        ("album_type", JStr "album"); ("release_date", JStr "2001");
        ("total_tracks", JInt 2); ("images", JList [])].

Definition stub_artist : json :=
  JObj [("spotify_id", JStr "ar1"); ("artist_name", JStr "Ann");
        ("spotify_url", JNull); ("init_processed_at", JNull)].

(** The record [process_albums_from_spotify] builds for the one album of
    the stubbed document. *)
Definition stub_album_record : json :=
  JObj [("id", JStr "al1"); ("name", JStr "One");
        ("artist_name", JStr "Ann"); ("url", JStr "https://x/al1");
        ("type", JStr "album"); ("release_date", JStr "2001");
        ("total_tracks", JInt 2); ("is_processed", JBool false);
        ("images", JList [])].

Definition stub_album : json :=
  JObj [("spotify_id", JStr "al1"); ("album", JStr "One");
        ("release_date", JStr "2001"); ("type", JStr "album")].

(** Stubs for the enrichment stage: an artist as [process_kworb_html]
    leaves it, the entry Spotify returns for it, the artist once enriched,
    and a decoder that answers every body with two entries. *)
Definition stub_listed_artist (id name : string) : json :=
  JObj [("spotify_id", JStr id); ("artist_name", JStr name);
        ("spotify_url", JNull); ("init_processed_at", JNull);
        ("metrics", JObj [("kworb", JObj [("monthly_listeners", JInt 5)])])].

Definition stub_entry (url : string) : json :=
  JObj [("external_urls", JObj [("spotify", JStr url)]);
        ("followers", JObj [("total", JInt 10)]);
        ("popularity", JInt 50);
        ("genres", JList []); ("images", JList [])].

Definition stub_enriched_artist (id name url : string) : json :=
  JObj [("spotify_id", JStr id); ("artist_name", JStr name);
        ("spotify_url", JStr url); ("init_processed_at", JStr "now");
        ("metrics",
         JObj [("kworb", JObj [("monthly_listeners", JInt 5)]);
               ("spotify",
                JObj [("followers", JInt 10); ("popularity", JInt 50)])]);
        ("spotify_meta", JObj [("genres", JList []); ("images", JList [])])].

Definition stub_two_entries (s : string) : option json :=
  Some (JObj [("artists", JList [stub_entry "u1"; stub_entry "u2"])]).

(** ** The albums pipeline *)

(** The blobs written by a run: bucket, blob name and data of every
    upload that returned, in order. *)
Fixpoint uploads_of (t : list PEvent) : list (string * string * string) :=
  match t with
  | [] => []
  | Upload bucket_name blob_name data :: t' =>
      (bucket_name, blob_name, data) :: uploads_of t'
  | _ :: t' => uploads_of t'
  end.

(** A loop run for its effects, one element after the other. *)
Fixpoint for_all (f : json -> P unit) (xs : list json) : P unit :=
  match xs with
  | [] => p_ret tt
  | x :: rest => _ <-- f x ;; for_all f rest
  end.

Section Pipeline.

Variable json_loads : string -> option json.
Variable transport : nat -> Request -> Reply.
Variable py_repr : json -> string.

(** What [get_spotify_access_token()] of the auth module does. *)
Variable token_outcome : exn + string.

(** [storage.Client.from_service_account_json("gcp_creds.json")]: the
    exception it raises, if any. *)
Variable client_failure : option exn.

(** [json.dumps(v, indent=3, ensure_ascii=False)] *)
Variable json_dumps : json -> string.

(** The storage service: what the upload of [data] to a blob of a bucket
    raises, if anything, given how many uploads the run has made. *)
Variable gcs : nat -> string -> string -> string -> option exn.

Definition storage_client : P unit :=
  fun pw =>
    match client_failure with
    | Some e => (Failed (Low e), pw)
    | None => (Done tt, pw)
    end.

(** [client.bucket(bucket_name).blob(blob_name).upload_from_string(data)] *)
Definition upload_from_string (bucket_name blob_name data : string) : P unit :=
  fun pw =>
    match gcs (List.length (uploads_of (ptrace pw))) bucket_name blob_name
              data with
    | Some e => (Failed (Low e), pw)
    | None =>
        (Done tt,
         mkPWorld (pcalls pw)
                  (ptrace pw ++ [Upload bucket_name blob_name data]))
    end.

(** The name of the blob of an artist's albums:
    [f"{base_blob_name}/{artist['spotify_id']}_{artist['artist_name']}/albums.json"] *)
Definition albums_blob_name (base_blob_name : string) (artist : json)
  : P string :=
  spotify_id <-- pure (subscript artist (Key "spotify_id")) ;;
  artist_name <-- pure (subscript artist (Key "artist_name")) ;;
  p_ret (base_blob_name ++ "/" ++ py_str py_repr spotify_id ++ "_"
           ++ py_str py_repr artist_name ++ "/albums.json")%string.

(** The body of the loop of [write_albums_to_gcs]. *)
Definition write_albums_of (bucket_name base_blob_name token : string)
           (artist : json) : P unit :=
  blob <-- albums_blob_name base_blob_name artist ;;
  albums <-- process_albums_from_spotify json_loads transport py_repr artist
               token ;;
  upload_from_string bucket_name blob (json_dumps (JList albums)).

(** get_albums.py, lines 95-117.  The progress bar of [tqdm] is left out. *)
Definition write_albums_to_gcs (bucket_name base_blob_name : string)
           (artists : list json) : P unit :=
  let text := ("Error writing albums to gcs bucket " ++ bucket_name
                 ++ " with base blob name " ++ base_blob_name)%string in
  p_try_except
    (token <-- lift (get_spotify_access_token token_outcome) ;;
     _ <-- storage_client ;;
     _ <-- for_all (write_albums_of bucket_name base_blob_name token)
             artists ;;
     logger_info ("Successfully wrote albums for "
                    ++ str_of_nat (List.length artists)
                    ++ " artists to gcs bucket " ++ bucket_name
                    ++ " with base blob name " ++ base_blob_name)%string)
    (fun e =>
       _ <-- logger_failure text e ;;
       p_raise (Wrapped AsException text e)).

End Pipeline.

(** A storage service that takes every upload. *)
Definition stub_gcs : nat -> string -> string -> string -> option exn :=
  fun _ _ _ _ => None.

Definition stub_dumps (v : json) : string := "<json>".

(** What a part of a stage adds to the trace when it neither asks for a
    token nor uploads, and sends requests of one kind only. *)
Definition adds_only (ok : Request -> Prop) (before after : list PEvent)
  : Prop :=
  exists evs,
    after = before ++ evs
    /\ token_calls_of (net_of evs) = O
    /\ uploads_of evs = []
    /\ Forall ok (requests_of (net_of evs)).

(** What [write_albums_to_gcs] uploads for an artist: the albums that
    [process_albums_from_spotify] returned for it, under the artist's blob
    name. *)
Definition albums_upload_of (json_loads : string -> option json)
           (transport : nat -> Request -> Reply) (py_repr : json -> string)
           (json_dumps : json -> string)
           (bucket_name base_blob_name token : string) (artist : json)
           (up : string * string * string) : Prop :=
  exists id name albums pw,
    subscript artist (Key "spotify_id") = Done id
    /\ subscript artist (Key "artist_name") = Done name
    /\ fst (process_albums_from_spotify json_loads transport py_repr artist
              token pw) = Done albums
    /\ up = (bucket_name,
             (base_blob_name ++ "/" ++ py_str py_repr id ++ "_"
                ++ py_str py_repr name ++ "/albums.json")%string,
             json_dumps (JList albums)).

(** A request for the albums of one of [artists]. *)
Definition albums_request_of (py_repr : json -> string) (token : string)
           (artists : list json) (req : Request) : Prop :=
  exists artist id,
    In artist artists
    /\ subscript artist (Key "spotify_id") = Done id
    /\ req = albums_request (py_str py_repr id) token.

(** * Proofs *)

(** ** Traces *)

Lemma requests_of_app (t1 t2 : list Event) :
  requests_of (t1 ++ t2) = requests_of t1 ++ requests_of t2.
Proof.
  induction t1 as [|ev t1 IH]; simpl; [reflexivity|].
  destruct ev; simpl; rewrite IH; reflexivity.
Qed.

Lemma sleeps_of_app (t1 t2 : list Event) :
  sleeps_of (t1 ++ t2) = sleeps_of t1 ++ sleeps_of t2.
Proof.
  induction t1 as [|ev t1 IH]; simpl; [reflexivity|].
  destruct ev; simpl; rewrite IH; reflexivity.
Qed.

Lemma token_calls_of_app (t1 t2 : list Event) :
  token_calls_of (t1 ++ t2) = (token_calls_of t1 + token_calls_of t2)%nat.
Proof.
  induction t1 as [|ev t1 IH]; simpl; [reflexivity|].
  destruct ev; simpl; rewrite IH; reflexivity.
Qed.

(** ** Arithmetic of the delays *)

Lemma backoff_nonneg (s a : Z) : 0 <= s -> 0 <= a -> 0 <= backoff s a.
Proof.
  intros Hs Ha. unfold backoff.
  apply Z.mul_nonneg_nonneg; [assumption|].
  apply Z.pow_nonneg; lia.
Qed.

Lemma backoff_succ (s a : Z) : 0 <= a -> backoff s (a + 1) = 2 * backoff s a.
Proof.
  intros Ha. unfold backoff.
  rewrite Z.pow_add_r by lia. rewrite Z.pow_1_r. ring.
Qed.

Lemma backoff_pos (s a : Z) : 0 < s -> 0 <= a -> 0 < backoff s a.
Proof.
  intros Hs Ha. unfold backoff.
  apply Z.mul_pos_pos; [assumption|].
  apply Z.pow_pos_nonneg; lia.
Qed.

Lemma backoff_lt_succ (s a : Z) :
  0 < s -> 0 <= a -> backoff s a < backoff s (a + 1).
Proof.
  intros Hs Ha. rewrite backoff_succ by assumption.
  pose proof (backoff_pos s a Hs Ha). lia.
Qed.

Lemma backoffs_increasing (s : Z) (m a : nat) :
  0 < s -> strictly_increasing (map (backoff s) (map Z.of_nat (seq a m))).
Proof.
  intros Hs. revert a.
  induction m as [|m IH]; intros a; [exact I|].
  specialize (IH (S a)).
  destruct m as [|m]; [exact I|].
  change (backoff s (Z.of_nat a) < backoff s (Z.of_nat (S a))
          /\ strictly_increasing
               (map (backoff s) (map Z.of_nat (seq (S a) (S m))))).
  split; [|exact IH].
  replace (Z.of_nat (S a)) with (Z.of_nat a + 1) by lia.
  apply backoff_lt_succ; lia.
Qed.

Lemma backoff_le_mono (s a b : Z) :
  0 <= s -> 0 <= a <= b -> backoff s a <= backoff s b.
Proof.
  intros Hs Hab. unfold backoff.
  apply Z.mul_le_mono_nonneg_l; [exact Hs|].
  apply Z.pow_le_mono_r; lia.
Qed.

Lemma sleepable_refusal (x : Z) : sleepable x -> sleep_refusal x = None.
Proof.
  unfold sleepable, sleep_refusal. intros [Hlo Hhi].
  assert (H1 : (x <? - sleep_max) = false)
    by (apply Z.ltb_ge; unfold sleep_max in *; lia).
  assert (H2 : (sleep_max <? x) = false) by (apply Z.ltb_ge; lia).
  assert (H3 : (x <? 0) = false) by (apply Z.ltb_ge; lia).
  rewrite H1, H2, H3. reflexivity.
Qed.

Lemma refusal_none_sleepable (x : Z) :
  sleep_refusal x = None -> sleepable x.
Proof.
  unfold sleep_refusal, sleepable.
  destruct (Z.ltb_spec x (- sleep_max)) as [H1|H1];
    [intros H; discriminate H|].
  destruct (Z.ltb_spec sleep_max x) as [H2|H2];
    [intros H; discriminate H|].
  destruct (Z.ltb_spec x 0) as [H3|H3]; [intros H; discriminate H|].
  intros _. lia.
Qed.



Lemma backoffs_sleepable_range (s n : Z) :
  0 <= s ->
  s * 2 ^ (n - 1) <= sleep_max ->
  forall j, (j < Z.to_nat n)%nat -> sleepable (backoff s (Z.of_nat j)).
Proof.
  intros Hs Hmax j Hj. split.
  - apply backoff_nonneg; lia.
  - eapply Z.le_trans; [|exact Hmax].
    apply (backoff_le_mono s (Z.of_nat j) (n - 1)); lia.
Qed.

(** The delays of the defaults, [max_retries = 3] and [sleep_time = 1]. *)
Lemma default_delays_sleepable (j : nat) :
  (j < Z.to_nat 3)%nat -> sleepable (backoff 1 (Z.of_nat j)).
Proof.
  apply (backoffs_sleepable_range 1 3); [lia|].
  vm_compute. discriminate.
Qed.

Lemma range_length (n : Z) : List.length (range n) = Z.to_nat n.
Proof. unfold range. rewrite length_map, length_seq. reflexivity. Qed.


(** ** The loop combinators *)

Lemma for_each_app {A} (xs ys : list Z) (body : Z -> M (option A))
      (after : M A) (w : World) :
  for_each (xs ++ ys) body after w
  = for_each xs body (for_each ys body after) w.
Proof.
  revert w. induction xs as [|x xs IH]; intros w; [reflexivity|].
  simpl. unfold bind.
  destruct (body x w) as [[[v|]|e] w1]; auto.
Qed.

Lemma range_split (n : Z) (k : nat) :
  (k <= Z.to_nat n)%nat ->
  range n = map Z.of_nat (seq 0 k)
            ++ map Z.of_nat (seq k (Z.to_nat n - k)).
Proof.
  intros Hk. unfold range.
  rewrite <- map_app, <- seq_app.
  do 2 f_equal. lia.
Qed.

Section Retry.

Context {Json : Type}.
Variable json_loads : string -> option Json.
Variable transport : nat -> Request -> Reply.

(** One attempt issues one request and classifies the reply. *)
Lemma attempt_run (req : Request) (w : World) :
  attempt json_loads transport req w
  = (match attempt_result json_loads (transport (calls w) req) with
     | Returned j => Returned (Some j)
     | Raised e => Raised e
     end,
     mkWorld (S (calls w)) (trace w ++ [HttpGet req]) (local_e w)).
Proof.
  destruct req as [u h p t].
  unfold attempt, requests_get, bind, attempt_result. simpl.
  destruct (transport (calls w) (mkRequest u h p t)) as [e|r]; [reflexivity|].
  unfold raise_for_status.
  destruct ((400 <=? status_code r) && (status_code r <? 600));
    [reflexivity|].
  unfold ret, response_json.
  destruct (json_loads (text r)); reflexivity.
Qed.

(** A failed attempt followed by its handler. *)
Lemma failed_attempt_run (req : Request) (what : string) (s a : Z)
      (e : exn) (w : World) :
  sleepable (backoff s a) ->
  fails_with json_loads (transport (calls w) req) e ->
  try_except_as (attempt json_loads transport req) (on_failure what s a) w
  = (Returned None,
     mkWorld (S (calls w))
             (trace w ++ [HttpGet req;
                          LogWarning what e (backoff s a);
                          Sleep (backoff s a)])
             None).
Proof.
  intros Hb [Hres Hexc].
  unfold try_except_as. rewrite attempt_run, Hres, Hexc.
  unfold on_failure, bind, logger_warning, time_sleep, emit, set_e, ret.
  fold (backoff s a). rewrite (sleepable_refusal _ Hb).
  simpl. rewrite <- !app_assoc. reflexivity.
Qed.

Lemma error_of_fails (rp : Reply) (e : exn) :
  fails_with json_loads rp e -> error_of json_loads rp = e.
Proof. intros [Hres _]. unfold error_of. rewrite Hres. reflexivity. Qed.

(** [k] failed attempts in a row leave exactly [failure_events] behind and
    hand over to whatever follows. *)
Lemma retrying_failures (req : Request) (what : string) (s : Z)
      (after : M Json) (k : nat) :
  forall (a : nat) (w : World),
    (forall j, (j < k)%nat -> sleepable (backoff s (Z.of_nat (a + j)))) ->
    (forall j, (j < k)%nat -> fails json_loads (transport (calls w + j) req)) ->
    local_e w = None ->
    retrying (attempt json_loads transport req) what after
             (map Z.of_nat (seq a k)) s w
    = after (mkWorld (calls w + k)
                     (trace w ++ failure_events json_loads transport req
                                   what s (calls w) a k)
                     None).
Proof.
  induction k as [|k IH]; intros a w Hsl Hfail He.
  - simpl. rewrite Nat.add_0_r, app_nil_r.
    destruct w as [c t l]. simpl in *. subst l. reflexivity.
  - unfold retrying in *. simpl. unfold bind at 1.
    destruct (Hfail O ltac:(lia)) as [e Hfe].
    rewrite Nat.add_0_r in Hfe.
    pose proof (Hsl O ltac:(lia)) as Hb. rewrite Nat.add_0_r in Hb.
    rewrite (failed_attempt_run req what s (Z.of_nat a) e w Hb Hfe).
    rewrite IH.
    + simpl. rewrite (error_of_fails _ _ Hfe).
      rewrite <- app_assoc. simpl.
      replace (S (calls w + k)) with (calls w + S k)%nat by lia.
      reflexivity.
    + intros j Hj.
      replace (S a + j)%nat with (a + S j)%nat by lia.
      apply Hsl. lia.
    + intros j Hj. simpl.
      replace (S (calls w + j)) with (calls w + S j)%nat by lia.
      apply Hfail. lia.
    + reflexivity.
Qed.

Lemma requests_of_failure_events (req : Request) (what : string) (s : Z)
      (k c a : nat) :
  requests_of (failure_events json_loads transport req what s c a k)
  = repeat req k.
Proof.
  revert c a. induction k as [|k IH]; intros c a; [reflexivity|].
  simpl. rewrite IH. reflexivity.
Qed.

Lemma sleeps_of_failure_events (req : Request) (what : string) (s : Z)
      (k c a : nat) :
  sleeps_of (failure_events json_loads transport req what s c a k)
  = map (backoff s) (map Z.of_nat (seq a k)).
Proof.
  revert c a. induction k as [|k IH]; intros c a; [reflexivity|].
  simpl. rewrite IH. reflexivity.
Qed.

Lemma token_calls_of_failure_events (req : Request) (what : string) (s : Z)
      (k c a : nat) :
  token_calls_of (failure_events json_loads transport req what s c a k) = O.
Proof.
  revert c a. induction k as [|k IH]; intros c a; [reflexivity|].
  simpl. apply IH.
Qed.

End Retry.

(** ** What holds of every run, whatever the transport answers *)

Lemma quiet_attempt {Json} (json_loads : string -> option Json)
      (transport : nat -> Request -> Reply) (req : Request) :
  quiet (attempt json_loads transport req).
Proof.
  intros w. exists [HttpGet req].
  rewrite attempt_run. simpl. auto.
Qed.

Lemma attempt_never_falls_through {Json} (json_loads : string -> option Json)
      (transport : nat -> Request -> Reply) (req : Request) (w : World) :
  fst (attempt json_loads transport req w) <> Returned None.
Proof.
  rewrite attempt_run. simpl.
  destruct (attempt_result json_loads (transport (calls w) req));
    discriminate.
Qed.

Lemma quiet_albums_after {A} (n : Z) : quiet (@albums_after A n).
Proof.
  intros w. eexists. unfold albums_after, bind, logger_error, raise, emit.
  simpl. split; [reflexivity|]. auto.
Qed.

Lemma quiet_artists_after {A} (n : Z) : quiet (@artists_after A n).
Proof.
  intros w. eexists. unfold artists_after, bind, logger_error, raise, emit.
  simpl. split; [reflexivity|]. auto.
Qed.

Lemma quiet_songs_after {A} : quiet (@songs_after A).
Proof.
  intros [c t l]. unfold songs_after, bind, load_e, logger_error, raise, emit.
  destruct l as [e|]; simpl.
  - eexists. split; [reflexivity|]. auto.
  - exists []. rewrite app_nil_r. auto.
Qed.

Lemma on_failure_run {A} (what : string) (s a : Z) (e : exn) (w : World) :
  @on_failure A what s a e w
  = match sleep_refusal (backoff s a) with
    | Some x => (Raised x, emit (LogWarning what e (backoff s a)) w)
    | None =>
        (Returned None,
         emit (Sleep (backoff s a)) (emit (LogWarning what e (backoff s a)) w))
    end.
Proof.
  unfold on_failure, bind, logger_warning, time_sleep, ret.
  fold (backoff s a). simpl.
  destruct (sleep_refusal (backoff s a)); reflexivity.
Qed.

(** The sleeps of a loop are the delays of its first [m] attempts, in
    order, for some [m]; nothing else sleeps and no token is requested. *)
Lemma retrying_sleeps {A} (body : M (option A)) (what : string)
      (after : M A) (s : Z) :
  quiet body ->
  (forall w, fst (body w) <> Returned None) ->
  quiet after ->
  forall (k a : nat) (w : World),
  exists (m : nat) (evs : list Event),
    (m <= k)%nat
    /\ trace (snd (retrying body what after (map Z.of_nat (seq a k)) s w))
       = trace w ++ evs
    /\ sleeps_of evs = map (backoff s) (map Z.of_nat (seq a m))
    /\ token_calls_of evs = O.
Proof.
  intros Hbody Hsome Hafter.
  induction k as [|k IH]; intros a w.
  - destruct (Hafter w) as (evs & Ht & Hs & Hk).
    exists O, evs. simpl. auto with arith.
  - unfold retrying in *. simpl.
    set (rest := for_each (map Z.of_nat (seq (S a) k)) _ after).
    unfold bind, try_except_as.
    destruct (Hbody w) as (evs0 & Ht0 & Hs0 & Hk0).
    specialize (Hsome w).
    destruct (body w) as [[[v|]|e] w1]; simpl in Ht0, Hsome.
    + exists O, evs0. simpl. split; [lia|]. auto.
    + congruence.
    + destruct (is_Exception e).
      * rewrite on_failure_run.
        destruct (sleep_refusal (backoff s (Z.of_nat a))) as [x|].
        -- exists O, (evs0 ++ [LogWarning what e (backoff s (Z.of_nat a))]).
           simpl. rewrite Ht0, <- app_assoc.
           rewrite sleeps_of_app, token_calls_of_app, Hs0, Hk0.
           split; [lia|]. auto.
        -- subst rest.
           match goal with
           | |- context [for_each _ _ _ ?w2] =>
               destruct (IH (S a) w2) as (m & evs & Hm & Ht & Hs & Hk)
           end.
           exists (S m),
             (evs0 ++ [LogWarning what e (backoff s (Z.of_nat a));
                       Sleep (backoff s (Z.of_nat a))] ++ evs).
           split; [lia|].
           split.
           ++ rewrite Ht. simpl. rewrite Ht0, <- !app_assoc. reflexivity.
           ++ rewrite !sleeps_of_app, !token_calls_of_app, Hs0, Hk0.
              simpl. rewrite Hs, Hk. auto.
      * exists O, evs0. simpl. split; [lia|]. auto.
Qed.

(** ** The three functions as instances of the shared loop *)

Section Shapes.

Context {Json : Type}.
Variable json_loads : string -> option Json.
Variable transport : nat -> Request -> Reply.

Lemma albums_shape (id tok : string) (n s : Z) :
  get_albums_from_spotify json_loads transport id tok n s
  = retrying (attempt json_loads transport (albums_request id tok))
             "Error getting artist's metadata from spotify api"
             (albums_after n) (range n) s.
Proof. reflexivity. Qed.

Lemma songs_shape (id tok : string) (n s : Z) :
  fetch_album_songs_from_spotify json_loads transport id tok n s
  = retrying (attempt json_loads transport (songs_request id tok))
             "Error getting album songs from spotify"
             songs_after (range n) s.
Proof. reflexivity. Qed.

Lemma artists_shape (batch : list Artist) (tok : string) (n s : Z)
      (w : World) :
  get_artist_spotify json_loads transport (inr tok) batch n s w
  = retrying (artists_attempt json_loads transport batch tok)
             "Error getting artist's metadata from spotify api"
             (artists_after n) (range n) s (emit TokenCall w).
Proof. reflexivity. Qed.

Lemma artists_token_failure (batch : list Artist) (e : exn) (n s : Z)
      (w : World) :
  get_artist_spotify json_loads transport (inl e) batch n s w
  = if is_Exception e
    then (Raised (Exception_ (Because "Error getting spotify access token" e)),
          mkWorld (calls w)
                  (trace w ++ [TokenCall;
                               LogError (Because
                                 "Error getting spotify access token" e)])
                  None)
    else (Raised e, emit TokenCall w).
Proof.
  unfold get_artist_spotify, bind, try_except_as, get_spotify_access_token.
  destruct (is_Exception e); [|reflexivity].
  unfold logger_error, raise, emit, set_e. simpl.
  rewrite <- app_assoc. reflexivity.
Qed.

(** The list comprehension over the batch either reads every id, or
    raises at the first element whose id cannot be read. *)
Lemma comprehension_read_id (batch : list Artist) (w : World) :
  (comprehension read_id batch w = (Returned (map spotify_id batch), w)
   /\ ids_error batch = TypeError)
  \/ (comprehension read_id batch w = (Raised (ids_error batch), w)
      /\ all_str (map spotify_id batch) = None).
Proof.
  induction batch as [|[id name| |] batch IH]; simpl.
  - left. split; reflexivity.
  - unfold bind, ret. simpl.
    destruct IH as [[Hrun Herr]|[Hrun Hids]]; rewrite Hrun.
    + left. split; [reflexivity|exact Herr].
    + right. split; [reflexivity|].
      destruct id; [rewrite Hids|]; reflexivity.
  - right. split; reflexivity.
  - right. split; reflexivity.
Qed.

Lemma ids_error_is_exception (batch : list Artist) :
  is_Exception (ids_error batch) = true.
Proof.
  induction batch as [|[id name| |] batch IH]; simpl; auto.
Qed.

Lemma artists_attempt_wellformed (batch : list Artist) (ids : list string)
      (tok : string) (w : World) :
  all_str (map spotify_id batch) = Some ids ->
  artists_attempt json_loads transport batch tok w
  = attempt json_loads transport (artists_request ids tok) w.
Proof.
  intros Hids. unfold artists_attempt. unfold bind at 1.
  destruct (comprehension_read_id batch w) as [[Hrun _]|[_ Hnone]];
    [|congruence].
  rewrite Hrun. unfold str_join. rewrite Hids.
  reflexivity.
Qed.

Lemma artists_attempt_illformed (batch : list Artist) (tok : string)
      (w : World) :
  all_str (map spotify_id batch) = None ->
  artists_attempt json_loads transport batch tok w
  = (Raised (ids_error batch), w).
Proof.
  intros Hids. unfold artists_attempt. unfold bind at 1.
  destruct (comprehension_read_id batch w) as [[Hrun Herr]|[Hrun _]];
    rewrite Hrun; [|reflexivity].
  unfold str_join. rewrite Hids, Herr.
  reflexivity.
Qed.

Lemma quiet_artists_attempt (batch : list Artist) (tok : string) :
  quiet (artists_attempt json_loads transport batch tok).
Proof.
  intros w.
  destruct (all_str (map spotify_id batch)) as [ids|] eqn:Hids.
  - rewrite (artists_attempt_wellformed batch ids tok w Hids).
    apply quiet_attempt.
  - rewrite (artists_attempt_illformed batch tok w Hids).
    exists []. simpl. rewrite app_nil_r. auto.
Qed.

Lemma artists_attempt_never_falls_through (batch : list Artist)
      (tok : string) (w : World) :
  fst (artists_attempt json_loads transport batch tok w) <> Returned None.
Proof.
  destruct (all_str (map spotify_id batch)) as [ids|] eqn:Hids.
  - rewrite (artists_attempt_wellformed batch ids tok w Hids).
    apply attempt_never_falls_through.
  - rewrite (artists_attempt_illformed batch tok w Hids). discriminate.
Qed.

Lemma retrying_ext {A} (body1 body2 : M (option A)) (what : string)
      (after : M A) (s : Z) (xs : list Z) :
  (forall w, body1 w = body2 w) ->
  forall w, retrying body1 what after xs s w
            = retrying body2 what after xs s w.
Proof.
  intros Hext. unfold retrying.
  induction xs as [|x xs IH]; intros w; [reflexivity|].
  simpl. unfold bind, try_except_as. rewrite Hext.
  destruct (body2 w) as [[[v|]|e] w1]; auto.
  destruct (is_Exception e); [|reflexivity].
  destruct (on_failure what s x e (set_e (Some e) w1)) as [[[v|]|e'] w2];
    auto.
Qed.

End Shapes.

(** ** Runs from a fresh world *)

Section Runs.

Context {Json : Type}.
Variable json_loads : string -> option Json.
Variable transport : nat -> Request -> Reply.


(** When every attempt fails the loop runs dry and the code after it
    takes over. *)
Lemma retrying_exhausted (req : Request) (what : string) (after : M Json)
      (n s : Z) :
  (forall j, (j < Z.to_nat n)%nat -> sleepable (backoff s (Z.of_nat j))) ->
  (forall j, (j < Z.to_nat n)%nat -> fails json_loads (transport j req)) ->
  retrying (attempt json_loads transport req) what after (range n) s w0
  = after (mkWorld (Z.to_nat n)
                   (failure_events json_loads transport req what s 0 0
                                   (Z.to_nat n))
                   None).
Proof.
  intros Hs Hfail. unfold range.
  rewrite (retrying_failures json_loads transport req what s after
             (Z.to_nat n) 0%nat w0 Hs Hfail eq_refl).
  reflexivity.
Qed.

(** [k] failures and then a reply that decodes. *)
Lemma retrying_succeeds (req : Request) (what : string) (after : M Json)
      (n s : Z) (k : nat) (body : Json) :
  (forall j, (j < k)%nat -> sleepable (backoff s (Z.of_nat j))) ->
  (k < Z.to_nat n)%nat ->
  (forall j, (j < k)%nat -> fails json_loads (transport j req)) ->
  attempt_result json_loads (transport k req) = Returned body ->
  retrying (attempt json_loads transport req) what after (range n) s w0
  = (Returned body,
     mkWorld (S k)
             (failure_events json_loads transport req what s 0 0 k
                ++ [HttpGet req])
             None).
Proof.
  intros Hs Hk Hfail Hok.
  unfold retrying.
  rewrite (range_split n k ltac:(lia)), for_each_app.
  pose proof (retrying_failures json_loads transport req what s
                (for_each (map Z.of_nat (seq k (Z.to_nat n - k)))
                   (fun i =>
                      try_except_as (attempt json_loads transport req)
                                    (on_failure what s i))
                   after)
                k 0%nat w0 Hs Hfail eq_refl) as Hrun.
  unfold retrying in Hrun. rewrite Hrun. clear Hrun.
  destruct (Z.to_nat n - k)%nat as [|r] eqn:Hr; [lia|].
  simpl. unfold bind, try_except_as.
  rewrite attempt_run. simpl. rewrite Hok. reflexivity.
Qed.

Lemma albums_exhausted_run (id tok : string) (n s : Z) :
  (forall j, (j < Z.to_nat n)%nat -> sleepable (backoff s (Z.of_nat j))) ->
  (forall j, (j < Z.to_nat n)%nat ->
             fails json_loads (transport j (albums_request id tok))) ->
  get_albums_from_spotify json_loads transport id tok n s w0
  = (Raised (albums_exhausted n),
     mkWorld (Z.to_nat n)
             (failure_events json_loads transport (albums_request id tok)
                "Error getting artist's metadata from spotify api" s 0 0
                (Z.to_nat n)
              ++ [LogError (FailedAfter "Error getting albums from spotify" n)])
             None).
Proof.
  intros Hs Hfail.
  rewrite albums_shape, (retrying_exhausted _ _ _ n s Hs Hfail).
  reflexivity.
Qed.



(** Whatever the transport answers, a call sleeps the delays of its first
    [m] attempts and nothing else. *)
Lemma albums_sleeps (id tok : string) (n s : Z) :
  exists m,
    (m <= Z.to_nat n)%nat
    /\ slept (snd (get_albums_from_spotify json_loads transport id tok n s w0))
       = map (backoff s) (map Z.of_nat (seq 0 m)).
Proof.
  rewrite albums_shape.
  destruct (retrying_sleeps
              (attempt json_loads transport (albums_request id tok))
              "Error getting artist's metadata from spotify api"
              (albums_after n) s
              (quiet_attempt _ _ _) (attempt_never_falls_through _ _ _)
              (quiet_albums_after n) (Z.to_nat n) 0%nat w0)
    as (m & evs & Hm & Ht & Hsl & _).
  exists m. split; [exact Hm|].
  unfold slept, range. rewrite Ht. exact Hsl.
Qed.

Lemma songs_sleeps (id tok : string) (n s : Z) :
  exists m,
    (m <= Z.to_nat n)%nat
    /\ slept (snd (fetch_album_songs_from_spotify json_loads transport
                     id tok n s w0))
       = map (backoff s) (map Z.of_nat (seq 0 m)).
Proof.
  rewrite songs_shape.
  destruct (retrying_sleeps
              (attempt json_loads transport (songs_request id tok))
              "Error getting album songs from spotify"
              songs_after s
              (quiet_attempt _ _ _) (attempt_never_falls_through _ _ _)
              quiet_songs_after (Z.to_nat n) 0%nat w0)
    as (m & evs & Hm & Ht & Hsl & _).
  exists m. split; [exact Hm|].
  unfold slept, range. rewrite Ht. exact Hsl.
Qed.

(** [get_artist_spotify] asks for the token first and never again. *)
Lemma artists_trace (token_outcome : exn + string) (batch : list Artist)
      (n s : Z) :
  exists m evs,
    (m <= Z.to_nat n)%nat
    /\ trace (snd (get_artist_spotify json_loads transport token_outcome
                     batch n s w0))
       = TokenCall :: evs
    /\ sleeps_of evs = map (backoff s) (map Z.of_nat (seq 0 m))
    /\ token_calls_of evs = O.
Proof.
  destruct token_outcome as [e|tok].
  - rewrite artists_token_failure. exists O.
    destruct (is_Exception e); eexists; simpl;
      (split; [lia|]); (split; [reflexivity|]); auto.
  - rewrite artists_shape.
    destruct (retrying_sleeps
                (artists_attempt json_loads transport batch tok)
                "Error getting artist's metadata from spotify api"
                (artists_after n) s
                (quiet_artists_attempt _ _ _ _)
                (artists_attempt_never_falls_through _ _ _ _)
                (quiet_artists_after n) (Z.to_nat n) 0%nat
                (emit TokenCall w0))
      as (m & evs & Hm & Ht & Hsl & Htok).
    exists m, evs. unfold range. rewrite Ht. simpl. auto.
Qed.

End Runs.

(** ** Replies that end in the handler *)




(** ** Stubbed runs used as concrete instances *)


(** * The retry contract *)







(** C8. With a positive base delay the delays a call sleeps, in the order it
    sleeps them, are strictly increasing, whatever the transport answers. *)
Theorem slept_delays_strictly_increase
        {Json : Type} (json_loads : string -> option Json)
        (transport : nat -> Request -> Reply) (n s : Z) :
  0 < s ->
  (forall id tok,
      strictly_increasing
        (slept (snd (get_albums_from_spotify json_loads transport
                       id tok n s w0))))
  /\ (forall id tok,
         strictly_increasing
           (slept (snd (fetch_album_songs_from_spotify json_loads transport
                          id tok n s w0))))
  /\ (forall token_outcome batch,
         strictly_increasing
           (slept (snd (get_artist_spotify json_loads transport token_outcome
                          batch n s w0)))).
Proof.
  intros Hs. split; [|split].
  - intros id tok.
    destruct (albums_sleeps json_loads transport id tok n s) as (m & _ & Hm).
    rewrite Hm. apply backoffs_increasing. exact Hs.
  - intros id tok.
    destruct (songs_sleeps json_loads transport id tok n s) as (m & _ & Hm).
    rewrite Hm. apply backoffs_increasing. exact Hs.
  - intros token_outcome batch.
    destruct (artists_trace json_loads transport token_outcome batch n s)
      as (m & evs & _ & Ht & Hsl & _).
    unfold slept. rewrite Ht. simpl. rewrite Hsl.
    apply backoffs_increasing. exact Hs.
Qed.

Lemma slept_delays_strictly_increase_witness :
  slept (snd (get_albums_from_spotify stub_json_loads (always (status 500))
                "A" "T" 4 1 w0)) = [1; 2; 4; 8]
  /\ strictly_increasing
       (slept (snd (get_albums_from_spotify stub_json_loads
                      (always (status 500)) "A" "T" 4 1 w0))).
Proof.
  split.
  - reflexivity.
  - destruct (slept_delays_strictly_increase
                stub_json_loads (always (status 500)) 4 1 ltac:(lia))
      as [Halbums _].
    exact (Halbums "A" "T")%string.
Defined.

(** C9. [get_artist_spotify] asks for the bearer token once, before the
    loop, and never inside it; when that call fails the function raises at
    once, with no request sent and no sleep. *)
Theorem token_failure_raises_before_any_fetch
        {Json : Type} (json_loads : string -> option Json)
        (transport : nat -> Request -> Reply) (batch : list Artist)
        (n s : Z) :
  (forall e,
      let run := get_artist_spotify json_loads transport (inl e)
                   batch n s w0 in
      fst run
      = Raised (if is_Exception e
                then Exception_
                       (Because "Error getting spotify access token" e)
                else e)
      /\ attempts_made (snd run) = O
      /\ slept (snd run) = []
      /\ token_calls_of (trace (snd run)) = 1%nat)
  /\ (forall token_outcome,
         exists rest,
           trace (snd (get_artist_spotify json_loads transport token_outcome
                         batch n s w0))
           = TokenCall :: rest
           /\ token_calls_of rest = O).
Proof.
  split.
  - intros e run. subst run. rewrite artists_token_failure.
    destruct (is_Exception e); simpl; auto.
  - intros token_outcome.
    destruct (artists_trace json_loads transport token_outcome batch n s)
      as (m & evs & _ & Ht & _ & Htok).
    exists evs. auto.
Qed.

(** C10. With [max_retries = 0] the loop of [get_albums_from_spotify] has
    no iteration: no request is sent, nothing is slept, and the exhaustion
    error is raised straight away. *)
Theorem zero_retries_raises_without_request
        {Json : Type} (json_loads : string -> option Json)
        (transport : nat -> Request -> Reply) (id tok : string) (s : Z) :
  let run := get_albums_from_spotify json_loads transport id tok 0 s w0 in
  fst run = Raised (albums_exhausted 0)
  /\ attempts_made (snd run) = O
  /\ calls (snd run) = O
  /\ slept (snd run) = []
  /\ trace (snd run)
     = [LogError (FailedAfter "Error getting albums from spotify" 0)].
Proof.
  simpl. repeat split; reflexivity.
Qed.







(** C4 (the code at the scenario of the claim). Against a transport that
    always answers 500, [get_albums_from_spotify] with [max_retries = 3]
    and [sleep_time = 1] sends three requests and raises the exhaustion
    error, but it sleeps three times: after the third, last failure it
    still logs "Retrying in 4 seconds" and sleeps 4 seconds, with no
    request following. *)
Theorem sleep_follows_the_last_failed_attempt :
  let run := get_albums_from_spotify stub_json_loads (always (status 500))
               "A" "T" 3 1 w0 in
  fst run = Raised (albums_exhausted 3)
  /\ attempts_made (snd run) = 3%nat
  /\ slept (snd run) = [1; 2; 4]
  /\ slept (snd run) <> [1; 2]
  /\ exists earlier,
      trace (snd run)
      = earlier
          ++ [HttpGet (albums_request "A" "T");
              LogWarning "Error getting artist's metadata from spotify api"
                         (HTTPError 500) 4;
              Sleep 4;
              LogError (FailedAfter "Error getting albums from spotify" 3)].
Proof.
  cbv zeta. split; [reflexivity|].
  split; [reflexivity|].
  split; [reflexivity|].
  split.
  - intros Heq. vm_compute in Heq. discriminate Heq.
  - eexists (_ :: _ :: _ :: _ :: _ :: _ :: []). vm_compute. reflexivity.
Qed.

(** C7 (the code at a run that uses up its attempts).
    [fetch_album_songs_from_spotify] does not get to raise the exception it
    builds after the loop: formatting [e], which the [except] clause has
    already unbound, raises [UnboundLocalError] before [logger.error] runs.
    On the same input [get_albums_from_spotify] raises its exhaustion
    error. *)
Theorem songs_exhaustion_raises_unbound_local :
  let run := fetch_album_songs_from_spotify stub_json_loads
               (always (status 500)) "A" "T" 3 1 w0 in
  fst run = Raised (UnboundLocalError "e")
  /\ attempts_made (snd run) = 3%nat
  /\ (forall e, fst run <> Raised (songs_exhausted e))
  /\ (forall m, ~ In (LogError m) (trace (snd run)))
  /\ fst (get_albums_from_spotify stub_json_loads (always (status 500))
            "A" "T" 3 1 w0)
     = Raised (albums_exhausted 3).
Proof.
  cbv zeta. split; [reflexivity|].
  split; [reflexivity|].
  split; [|split; [|reflexivity]].
  - intros e Heq. vm_compute in Heq. discriminate Heq.
  - intros m Hin. vm_compute in Hin.
    repeat (destruct Hin as [Hin|Hin]; [discriminate Hin|]).
    exact Hin.
Qed.

(** * Further properties of the three loops *)

(** ** How a run of the shared loop can end *)

Section RunShape.

Context {Json : Type}.
Variable json_loads : string -> option Json.
Variable transport : nat -> Request -> Reply.

(** A run consists of [m] failed attempts, each followed by its warning and
    its sleep, and then ends in one of four ways: the loop is exhausted; the
    next reply decodes; the next request raises past [except Exception]; or
    [time.sleep] refuses the delay. *)
Lemma retrying_run_shape (req : Request) (what : string) (after : M Json)
      (s : Z) (k : nat) :
  forall (a : nat) (w : World),
    local_e w = None ->
    exists m,
      (m <= k)%nat
      /\ (forall j, (j < m)%nat ->
                    fails json_loads (transport (calls w + j) req))
      /\ (forall j, (j < m)%nat -> sleepable (backoff s (Z.of_nat (a + j))))
      /\ ((m = k
           /\ retrying (attempt json_loads transport req) what after
                       (map Z.of_nat (seq a k)) s w
              = after (mkWorld (calls w + m)
                         (trace w ++ failure_events json_loads transport req
                                       what s (calls w) a m)
                         None))
          \/ (m < k)%nat
             /\ ((exists body,
                     attempt_result json_loads (transport (calls w + m) req)
                     = Returned body
                     /\ retrying (attempt json_loads transport req) what after
                                 (map Z.of_nat (seq a k)) s w
                        = (Returned body,
                           mkWorld (S (calls w + m))
                             (trace w ++ failure_events json_loads transport
                                           req what s (calls w) a m
                                     ++ [HttpGet req])
                             None))
                 \/ (exists e,
                        attempt_result json_loads
                                       (transport (calls w + m) req)
                        = Raised e
                        /\ is_Exception e = false
                        /\ retrying (attempt json_loads transport req) what
                                    after (map Z.of_nat (seq a k)) s w
                           = (Raised e,
                              mkWorld (S (calls w + m))
                                (trace w ++ failure_events json_loads
                                              transport req what s
                                              (calls w) a m
                                        ++ [HttpGet req])
                                None))
                 \/ (exists e x,
                        fails_with json_loads (transport (calls w + m) req) e
                        /\ sleep_refusal (backoff s (Z.of_nat (a + m)))
                           = Some x
                        /\ retrying (attempt json_loads transport req) what
                                    after (map Z.of_nat (seq a k)) s w
                           = (Raised x,
                              mkWorld (S (calls w + m))
                                (trace w ++ failure_events json_loads
                                              transport req what s
                                              (calls w) a m
                                        ++ [HttpGet req;
                                            LogWarning what e
                                              (backoff s (Z.of_nat (a + m)))])
                                None)))).
Proof.
  induction k as [|k IH]; intros a w He.
  - exists O. split; [lia|]. split; [intros j Hj; lia|].
    split; [intros j Hj; lia|]. left. split; [reflexivity|].
    simpl. rewrite Nat.add_0_r, app_nil_r.
    destruct w as [c t l]. simpl in *. subst l. reflexivity.
  - unfold retrying in *. simpl for_each.
    set (rest := for_each (map Z.of_nat (seq (S a) k)) _ after) in *.
    unfold bind, try_except_as. rewrite attempt_run.
    destruct (attempt_result json_loads (transport (calls w) req))
      as [body|e] eqn:Hres.
    + exists O. split; [lia|]. split; [intros j Hj; lia|].
      split; [intros j Hj; lia|]. right. split; [lia|]. left.
      exists body. rewrite Nat.add_0_r. split; [exact Hres|].
      simpl. rewrite He. reflexivity.
    + destruct (is_Exception e) eqn:Hexc.
      * rewrite on_failure_run.
        destruct (sleep_refusal (backoff s (Z.of_nat a))) as [x|] eqn:Hsleep.
        -- exists O. split; [lia|]. split; [intros j Hj; lia|].
           split; [intros j Hj; lia|]. right. split; [lia|]. right. right.
           exists e, x. rewrite !Nat.add_0_r.
           split; [split; assumption|]. split; [exact Hsleep|].
           unfold set_e, emit. simpl. rewrite <- app_assoc. reflexivity.
        -- subst rest.
           match goal with
           | |- context [for_each _ _ _ ?w2] =>
               destruct (IH (S a) w2 eq_refl)
                 as (m & Hm & Hfail & Hback & Hend)
           end.
           simpl calls in *. simpl trace in *.
           assert (Hshift : forall j, (S (calls w) + j = calls w + S j)%nat)
             by (intros; lia).
           assert (Hshift' : forall j, (S a + j = a + S j)%nat)
             by (intros; lia).
           assert (Hev : forall tail,
                      (((trace w ++ [HttpGet req])
                          ++ [LogWarning what e (backoff s (Z.of_nat a))])
                         ++ [Sleep (backoff s (Z.of_nat a))])
                        ++ failure_events json_loads transport req what s
                             (S (calls w)) (S a) m ++ tail
                      = trace w
                          ++ failure_events json_loads transport req what s
                               (calls w) a (S m) ++ tail).
           { intros tail. simpl.
             unfold error_of. rewrite Hres.
             rewrite <- !app_assoc. reflexivity. }
           exists (S m). split; [lia|].
           split.
           { intros [|j] Hj.
             - rewrite Nat.add_0_r. exists e. split; assumption.
             - rewrite <- Hshift. apply Hfail. lia. }
           split.
           { intros [|j] Hj.
             - rewrite Nat.add_0_r. apply refusal_none_sleepable.
               exact Hsleep.
             - rewrite <- Hshift'. apply Hback. lia. }
           rewrite <- !Hshift, <- !Hshift'.
           destruct Hend as [[Hmk Hrun]|[Hlt Hend]].
           ++ left. split; [lia|]. rewrite Hrun.
              pose proof (Hev []) as Hev0. rewrite !app_nil_r in Hev0.
              rewrite Hev0. reflexivity.
           ++ right. split; [lia|].
              destruct Hend as [(body & Hb & Hrun)
                               |[(e' & He' & Hne & Hrun)
                                |(e' & x & He' & Hneg & Hrun)]].
              ** left. exists body. split; [exact Hb|].
                 rewrite Hrun, Hev. reflexivity.
              ** right. left. exists e'. split; [exact He'|].
                 split; [exact Hne|]. rewrite Hrun, Hev. reflexivity.
              ** right. right. exists e', x. split; [exact He'|].
                 split; [exact Hneg|]. rewrite Hrun, Hev. reflexivity.
      * exists O. split; [lia|]. split; [intros j Hj; lia|].
        split; [intros j Hj; lia|]. right. split; [lia|]. right. left.
        exists e. rewrite Nat.add_0_r. split; [exact Hres|].
        split; [exact Hexc|]. simpl. rewrite He. reflexivity.
Qed.

End RunShape.

(** ** Bounds that hold of every run *)

Lemma requests_at_most_attempt {Json} (json_loads : string -> option Json)
      (transport : nat -> Request -> Reply) (req : Request) :
  requests_at_most 1 (attempt json_loads transport req).
Proof.
  intros w. exists [HttpGet req]. rewrite attempt_run. simpl. auto.
Qed.

Lemma requests_at_most_artists_attempt {Json}
      (json_loads : string -> option Json)
      (transport : nat -> Request -> Reply) (batch : list Artist)
      (tok : string) :
  requests_at_most 1 (artists_attempt json_loads transport batch tok).
Proof.
  intros w.
  destruct (all_str (map spotify_id batch)) as [ids|] eqn:Hids.
  - rewrite (artists_attempt_wellformed _ _ batch ids tok w Hids).
    apply requests_at_most_attempt.
  - rewrite (artists_attempt_illformed _ _ batch tok w Hids).
    exists []. simpl. rewrite app_nil_r. auto.
Qed.

Lemma requests_at_most_albums_after {A} (n : Z) :
  requests_at_most 0 (@albums_after A n).
Proof.
  intros w. eexists. unfold albums_after, bind, logger_error, raise, emit.
  simpl. split; [reflexivity|]. simpl. lia.
Qed.

Lemma requests_at_most_artists_after {A} (n : Z) :
  requests_at_most 0 (@artists_after A n).
Proof.
  intros w. eexists. unfold artists_after, bind, logger_error, raise, emit.
  simpl. split; [reflexivity|]. simpl. lia.
Qed.

Lemma requests_at_most_songs_after {A} : requests_at_most 0 (@songs_after A).
Proof.
  intros [c t l]. unfold songs_after, bind, load_e, logger_error, raise, emit.
  destruct l as [e|]; simpl.
  - eexists. split; [reflexivity|]. simpl. lia.
  - exists []. rewrite app_nil_r. simpl. auto.
Qed.

(** A loop of [k] iterations sends at most [k] requests. *)
Lemma retrying_requests_bound {A} (body : M (option A)) (what : string)
      (after : M A) (s : Z) :
  requests_at_most 1 body ->
  requests_at_most 0 after ->
  forall (xs : list Z),
    requests_at_most (List.length xs) (retrying body what after xs s).
Proof.
  intros Hbody Hafter. unfold retrying.
  induction xs as [|x xs IH]; intros w.
  - destruct (Hafter w) as (evs & Ht & Hn). exists evs. simpl. auto.
  - simpl for_each.
    set (rest := for_each xs _ after) in *.
    unfold bind, try_except_as.
    destruct (Hbody w) as (evs0 & Ht0 & Hn0).
    destruct (body w) as [[[v|]|e] w1]; simpl in Ht0.
    + exists evs0. simpl. split; [exact Ht0|lia].
    + destruct (IH w1) as (evs & Ht & Hn).
      exists (evs0 ++ evs). rewrite Ht, Ht0, <- app_assoc.
      split; [reflexivity|].
      rewrite requests_of_app, length_app. simpl. lia.
    + destruct (is_Exception e).
      * rewrite on_failure_run.
        destruct (sleep_refusal (backoff s x)) as [refused|].
        -- exists (evs0 ++ [LogWarning what e (backoff s x)]).
           simpl. rewrite Ht0, <- app_assoc.
           split; [reflexivity|].
           rewrite requests_of_app, length_app. simpl. lia.
        -- match goal with
           | |- context [rest ?w2] =>
               destruct (IH w2) as (evs & Ht & Hn)
           end.
           exists (evs0 ++ [LogWarning what e (backoff s x);
                            Sleep (backoff s x)] ++ evs).
           split.
           ++ rewrite Ht. simpl. rewrite Ht0, <- !app_assoc. reflexivity.
           ++ rewrite !requests_of_app, !length_app. simpl. lia.
      * exists evs0. simpl. split; [exact Ht0|lia].
Qed.

Lemma albums_after_raises {A} (n : Z) (w : World) :
  exists e evs,
    @albums_after A n w
    = (Raised e, mkWorld (calls w) (trace w ++ evs) (local_e w))
    /\ requests_of evs = [].
Proof.
  eexists. eexists. unfold albums_after, bind, logger_error, raise, emit.
  simpl. split; reflexivity.
Qed.

Lemma songs_after_raises {A} (w : World) :
  exists e evs,
    @songs_after A w
    = (Raised e, mkWorld (calls w) (trace w ++ evs) (local_e w))
    /\ requests_of evs = [].
Proof.
  destruct w as [c t [e|]];
    unfold songs_after, bind, load_e, logger_error, raise, emit; simpl.
  - eexists. eexists. split; reflexivity.
  - eexists. exists []. rewrite app_nil_r. split; reflexivity.
Qed.

Lemma artists_after_raises {A} (n : Z) (w : World) :
  exists e evs,
    @artists_after A n w
    = (Raised e, mkWorld (calls w) (trace w ++ evs) (local_e w))
    /\ requests_of evs = [].
Proof.
  eexists. eexists. unfold artists_after, bind, logger_error, raise, emit.
  simpl. split; reflexivity.
Qed.

Section RunSummary.

Context {Json : Type}.
Variable json_loads : string -> option Json.
Variable transport : nat -> Request -> Reply.

(** What every run from a world with a clean frame has in common: the
    requests are copies of one request, the transport is asked once per
    request, and a returned body is the decoded reply to the last of them. *)
Lemma fetch_run_summary (req : Request) (what : string) (after : M Json)
      (n s : Z) (w : World) :
  local_e w = None ->
  (forall w', exists e evs,
      after w' = (Raised e, mkWorld (calls w') (trace w' ++ evs) (local_e w'))
      /\ requests_of evs = []) ->
  exists m r,
    (r <= Z.to_nat n)%nat
    /\ (m <= r)%nat /\ (r <= S m)%nat
    /\ requests_of
         (trace (snd (retrying (attempt json_loads transport req) what after
                               (range n) s w)))
       = requests_of (trace w) ++ repeat req r
    /\ calls (snd (retrying (attempt json_loads transport req) what after
                            (range n) s w))
       = (calls w + r)%nat
    /\ (forall j, (j < m)%nat ->
                  fails json_loads (transport (calls w + j) req))
    /\ (forall body,
           fst (retrying (attempt json_loads transport req) what after
                         (range n) s w)
           = Returned body ->
           r = S m
           /\ attempt_result json_loads (transport (calls w + m) req)
              = Returned body).
Proof.
  intros He Hafter. unfold range.
  destruct (retrying_run_shape json_loads transport req what after s
              (Z.to_nat n) 0%nat w He)
    as (m & Hm & Hfail & _ & Hend).
  assert (Hreq : forall tail,
             requests_of (trace w
                            ++ failure_events json_loads transport req what s
                                 (calls w) 0 m ++ tail)
             = requests_of (trace w) ++ repeat req m ++ requests_of tail).
  { intros tail.
    rewrite !requests_of_app, requests_of_failure_events. reflexivity. }
  destruct Hend as [[Hmk Hrun]|[Hlt Hend]].
  - exists m, m. rewrite Hrun.
    match goal with
    | |- context [after ?wm] =>
        destruct (Hafter wm) as (e & evs & Hwm & Hevs)
    end.
    rewrite Hwm. simpl.
    split; [lia|]. split; [lia|]. split; [lia|].
    split.
    { rewrite <- app_assoc, Hreq, Hevs, app_nil_r. reflexivity. }
    split; [reflexivity|]. split; [exact Hfail|].
    intros body Hbody. discriminate Hbody.
  - exists m, (S m).
    assert (Hrep : repeat req m ++ [req] = repeat req (S m)).
    { change [req] with (repeat req 1). rewrite <- repeat_app.
      f_equal. lia. }
    destruct Hend as [(body & Hb & Hrun)
                     |[(e & He' & Hne & Hrun)|(e & x & He' & Hneg & Hrun)]];
      rewrite Hrun; simpl;
      (split; [lia|]); (split; [lia|]); (split; [lia|]);
      (split; [rewrite Hreq; simpl; rewrite Hrep; reflexivity|]);
      (split; [lia|]); (split; [exact Hfail|]);
      intros body' Hbody; try discriminate Hbody.
    injection Hbody as <-. split; [reflexivity|exact Hb].
Qed.

End RunSummary.

(** X1. Whatever the transport answers and whatever the arguments, one call
    of any of the three functions sends at most [max_retries] requests and
    sleeps at most [max_retries] times. *)
Theorem no_call_exceeds_max_retries
        {Json : Type} (json_loads : string -> option Json)
        (transport : nat -> Request -> Reply) (n s : Z) :
  (forall id tok,
      let w := snd (get_albums_from_spotify json_loads transport
                      id tok n s w0) in
      (attempts_made w <= Z.to_nat n)%nat
      /\ (List.length (slept w) <= Z.to_nat n)%nat)
  /\ (forall id tok,
         let w := snd (fetch_album_songs_from_spotify json_loads transport
                         id tok n s w0) in
         (attempts_made w <= Z.to_nat n)%nat
         /\ (List.length (slept w) <= Z.to_nat n)%nat)
  /\ (forall token_outcome batch,
         let w := snd (get_artist_spotify json_loads transport token_outcome
                         batch n s w0) in
         (attempts_made w <= Z.to_nat n)%nat
         /\ (List.length (slept w) <= Z.to_nat n)%nat).
Proof.
  split; [|split].
  - intros id tok w. subst w. split.
    + rewrite albums_shape.
      destruct (retrying_requests_bound _
                  "Error getting artist's metadata from spotify api" _ s
                  (requests_at_most_attempt json_loads transport
                     (albums_request id tok))
                  (requests_at_most_albums_after n) (range n) w0)
        as (evs & Ht & Hn).
      unfold attempts_made. rewrite Ht. simpl.
      rewrite range_length in Hn. exact Hn.
    + destruct (albums_sleeps json_loads transport id tok n s)
        as (m & Hm & Hsl).
      rewrite Hsl, !length_map, length_seq. exact Hm.
  - intros id tok w. subst w. split.
    + rewrite songs_shape.
      destruct (retrying_requests_bound _
                  "Error getting album songs from spotify" _ s
                  (requests_at_most_attempt json_loads transport
                     (songs_request id tok))
                  requests_at_most_songs_after (range n) w0)
        as (evs & Ht & Hn).
      unfold attempts_made. rewrite Ht. simpl.
      rewrite range_length in Hn. exact Hn.
    + destruct (songs_sleeps json_loads transport id tok n s)
        as (m & Hm & Hsl).
      rewrite Hsl, !length_map, length_seq. exact Hm.
  - intros token_outcome batch w. subst w. split.
    + destruct token_outcome as [e|tok].
      * rewrite artists_token_failure.
        destruct (is_Exception e); unfold attempts_made; simpl; lia.
      * rewrite artists_shape.
        destruct (retrying_requests_bound _
                    "Error getting artist's metadata from spotify api" _ s
                    (requests_at_most_artists_attempt json_loads transport
                       batch tok)
                    (requests_at_most_artists_after n) (range n)
                    (emit TokenCall w0))
          as (evs & Ht & Hn).
        unfold attempts_made. rewrite Ht. simpl.
        rewrite range_length in Hn. exact Hn.
    + destruct (artists_trace json_loads transport token_outcome batch n s)
        as (m & evs & Hm & Ht & Hsl & _).
      unfold slept. rewrite Ht. simpl. rewrite Hsl.
      rewrite !length_map, length_seq. exact Hm.
Qed.

(** X2. A retry repeats the request unchanged: all requests of one call
    have the same URL, headers, parameters and timeout, and the transport
    has been asked exactly once per request.  For [get_artist_spotify] this
    means the one token and the one id list are reused by every attempt. *)
Theorem every_attempt_sends_the_same_request
        {Json : Type} (json_loads : string -> option Json)
        (transport : nat -> Request -> Reply) (n s : Z) :
  (forall id tok,
      let w := snd (get_albums_from_spotify json_loads transport
                      id tok n s w0) in
      requests_of (trace w) = repeat (albums_request id tok) (attempts_made w)
      /\ calls w = attempts_made w)
  /\ (forall id tok,
         let w := snd (fetch_album_songs_from_spotify json_loads transport
                         id tok n s w0) in
         requests_of (trace w)
         = repeat (songs_request id tok) (attempts_made w)
         /\ calls w = attempts_made w)
  /\ (forall batch ids tok,
         all_str (map spotify_id batch) = Some ids ->
         let w := snd (get_artist_spotify json_loads transport (inr tok)
                         batch n s w0) in
         requests_of (trace w)
         = repeat (artists_request ids tok) (attempts_made w)
         /\ calls w = attempts_made w).
Proof.
  split; [|split].
  - intros id tok w. subst w. rewrite albums_shape.
    destruct (fetch_run_summary json_loads transport (albums_request id tok)
                "Error getting artist's metadata from spotify api"
                (albums_after n) n s w0 eq_refl (albums_after_raises n))
      as (m & r & _ & _ & _ & Hreq & Hcalls & _).
    unfold attempts_made. rewrite Hreq, Hcalls. simpl.
    rewrite repeat_length. auto.
  - intros id tok w. subst w. rewrite songs_shape.
    destruct (fetch_run_summary json_loads transport (songs_request id tok)
                "Error getting album songs from spotify"
                songs_after n s w0 eq_refl songs_after_raises)
      as (m & r & _ & _ & _ & Hreq & Hcalls & _).
    unfold attempts_made. rewrite Hreq, Hcalls. simpl.
    rewrite repeat_length. auto.
  - intros batch ids tok Hids w. subst w. rewrite artists_shape.
    rewrite (retrying_ext _ _ _ _ _ _
               (fun w => artists_attempt_wellformed json_loads transport
                           batch ids tok w Hids)).
    destruct (fetch_run_summary json_loads transport
                (artists_request ids tok)
                "Error getting artist's metadata from spotify api"
                (artists_after n) n s (emit TokenCall w0) eq_refl
                (artists_after_raises n))
      as (m & r & _ & _ & _ & Hreq & Hcalls & _).
    unfold attempts_made. rewrite Hreq, Hcalls. simpl.
    rewrite repeat_length. auto.
Qed.

Lemma every_attempt_sends_the_same_request_witness :
  let w := snd (get_artist_spotify stub_json_loads
                  (scripted [status 429] (ok_body "{}")) (inr "T")
                  [mkArtist (Some "a") None; mkArtist (Some "b") None]
                  3 1 w0) in
  requests_of (trace w)
  = repeat (artists_request ["a"; "b"] "T") (attempts_made w)
  /\ calls w = attempts_made w.
Proof.
  destruct (every_attempt_sends_the_same_request
              stub_json_loads (scripted [status 429] (ok_body "{}")) 3 1)
    as (_ & _ & Hartists).
  apply (Hartists [mkArtist (Some "a") None; mkArtist (Some "b") None]
                  ["a"; "b"]%string "T"%string).
  reflexivity.
Defined.

(** X3. A call that returns hands back the decoded body of the reply to its
    last request: every earlier reply had failed, that reply is the first
    that decodes, and no request follows it. *)
Theorem returned_body_is_the_first_reply_that_decodes
        {Json : Type} (json_loads : string -> option Json)
        (transport : nat -> Request -> Reply) (n s : Z) :
  (forall id tok body,
      fst (get_albums_from_spotify json_loads transport id tok n s w0)
      = Returned body ->
      exists k,
        (k < Z.to_nat n)%nat
        /\ (forall j, (j < k)%nat ->
                      fails json_loads (transport j (albums_request id tok)))
        /\ attempt_result json_loads (transport k (albums_request id tok))
           = Returned body
        /\ attempts_made (snd (get_albums_from_spotify json_loads transport
                                 id tok n s w0)) = S k)
  /\ (forall id tok body,
         fst (fetch_album_songs_from_spotify json_loads transport
                id tok n s w0)
         = Returned body ->
         exists k,
           (k < Z.to_nat n)%nat
           /\ (forall j, (j < k)%nat ->
                         fails json_loads
                               (transport j (songs_request id tok)))
           /\ attempt_result json_loads (transport k (songs_request id tok))
              = Returned body
           /\ attempts_made (snd (fetch_album_songs_from_spotify json_loads
                                    transport id tok n s w0)) = S k).
Proof.
  split.
  - intros id tok body. rewrite albums_shape. intros Hret.
    destruct (fetch_run_summary json_loads transport (albums_request id tok)
                "Error getting artist's metadata from spotify api"
                (albums_after n) n s w0 eq_refl (albums_after_raises n))
      as (m & r & Hr & _ & _ & Hreq & _ & Hfail & Hbody).
    destruct (Hbody body Hret) as [-> Hok].
    exists m. split; [lia|]. split; [exact Hfail|]. split; [exact Hok|].
    unfold attempts_made. rewrite Hreq, length_app, repeat_length.
    reflexivity.
  - intros id tok body. rewrite songs_shape. intros Hret.
    destruct (fetch_run_summary json_loads transport (songs_request id tok)
                "Error getting album songs from spotify"
                songs_after n s w0 eq_refl songs_after_raises)
      as (m & r & Hr & _ & _ & Hreq & _ & Hfail & Hbody).
    destruct (Hbody body Hret) as [-> Hok].
    exists m. split; [lia|]. split; [exact Hfail|]. split; [exact Hok|].
    unfold attempts_made. rewrite Hreq, length_app, repeat_length.
    reflexivity.
Qed.

Lemma returned_body_is_the_first_reply_that_decodes_witness :
  exists k,
    (k < Z.to_nat 3)%nat
    /\ (forall j, (j < k)%nat ->
                  fails stub_json_loads
                        (scripted [status 500] (ok_body "{}") j
                                  (albums_request "A" "T")))
    /\ attempt_result stub_json_loads
                      (scripted [status 500] (ok_body "{}") k
                                (albums_request "A" "T"))
       = Returned "{}"%string
    /\ attempts_made
         (snd (get_albums_from_spotify stub_json_loads
                 (scripted [status 500] (ok_body "{}")) "A" "T" 3 1 w0))
       = S k.
Proof.
  destruct (returned_body_is_the_first_reply_that_decodes
              stub_json_loads (scripted [status 500] (ok_body "{}")) 3 1)
    as [Halbums _].
  apply (Halbums "A" "T" "{}")%string. reflexivity.
Defined.

(** ** Time spent asleep *)

Lemma sum_backoffs (s : Z) (m a : nat) :
  fold_right Z.add 0 (map (backoff s) (map Z.of_nat (seq a m)))
  = s * 2 ^ Z.of_nat a * (2 ^ Z.of_nat m - 1).
Proof.
  revert a. induction m as [|m IH]; intros a.
  - simpl. ring.
  - cbn [seq map fold_right]. rewrite IH. unfold backoff.
    rewrite !Nat2Z.inj_succ, !Z.pow_succ_r by lia. ring.
Qed.

Lemma total_of_backoffs (s : Z) (m : nat) (n : Z) :
  0 <= s -> (m <= Z.to_nat n)%nat -> 0 <= n ->
  fold_right Z.add 0 (map (backoff s) (map Z.of_nat (seq 0 m)))
  <= s * (2 ^ n - 1).
Proof.
  intros Hs Hm Hn. rewrite sum_backoffs. simpl (Z.of_nat 0).
  rewrite Z.pow_0_r, Z.mul_1_r.
  apply Z.mul_le_mono_nonneg_l; [exact Hs|].
  assert (2 ^ Z.of_nat m <= 2 ^ n) by (apply Z.pow_le_mono_r; lia).
  lia.
Qed.

(** X4. With a non-negative base delay, one call never sleeps longer than
    [sleep_time * (2^max_retries - 1)] seconds in total, whatever the
    transport answers: 7 seconds with the default arguments. *)
Theorem total_sleep_is_bounded
        {Json : Type} (json_loads : string -> option Json)
        (transport : nat -> Request -> Reply) (n s : Z) :
  0 <= s ->
  0 <= n ->
  (forall id tok,
      total_slept (snd (get_albums_from_spotify json_loads transport
                          id tok n s w0))
      <= s * (2 ^ n - 1))
  /\ (forall id tok,
         total_slept (snd (fetch_album_songs_from_spotify json_loads
                             transport id tok n s w0))
         <= s * (2 ^ n - 1))
  /\ (forall token_outcome batch,
         total_slept (snd (get_artist_spotify json_loads transport
                             token_outcome batch n s w0))
         <= s * (2 ^ n - 1))
  /\ 1 * (2 ^ 3 - 1) = 7.
Proof.
  intros Hs Hn. split; [|split; [|split; [|reflexivity]]].
  - intros id tok.
    destruct (albums_sleeps json_loads transport id tok n s)
      as (m & Hm & Hsl).
    unfold total_slept. rewrite Hsl. apply total_of_backoffs; assumption.
  - intros id tok.
    destruct (songs_sleeps json_loads transport id tok n s)
      as (m & Hm & Hsl).
    unfold total_slept. rewrite Hsl. apply total_of_backoffs; assumption.
  - intros token_outcome batch.
    destruct (artists_trace json_loads transport token_outcome batch n s)
      as (m & evs & Hm & Ht & Hsl & _).
    unfold total_slept, slept. rewrite Ht. simpl sleeps_of. rewrite Hsl.
    apply total_of_backoffs; assumption.
Qed.

Lemma total_sleep_is_bounded_witness :
  total_slept (snd (get_albums_from_spotify stub_json_loads
                      (always (status 500)) "A" "T" 3 1 w0))
  <= 1 * (2 ^ 3 - 1).
Proof.
  destruct (total_sleep_is_bounded stub_json_loads (always (status 500))
              3 1 ltac:(lia) ltac:(lia))
    as [Halbums _].
  exact (Halbums "A" "T")%string.
Defined.

(** ** Ways out of the loop other than success and exhaustion *)

Section EarlyExits.

Context {Json : Type}.
Variable json_loads : string -> option Json.
Variable transport : nat -> Request -> Reply.



(** When the ids do not join, the loop of [get_artist_spotify] runs to its
    end without a request. *)
Lemma retrying_join_failures (body : M (option Json)) (what : string)
      (after : M Json) (e : exn) (s : Z) (k : nat) :
  (forall w, body w = (Raised e, w)) ->
  is_Exception e = true ->
  forall (a : nat) (w : World),
    (forall j, (j < k)%nat -> sleepable (backoff s (Z.of_nat (a + j)))) ->
    local_e w = None ->
    retrying body what after (map Z.of_nat (seq a k)) s w
    = after (mkWorld (calls w)
                     (trace w ++ join_failure_events what e s a k)
                     None).
Proof.
  intros Hbody Hexc. unfold retrying.
  induction k as [|k IH]; intros a w Hsl He.
  - simpl. rewrite app_nil_r. destruct w as [c t l]. simpl in *. subst l.
    reflexivity.
  - simpl for_each.
    set (rest := for_each (map Z.of_nat (seq (S a) k)) _ after) in *.
    unfold bind, try_except_as. rewrite Hbody, Hexc.
    rewrite on_failure_run.
    pose proof (Hsl O ltac:(lia)) as Hb. rewrite Nat.add_0_r in Hb.
    rewrite (sleepable_refusal _ Hb).
    subst rest. rewrite IH;
      [|intros j Hj; replace (S a + j)%nat with (a + S j)%nat by lia;
        apply Hsl; lia|reflexivity].
    unfold set_e, emit. simpl. rewrite <- !app_assoc. reflexivity.
Qed.




End EarlyExits.








(** * The stages *)

(** ** Traces of a stage *)

Lemma net_of_app (t1 t2 : list PEvent) :
  net_of (t1 ++ t2) = net_of t1 ++ net_of t2.
Proof.
  induction t1 as [|ev t1 IH]; simpl; [reflexivity|].
  destruct ev; simpl; rewrite IH; reflexivity.
Qed.

Lemma net_of_map_Net (t : list Event) : net_of (map Net t) = t.
Proof.
  induction t as [|ev t IH]; simpl; [reflexivity|].
  rewrite IH. reflexivity.
Qed.

(** ** Loops over pure bodies *)

Lemma map_each_done {B} (f : json -> P B) :
  (forall x pw, snd (f x pw) = pw) ->
  forall xs pw ys pw',
    map_each f xs pw = (Done ys, pw') ->
    pw' = pw /\ Forall2 (fun x y => fst (f x pw) = Done y) xs ys.
Proof.
  intros Hpure. induction xs as [|x xs IH]; intros pw ys pw' Hrun.
  - injection Hrun as <- <-. split; [reflexivity|constructor].
  - simpl in Hrun. unfold p_bind in Hrun.
    pose proof (Hpure x pw) as Hx.
    destruct (f x pw) as [[y|e] pw1] eqn:Hfx; [|discriminate Hrun].
    simpl in Hx. subst pw1.
    destruct (map_each f xs pw) as [[ys'|e] pw2] eqn:Hrest;
      [|discriminate Hrun].
    destruct (IH pw ys' pw2 Hrest) as [-> Hall].
    injection Hrun as <- <-. split; [reflexivity|].
    constructor; [|exact Hall]. rewrite Hfx. reflexivity.
Qed.

Lemma lookup_absent (k : string) (fields : list (string * json)) :
  ~ In k (map fst fields) -> lookup k fields = None.
Proof.
  induction fields as [|[k' v] fields IH]; intros Hnot; [reflexivity|].
  simpl in *. destruct (String.eqb_spec k k') as [->|Hne].
  - exfalso. apply Hnot. left. reflexivity.
  - apply IH. intros Hin. apply Hnot. right. exact Hin.
Qed.

Lemma subscript_is_exception (v : json) (k : index) (e : perr) :
  subscript v k = Failed e -> is_pException e = true.
Proof.
  destruct v, k; simpl; intros H; try (injection H as <-; reflexivity).
  - destruct (resolve i (String.length s)) as [p|];
      [destruct (String.get p s)|]; try discriminate H;
      injection H as <-; reflexivity.
  - destruct (resolve i (List.length items)) as [p|];
      [destruct (nth_error items p)|]; try discriminate H;
      injection H as <-; reflexivity.
  - destruct (lookup k fields); [discriminate H|].
    injection H as <-. reflexivity.
Qed.

Lemma elements_is_exception (v : json) (e : perr) :
  elements v = Failed e -> is_pException e = true.
Proof.
  destruct v; simpl; intros H; try discriminate H;
    injection H as <-; reflexivity.
Qed.

(** ** Page numbers in URLs *)

Lemma str_of_Z_inj (p q : Z) : str_of_Z p = str_of_Z q -> p = q.
Proof.
  unfold str_of_Z. intros Heq.
  apply DecimalZ.to_int_inj.
  assert (Hnn : forall z, Z.to_int z <> Decimal.Pos Decimal.Nil
                          /\ Z.to_int z <> Decimal.Neg Decimal.Nil).
  { intros [|x|x]; simpl; split; try discriminate;
      intros H; injection H as H;
      exact (DecimalPos.Unsigned.to_uint_nonnil x H). }
  apply (f_equal DecimalString.NilZero.int_of_string) in Heq.
  rewrite !DecimalString.NilZero.isi in Heq by apply Hnn.
  injection Heq as Heq. exact Heq.
Qed.

Lemma str_of_Z_nonempty (p : Z) : str_of_Z p <> EmptyString.
Proof.
  unfold str_of_Z. intros Heq.
  apply (f_equal DecimalString.NilZero.int_of_string) in Heq.
  rewrite DecimalString.NilZero.isi in Heq.
  - discriminate Heq.
  - destruct p as [|x|x]; simpl; try discriminate.
    intros H; injection H as H.
    exact (DecimalPos.Unsigned.to_uint_nonnil x H).
  - destruct p as [|x|x]; simpl; try discriminate.
    intros H; injection H as H.
    exact (DecimalPos.Unsigned.to_uint_nonnil x H).
Qed.

Lemma append_inv_head (s a b : string) :
  (s ++ a)%string = (s ++ b)%string -> a = b.
Proof.
  induction s as [|c s IH]; simpl; intros H; [exact H|].
  injection H as H. exact (IH H).
Qed.

Lemma length_append (a b : string) :
  String.length (a ++ b) = (String.length a + String.length b)%nat.
Proof.
  induction a as [|c a IH]; simpl; [reflexivity|]. rewrite IH. reflexivity.
Qed.

Lemma append_inv_tail (t a b : string) :
  (a ++ t)%string = (b ++ t)%string -> a = b.
Proof.
  revert b. induction a as [|c a IH]; intros [|d b] H; simpl in H.
  - reflexivity.
  - apply (f_equal String.length) in H. simpl in H.
    rewrite length_append in H. lia.
  - apply (f_equal String.length) in H. simpl in H.
    rewrite length_append in H. lia.
  - injection H as -> H. rewrite (IH b H). reflexivity.
Qed.

Lemma BASE_URL_inj (a b : string) : BASE_URL a = BASE_URL b -> a = b.
Proof.
  unfold BASE_URL. intros H.
  apply append_inv_head in H. apply append_inv_tail in H. exact H.
Qed.

(** ** [get_artists_kworb] *)

(** One run of [get_artists_kworb], from its first log line to its last. *)
Lemma kworb_run (transport : nat -> Request -> Reply) (page_number : Z) :
  let start := ("Getting html of page " ++ str_of_Z page_number
                  ++ " from kworb's page")%string in
  let success := ("Successfully got html of page " ++ str_of_Z page_number
                    ++ " from kworb's page")%string in
  let failure := ("Error getting html page " ++ str_of_Z page_number
                    ++ " for kworb artists")%string in
  let sent := [LogInfo start; Net (HttpGet (kworb_request page_number))] in
  get_artists_kworb transport page_number pw0
  = match transport 0%nat (kworb_request page_number) with
    | Raises e =>
        if is_Exception e
        then (Failed (Wrapped AsRuntimeError failure (Low e)),
              mkPWorld 1 (sent ++ [LogFailure failure (Low e)]))
        else (Failed (Low e), mkPWorld 1 sent)
    | Responds r =>
        if (400 <=? status_code r) && (status_code r <? 600)
        then (Failed (Wrapped AsRuntimeError failure
                        (Low (HTTPError (status_code r)))),
              mkPWorld 1
                (sent ++ [LogFailure failure
                            (Low (HTTPError (status_code r)))]))
        else (Done (text r), mkPWorld 1 (sent ++ [LogInfo success]))
    end.
Proof.
  cbv zeta.
  unfold get_artists_kworb, p_bind, p_try_except, logger_info, lift,
    requests_get, kworb_request.
  simpl.
  destruct (transport 0%nat _) as [e|r]; simpl.
  - destruct (is_Exception e); reflexivity.
  - unfold raise_for_status.
    destruct ((400 <=? status_code r) && (status_code r <? 600)); simpl;
      reflexivity.
Qed.

(** X9. [get_artists_kworb] asks for its page exactly once and never
    sleeps: there is no retry.  It logs that it starts, then sends the
    request.  A reply with a status outside 400-599 is returned as its
    text, whatever the text is, after a log line that says so; a 4xx or
    5xx status and any exception of the request that derives from
    [Exception] are logged as an error, with the cause, and raised again
    as [RuntimeError] with the same text; an exception that does not
    derive from [Exception] passes through unlogged. *)
Theorem kworb_page_is_requested_once
        (transport : nat -> Request -> Reply) (page_number : Z) :
  let run := get_artists_kworb transport page_number pw0 in
  let start := ("Getting html of page " ++ str_of_Z page_number
                  ++ " from kworb's page")%string in
  let success := ("Successfully got html of page " ++ str_of_Z page_number
                    ++ " from kworb's page")%string in
  let failure := ("Error getting html page " ++ str_of_Z page_number
                    ++ " for kworb artists")%string in
  p_requests (snd run) = [kworb_request page_number]
  /\ p_slept (snd run) = []
  /\ pcalls (snd run) = 1%nat
  /\ fst run
     = match transport 0%nat (kworb_request page_number) with
       | Raises e =>
           if is_Exception e
           then Failed (Wrapped AsRuntimeError failure (Low e))
           else Failed (Low e)
       | Responds r =>
           if (400 <=? status_code r) && (status_code r <? 600)
           then Failed (Wrapped AsRuntimeError failure
                          (Low (HTTPError (status_code r))))
           else Done (text r)
       end
  /\ ptrace (snd run)
     = [LogInfo start; Net (HttpGet (kworb_request page_number))]
         ++ match fst run with
            | Done _ => [LogInfo success]
            | Failed (Wrapped _ _ cause) => [LogFailure failure cause]
            | Failed _ => []
            end.
Proof.
  intros run start success failure. subst run start success failure.
  rewrite kworb_run. cbv zeta. unfold p_requests, p_slept.
  destruct (transport 0%nat (kworb_request page_number)) as [e|r].
  - destruct (is_Exception e) eqn:Hexc; cbn [fst snd ptrace pcalls];
      rewrite ?net_of_app; simpl; repeat split.
  - destruct ((400 <=? status_code r) && (status_code r <? 600));
      cbn [fst snd ptrace pcalls]; rewrite ?net_of_app; simpl;
      repeat split.
Qed.

(** X10. Different page numbers are fetched from different URLs: the page
    without a number in its URL is page 1 and no other, and no two numbered
    pages share a URL. *)
Theorem kworb_pages_have_distinct_urls
        (transport transport' : nat -> Request -> Reply) (p q : Z) :
  p_requests (snd (get_artists_kworb transport p pw0))
  = p_requests (snd (get_artists_kworb transport' q pw0)) ->
  p = q.
Proof.
  assert (Hsent : forall t x,
             p_requests (snd (get_artists_kworb t x pw0))
             = [kworb_request x]).
  { intros t x. rewrite kworb_run. cbv zeta. unfold p_requests.
    destruct (t 0%nat (kworb_request x)) as [e|r];
      [destruct (is_Exception e)
      |destruct ((400 <=? status_code r) && (status_code r <? 600))];
      reflexivity. }
  rewrite !Hsent. intros Heq.
  injection Heq as Heq. unfold kworb_request in Heq.
  destruct (Z.eqb_spec p 1) as [->|Hp1], (Z.eqb_spec q 1) as [->|Hq1].
  - reflexivity.
  - apply BASE_URL_inj in Heq. symmetry in Heq.
    exfalso. exact (str_of_Z_nonempty q Heq).
  - apply BASE_URL_inj in Heq.
    exfalso. exact (str_of_Z_nonempty p Heq).
  - apply BASE_URL_inj in Heq. exact (str_of_Z_inj p q Heq).
Qed.

Lemma kworb_pages_have_distinct_urls_witness :
  p_requests (snd (get_artists_kworb (always (status 200)) 2 pw0))
  = p_requests (snd (get_artists_kworb (always (status 503)) 2 pw0))
  /\ (2 : Z) = 2.
Proof.
  split.
  - reflexivity.
  - apply (kworb_pages_have_distinct_urls
             (always (status 200)) (always (status 503)) 2 2).
    reflexivity.
Defined.

(** ** [process_albums_from_spotify] *)

Ltac split_subscripts :=
  repeat match goal with
         | |- context [match subscript ?v ?k with _ => _ end] =>
             let H := fresh "Hsub" in
             destruct (subscript v k) eqn:H; simpl
         | H : context [match subscript ?v ?k with _ => _ end] |- _ =>
             let H' := fresh "Hsub" in
             destruct (subscript v k) eqn:H'; simpl in H
         end.

Lemma individual_album_pure (album artist : json) (pw : PWorld) :
  snd (individual_album album artist pw) = pw.
Proof.
  unfold individual_album, p_bind, pure, p_ret.
  split_subscripts; reflexivity.
Qed.

Lemma individual_album_done (album artist a : json) (pw : PWorld) :
  fst (individual_album album artist pw) = Done a ->
  keys a = album_keys
  /\ subscript a (Key "id") = subscript album (Key "id")
  /\ subscript a (Key "name") = subscript album (Key "name")
  /\ subscript a (Key "artist_name") = subscript artist (Key "artist_name")
  /\ subscript a (Key "type") = subscript album (Key "album_type")
  /\ subscript a (Key "release_date") = subscript album (Key "release_date")
  /\ subscript a (Key "total_tracks") = subscript album (Key "total_tracks")
  /\ subscript a (Key "images") = subscript album (Key "images")
  /\ subscript a (Key "is_processed") = Done (JBool false)
  /\ exists urls,
      subscript album (Key "external_urls") = Done urls
      /\ subscript a (Key "url") = subscript urls (Key "spotify").
Proof.
  unfold individual_album, p_bind, pure, p_ret. intros H.
  split_subscripts; try discriminate H.
  injection H as <-. simpl.
  repeat (split; [reflexivity|]).
  eexists. split; [reflexivity|]. symmetry. assumption.
Qed.

Lemma map_each_pure {B} (f : json -> P B) :
  (forall x pw, snd (f x pw) = pw) ->
  forall xs pw, snd (map_each f xs pw) = pw.
Proof.
  intros Hpure. induction xs as [|x xs IH]; intros pw; [reflexivity|].
  simpl. unfold p_bind.
  pose proof (Hpure x pw) as Hx.
  destruct (f x pw) as [[y|e] pw1]; simpl in Hx; subst pw1;
    [|reflexivity].
  pose proof (IH pw) as Hrest.
  destruct (map_each f xs pw) as [[ys|e] pw2]; simpl in Hrest; subst pw2;
    reflexivity.
Qed.

(** X11. A list returned by [process_albums_from_spotify] mirrors
    [response["items"]]: one record per item, in the same order, each with
    exactly the nine keys id, name, artist_name, url, type, release_date,
    total_tracks, is_processed, images; the values are those of the item
    ([type] from [album_type], [url] from [external_urls.spotify]), the
    artist's name, and [is_processed] set to [False]. *)
Theorem returned_albums_mirror_the_items
        (json_loads : string -> option json)
        (transport : nat -> Request -> Reply) (py_repr : json -> string)
        (artist : json) (token : string) (album_list : list json) :
  fst (process_albums_from_spotify json_loads transport py_repr
         artist token pw0)
  = Done album_list ->
  exists id response items_value items artist_name,
    subscript artist (Key "spotify_id") = Done id
    /\ subscript artist (Key "artist_name") = Done artist_name
    /\ fst (get_albums_from_spotify json_loads transport
              (py_str py_repr id) token 3 1 w0)
       = Returned response
    /\ subscript response (Key "items") = Done items_value
    /\ elements items_value = Done items
    /\ Forall2
         (fun item a =>
            keys a = album_keys
            /\ subscript a (Key "id") = subscript item (Key "id")
            /\ subscript a (Key "name") = subscript item (Key "name")
            /\ subscript a (Key "artist_name") = Done artist_name
            /\ subscript a (Key "type") = subscript item (Key "album_type")
            /\ subscript a (Key "release_date")
               = subscript item (Key "release_date")
            /\ subscript a (Key "total_tracks")
               = subscript item (Key "total_tracks")
            /\ subscript a (Key "images") = subscript item (Key "images")
            /\ subscript a (Key "is_processed") = Done (JBool false)
            /\ exists urls,
                subscript item (Key "external_urls") = Done urls
                /\ subscript a (Key "url") = subscript urls (Key "spotify"))
         items album_list.
Proof.
  unfold process_albums_from_spotify, p_try_except.
  unfold p_bind at 1. unfold pure at 1.
  destruct (subscript artist (Key "spotify_id")) as [id|e] eqn:Hid.
  2:{ rewrite (subscript_is_exception _ _ _ Hid). simpl.
      intros H. discriminate H. }
  unfold p_bind at 1. unfold lift.
  change (mkWorld (pcalls pw0) [] None) with w0.
  destruct (get_albums_from_spotify json_loads transport (py_str py_repr id)
              token 3 1 w0) as [[response|e] w] eqn:Hfetch.
  2:{ destruct (is_pException (Low e)); simpl; intros H; discriminate H. }
  unfold p_bind at 1. unfold pure at 1.
  destruct (subscript response (Key "items")) as [items_value|e] eqn:Hitems.
  2:{ rewrite (subscript_is_exception _ _ _ Hitems). simpl.
      intros H. discriminate H. }
  unfold p_bind at 1. unfold pure at 1.
  destruct (elements items_value) as [items|e] eqn:Helems.
  2:{ rewrite (elements_is_exception _ _ Helems). simpl.
      intros H. discriminate H. }
  unfold p_bind at 1.
  match goal with
  | |- context [map_each ?f items ?pw] =>
      destruct (map_each f items pw) as [[albums|e] pw1] eqn:Hloop
  end.
  2:{ destruct (is_pException e); simpl; intros H; discriminate H. }
  destruct (map_each_done _ (fun x pw => individual_album_pure x artist pw)
              _ _ _ _ Hloop) as [-> Hall].
  unfold p_bind at 1. unfold pure at 1.
  destruct (subscript artist (Key "artist_name")) as [artist_name|e]
    eqn:Hname.
  2:{ rewrite (subscript_is_exception _ _ _ Hname). simpl.
      intros H. discriminate H. }
  unfold p_bind, logger_info, p_ret. simpl. intros H. injection H as <-.
  exists id, response, items_value, items, artist_name.
  split; [reflexivity|]. split; [reflexivity|].
  split; [rewrite Hfetch; reflexivity|].
  split; [assumption|]. split; [assumption|].
  eapply Forall2_impl; [|exact Hall].
  intros item a Hdone. cbv beta in Hdone.
  destruct (individual_album_done _ _ _ _ Hdone)
    as (Hk & H1 & H2 & H3 & H4 & H5 & H6 & H7 & H8 & H9).
  rewrite Hname in H3.
  repeat (split; [assumption|]). exact H9.
Qed.

Lemma returned_albums_mirror_the_items_witness :
  exists id response items_value items artist_name,
    subscript stub_artist (Key "spotify_id") = Done id
    /\ subscript stub_artist (Key "artist_name") = Done artist_name
    /\ fst (get_albums_from_spotify stub_documents (always (ok_body "albums"))
              (py_str stub_repr id) "T" 3 1 w0)
       = Returned response
    /\ subscript response (Key "items") = Done items_value
    /\ elements items_value = Done items
    /\ List.length items = 1%nat.
Proof.
  destruct (returned_albums_mirror_the_items
              stub_documents (always (ok_body "albums")) stub_repr
              stub_artist "T" [stub_album_record] eq_refl)
    as (id & response & items_value & items & artist_name
        & H1 & H2 & H3 & H4 & H5 & Hall).
  exists id, response, items_value, items, artist_name.
  repeat (split; [assumption|]).
  apply Forall2_length in Hall. rewrite Hall. reflexivity.
Defined.

Lemma individual_album_world (album artist : json) (pw pw' : PWorld) :
  fst (individual_album album artist pw)
  = fst (individual_album album artist pw').
Proof.
  unfold individual_album, p_bind, pure, p_ret.
  split_subscripts; reflexivity.
Qed.

Lemma individual_album_failed (album artist : json) (pw : PWorld)
      (e : perr) :
  fst (individual_album album artist pw) = Failed e ->
  is_pException e = true.
Proof.
  unfold individual_album, p_bind, pure, p_ret. intros H.
  split_subscripts; try discriminate H;
    injection H as <-;
    eapply subscript_is_exception; eassumption.
Qed.

Lemma albums_first_reply {Json} (json_loads : string -> option Json)
      (transport : nat -> Request -> Reply) (id tok : string)
      (response : Json) :
  attempt_result json_loads (transport 0%nat (albums_request id tok))
  = Returned response ->
  get_albums_from_spotify json_loads transport id tok 3 1 w0
  = (Returned response, mkWorld 1 [HttpGet (albums_request id tok)] None).
Proof.
  intros Hok. rewrite albums_shape.
  rewrite (retrying_succeeds json_loads transport (albums_request id tok)
             _ _ 3 1 0 response ltac:(lia) ltac:(simpl; lia)
             ltac:(intros j Hj; lia) Hok).
  reflexivity.
Qed.

(** X12. An artist record without a usable ["spotify_id"] entry is never
    looked up: [process_albums_from_spotify] sends no request, logs the
    lookup error and raises it again wrapped in [Exception]. *)
Theorem artist_without_id_key_is_not_requested
        (json_loads : string -> option json)
        (transport : nat -> Request -> Reply) (py_repr : json -> string)
        (artist : json) (token : string) (e : perr) :
  subscript artist (Key "spotify_id") = Failed e ->
  process_albums_from_spotify json_loads transport py_repr artist token pw0
  = (Failed (Wrapped AsException "Error processing albums from spotify" e),
     mkPWorld 0 [LogFailure "Error processing albums from spotify" e]).
Proof.
  intros Hid.
  unfold process_albums_from_spotify, p_try_except.
  unfold p_bind at 1. unfold pure at 1. rewrite Hid.
  rewrite (subscript_is_exception _ _ _ Hid). reflexivity.
Qed.

Lemma artist_without_id_key_is_not_requested_witness :
  process_albums_from_spotify stub_documents (always (ok_body "albums"))
    stub_repr (JObj [("artist_name", JStr "Ann")]) "T" pw0
  = (Failed (Wrapped AsException "Error processing albums from spotify"
               (KeyError (Key "spotify_id"))),
     mkPWorld 0 [LogFailure "Error processing albums from spotify"
                            (KeyError (Key "spotify_id"))]).
Proof.
  apply (artist_without_id_key_is_not_requested
           stub_documents (always (ok_body "albums")) stub_repr
           (JObj [("artist_name", JStr "Ann")]) "T"
           (KeyError (Key "spotify_id"))).
  reflexivity.
Defined.

(** What follows a fetch that succeeded at once: the stage adds log lines
    only. *)
Lemma process_albums_after_first_reply
      (json_loads : string -> option json)
      (transport : nat -> Request -> Reply) (py_repr : json -> string)
      (artist id response : json) (token : string) :
  subscript artist (Key "spotify_id") = Done id ->
  attempt_result json_loads
    (transport 0%nat (albums_request (py_str py_repr id) token))
  = Returned response ->
  exists r logs,
    process_albums_from_spotify json_loads transport py_repr artist token pw0
    = (r, mkPWorld 1
            (Net (HttpGet (albums_request (py_str py_repr id) token))
               :: logs))
    /\ net_of logs = [].
Proof.
  intros Hid Hok.
  unfold process_albums_from_spotify, p_try_except.
  unfold p_bind at 1. unfold pure at 1. rewrite Hid.
  unfold p_bind at 1. unfold lift.
  change (mkWorld (pcalls pw0) [] None) with w0.
  rewrite (albums_first_reply json_loads transport _ token response Hok).
  simpl calls. simpl trace. simpl ptrace. simpl map. rewrite app_nil_l.
  unfold p_bind at 1. unfold pure at 1.
  destruct (subscript response (Key "items")) as [items_value|e] eqn:Hitems.
  2:{ rewrite (subscript_is_exception _ _ _ Hitems).
      eexists. eexists. split; [reflexivity|reflexivity]. }
  unfold p_bind at 1. unfold pure at 1.
  destruct (elements items_value) as [items|e] eqn:Helems.
  2:{ rewrite (elements_is_exception _ _ Helems).
      eexists. eexists. split; [reflexivity|reflexivity]. }
  unfold p_bind at 1.
  match goal with
  | |- context [map_each ?f items ?pw] =>
      pose proof (map_each_pure f
                    (fun x q => individual_album_pure x artist q)
                    items pw) as Hpure;
      destruct (map_each f items pw) as [[albums|e] pw1] eqn:Hloop
  end; simpl in Hpure; subst pw1.
  2:{ destruct (is_pException e);
        eexists; eexists; (split; [reflexivity|reflexivity]). }
  unfold p_bind at 1. unfold pure at 1.
  destruct (subscript artist (Key "artist_name")) as [artist_name|e]
    eqn:Hname.
  2:{ rewrite (subscript_is_exception _ _ _ Hname).
      eexists. eexists. split; [reflexivity|reflexivity]. }
  eexists. eexists. split; [reflexivity|reflexivity].
Qed.

(** X13. [process_albums_from_spotify] reads one page only: once the first
    reply decodes, no further request is sent and nothing is slept,
    whatever the document holds (a [next] link is not followed) and
    whether or not the records can be built from it. *)
Theorem albums_are_read_from_one_page_only
        (json_loads : string -> option json)
        (transport : nat -> Request -> Reply) (py_repr : json -> string)
        (artist id response : json) (token : string) :
  subscript artist (Key "spotify_id") = Done id ->
  attempt_result json_loads
    (transport 0%nat (albums_request (py_str py_repr id) token))
  = Returned response ->
  let run := process_albums_from_spotify json_loads transport py_repr
               artist token pw0 in
  p_requests (snd run) = [albums_request (py_str py_repr id) token]
  /\ p_slept (snd run) = []
  /\ pcalls (snd run) = 1%nat.
Proof.
  intros Hid Hok run. subst run.
  destruct (process_albums_after_first_reply json_loads transport py_repr
              artist id response token Hid Hok)
    as (r & logs & Hrun & Hlogs).
  rewrite Hrun. unfold p_requests, p_slept. simpl.
  rewrite Hlogs. auto.
Qed.

Lemma albums_are_read_from_one_page_only_witness :
  let run := process_albums_from_spotify stub_documents
               (always (ok_body "albums")) stub_repr stub_artist "T" pw0 in
  p_requests (snd run) = [albums_request "ar1" "T"]
  /\ p_slept (snd run) = []
  /\ pcalls (snd run) = 1%nat.
Proof.
  apply (albums_are_read_from_one_page_only
           stub_documents (always (ok_body "albums")) stub_repr
           stub_artist (JStr "ar1")
           (JObj [("items", JList [JObj [("id", JStr "al1");
                                         ("name", JStr "One");
                                         ("external_urls",
                                          JObj [("spotify",
                                                 JStr "https://x/al1")]);
                                         ("album_type", JStr "album");
                                         ("release_date", JStr "2001");
                                         ("total_tracks", JInt 2);
                                         ("images", JList [])]]);
                  ("next", JStr "https://api.spotify.com/v1/next-page")])
           "T").
  - reflexivity.
  - reflexivity.
Defined.

(** A loop over pure bodies stops at the first element that fails, with
    the error of that element. *)
Lemma map_each_first_failure {B} (f : json -> P B) :
  (forall x pw, snd (f x pw) = pw) ->
  forall good bad rest pw e,
    Forall (fun x => exists y, fst (f x pw) = Done y) good ->
    fst (f bad pw) = Failed e ->
    map_each f (good ++ bad :: rest) pw = (Failed e, pw).
Proof.
  intros Hpure good bad rest pw e Hgood Hbad.
  induction Hgood as [|x good [y Hy] _ IH]; simpl; unfold p_bind.
  - pose proof (Hpure bad pw) as Hw.
    destruct (f bad pw) as [r pw1]. simpl in Hw, Hbad. subst pw1 r.
    reflexivity.
  - pose proof (Hpure x pw) as Hw.
    destruct (f x pw) as [r pw1]. simpl in Hw, Hy. subst pw1 r.
    rewrite IH. reflexivity.
Qed.

(** X14. The first item from which no record can be built fails the whole
    artist: when the items before it give records and it does not,
    [process_albums_from_spotify] returns no partial list, does not look
    at the items after it, and raises the error of that item wrapped in
    [Exception]. *)
Theorem first_bad_item_fails_the_artist
        (json_loads : string -> option json)
        (transport : nat -> Request -> Reply) (py_repr : json -> string)
        (artist id response items_value bad : json)
        (good rest : list json) (token : string) (e : perr) :
  subscript artist (Key "spotify_id") = Done id ->
  attempt_result json_loads
    (transport 0%nat (albums_request (py_str py_repr id) token))
  = Returned response ->
  subscript response (Key "items") = Done items_value ->
  elements items_value = Done (good ++ bad :: rest) ->
  Forall (fun x => exists a, fst (individual_album x artist pw0) = Done a)
         good ->
  fst (individual_album bad artist pw0) = Failed e ->
  fst (process_albums_from_spotify json_loads transport py_repr
         artist token pw0)
  = Failed (Wrapped AsException "Error processing albums from spotify" e).
Proof.
  intros Hid Hok Hitems Helems Hgood Hbad.
  unfold process_albums_from_spotify, p_try_except.
  unfold p_bind at 1. unfold pure at 1. rewrite Hid.
  unfold p_bind at 1. unfold lift.
  change (mkWorld (pcalls pw0) [] None) with w0.
  rewrite (albums_first_reply json_loads transport _ token response Hok).
  unfold p_bind at 1. unfold pure at 1. rewrite Hitems.
  unfold p_bind at 1. unfold pure at 1. rewrite Helems.
  unfold p_bind at 1.
  match goal with
  | |- context [map_each ?f (good ++ bad :: rest) ?pw] =>
      rewrite (map_each_first_failure f
                 (fun x q => individual_album_pure x artist q)
                 good bad rest pw e)
  end.
  - rewrite (individual_album_failed _ _ _ _ Hbad). reflexivity.
  - eapply Forall_impl; [|exact Hgood].
    intros x [y Hy]. exists y.
    rewrite <- Hy. apply individual_album_world.
  - rewrite <- Hbad. apply individual_album_world.
Qed.

Lemma first_bad_item_fails_the_artist_witness :
  fst (process_albums_from_spotify
         (fun _ => Some (JObj [("items",
                                JList [stub_album_item; JNull;
                                       JObj [("id", JStr "al3")]])]))
         (always (ok_body "any")) stub_repr stub_artist "T" pw0)
  = Failed (Wrapped AsException "Error processing albums from spotify"
                    (Low TypeError)).
Proof.
  apply (first_bad_item_fails_the_artist
           (fun _ => Some (JObj [("items",
                                  JList [stub_album_item; JNull;
                                         JObj [("id", JStr "al3")]])]))
           (always (ok_body "any")) stub_repr stub_artist (JStr "ar1")
           (JObj [("items",
                   JList [stub_album_item; JNull;
                          JObj [("id", JStr "al3")]])])
           (JList [stub_album_item; JNull; JObj [("id", JStr "al3")]])
           JNull [stub_album_item] [JObj [("id", JStr "al3")]]
           "T" (Low TypeError)).
  - reflexivity.
  - reflexivity.
  - reflexivity.
  - reflexivity.
  - constructor; [|constructor]. eexists. reflexivity.
  - reflexivity.
Defined.

Lemma process_albums_exhausted_run
      (json_loads : string -> option json)
      (transport : nat -> Request -> Reply) (py_repr : json -> string)
      (artist id : json) (token : string) :
  subscript artist (Key "spotify_id") = Done id ->
  (forall i, (i < 3)%nat ->
             fails json_loads
                   (transport i (albums_request (py_str py_repr id) token))) ->
  process_albums_from_spotify json_loads transport py_repr artist token pw0
  = (Failed (Wrapped AsException "Error processing albums from spotify"
                     (Low (albums_exhausted 3))),
     mkPWorld 3
       (map Net
            (failure_events json_loads transport
               (albums_request (py_str py_repr id) token)
               "Error getting artist's metadata from spotify api" 1 0 0 3
             ++ [LogError (FailedAfter "Error getting albums from spotify" 3)])
        ++ [LogFailure "Error processing albums from spotify"
                       (Low (albums_exhausted 3))])).
Proof.
  intros Hid Hfail.
  unfold process_albums_from_spotify, p_try_except.
  unfold p_bind at 1. unfold pure at 1. rewrite Hid.
  unfold p_bind at 1. unfold lift.
  change (mkWorld (pcalls pw0) [] None) with w0.
  rewrite (albums_exhausted_run json_loads transport _ token 3 1
             default_delays_sleepable Hfail).
  reflexivity.
Qed.

(** X15. When the three attempts of the fetch all fail,
    [process_albums_from_spotify] has sent three requests and slept 1, 2
    and 4 seconds (the defaults of [get_albums_from_spotify]); it logs the
    failure and raises the exhaustion error wrapped in [Exception]. *)
Theorem exhausted_fetch_fails_the_albums_stage
        (json_loads : string -> option json)
        (transport : nat -> Request -> Reply) (py_repr : json -> string)
        (artist id : json) (token : string) :
  subscript artist (Key "spotify_id") = Done id ->
  (forall i, (i < 3)%nat ->
             fails json_loads
                   (transport i (albums_request (py_str py_repr id) token))) ->
  let run := process_albums_from_spotify json_loads transport py_repr
               artist token pw0 in
  fst run
  = Failed (Wrapped AsException "Error processing albums from spotify"
                    (Low (albums_exhausted 3)))
  /\ p_requests (snd run)
     = repeat (albums_request (py_str py_repr id) token) 3
  /\ p_slept (snd run) = [1; 2; 4]
  /\ exists earlier,
      ptrace (snd run)
      = earlier
          ++ [Net (LogError
                     (FailedAfter "Error getting albums from spotify" 3));
              LogFailure "Error processing albums from spotify"
                         (Low (albums_exhausted 3))].
Proof.
  intros Hid Hfail run. subst run.
  rewrite (process_albums_exhausted_run json_loads transport py_repr
             artist id token Hid Hfail).
  unfold p_requests, p_slept. cbn [fst snd ptrace].
  split; [reflexivity|].
  rewrite !net_of_app, !net_of_map_Net.
  rewrite !requests_of_app, !sleeps_of_app.
  rewrite requests_of_failure_events, sleeps_of_failure_events.
  split; [reflexivity|]. split; [reflexivity|].
  rewrite map_app, <- app_assoc. eexists. reflexivity.
Qed.

Lemma always_error_status_fails {Json} (json_loads : string -> option Json)
      (code : Z) (i : nat) (req : Request) :
  (400 <=? code) && (code <? 600) = true ->
  fails json_loads (always (status code) i req).
Proof.
  intros Hcode. exists (HTTPError code).
  unfold fails_with, always, status, attempt_result. simpl.
  rewrite Hcode. split; reflexivity.
Qed.

Lemma exhausted_fetch_fails_the_albums_stage_witness :
  let run := process_albums_from_spotify stub_documents
               (always (status 500)) stub_repr stub_artist "T" pw0 in
  fst run
  = Failed (Wrapped AsException "Error processing albums from spotify"
                    (Low (albums_exhausted 3)))
  /\ p_requests (snd run) = repeat (albums_request "ar1" "T") 3
  /\ p_slept (snd run) = [1; 2; 4].
Proof.
  destruct (exhausted_fetch_fails_the_albums_stage
              stub_documents (always (status 500)) stub_repr stub_artist
              (JStr "ar1") "T" eq_refl
              (fun i _ => always_error_status_fails stub_documents 500 i _
                            eq_refl))
    as (H1 & H2 & H3 & _).
  split; [exact H1|]. split; [exact H2|exact H3].
Defined.

(** ** [process_album_songs_from_spotify] *)

Lemma name_lookup_pure (x : json) (pw : PWorld) :
  snd (pure (subscript x (Key "name")) pw) = pw.
Proof. reflexivity. Qed.

Lemma individual_song_pure (song album : json) (pw : PWorld) :
  snd (individual_song song album pw) = pw.
Proof.
  unfold individual_song.
  repeat (unfold p_bind at 1; unfold pure at 1;
          match goal with
          | |- context [match subscript ?v ?k with _ => _ end] =>
              destruct (subscript v k); [|reflexivity]
          end).
  unfold p_bind at 1. unfold pure at 1.
  match goal with
  | |- context [match elements ?v with _ => _ end] =>
      destruct (elements v) as [artists|]; [|reflexivity]
  end.
  unfold p_bind at 1.
  match goal with
  | |- context [map_each ?f artists pw] =>
      pose proof (map_each_pure f name_lookup_pure artists pw) as Hpure;
      destruct (map_each f artists pw) as [[names|] pw1]
  end; simpl in Hpure; subst pw1; [|reflexivity].
  unfold p_bind, pure, p_ret.
  split_subscripts; reflexivity.
Qed.

Lemma individual_song_done (song album s : json) (pw : PWorld) :
  fst (individual_song song album pw) = Done s ->
  keys s = song_keys
  /\ subscript s (Key "spotify_id") = subscript song (Key "id")
  /\ subscript s (Key "name") = subscript song (Key "name")
  /\ subscript s (Key "album") = subscript album (Key "album")
  /\ subscript s (Key "release_date") = subscript album (Key "release_date")
  /\ subscript s (Key "duration_ms") = subscript song (Key "duration_ms")
  /\ subscript s (Key "explicit") = subscript song (Key "explicit")
  /\ exists first rest primary others,
      subscript song (Key "artists") = Done (JList (first :: rest))
      /\ subscript first (Key "name") = Done primary
      /\ subscript s (Key "artists") = Done (JList (primary :: others))
      /\ subscript s (Key "primary_artist") = Done primary
      /\ Forall2 (fun a n => subscript a (Key "name") = Done n) rest others.
Proof.
  unfold individual_song. intros H.
  unfold p_bind at 1 in H. unfold pure at 1 in H.
  destruct (subscript song (Key "id")) as [id|] eqn:Hid;
    [|discriminate H].
  unfold p_bind at 1 in H. unfold pure at 1 in H.
  destruct (subscript song (Key "name")) as [name|] eqn:Hname;
    [|discriminate H].
  unfold p_bind at 1 in H. unfold pure at 1 in H.
  destruct (subscript album (Key "album")) as [album_name|] eqn:Halbum;
    [|discriminate H].
  unfold p_bind at 1 in H. unfold pure at 1 in H.
  destruct (subscript song (Key "artists")) as [v|] eqn:Hartists;
    [|discriminate H].
  unfold p_bind at 1 in H. unfold pure at 1 in H.
  destruct (elements v) as [artists|] eqn:Helems; [|discriminate H].
  unfold p_bind at 1 in H.
  match type of H with
  | context [map_each ?f artists pw] =>
      destruct (map_each f artists pw) as [[names|] pw1] eqn:Hloop;
        [|discriminate H];
        destruct (map_each_done f name_lookup_pure _ _ _ _ Hloop)
          as [-> Hall]
  end.
  unfold p_bind at 1 in H. unfold pure at 1 in H.
  unfold p_bind at 1 in H. unfold pure at 1 in H.
  destruct (subscript v (At 0)) as [first|] eqn:Hfirst; [|discriminate H].
  unfold p_bind at 1 in H. unfold pure at 1 in H.
  destruct (subscript first (Key "name")) as [primary|] eqn:Hprimary;
    [|discriminate H].
  unfold p_bind, pure, p_ret in H.
  split_subscripts; try discriminate H.
  injection H as <-. simpl.
  repeat (split; [reflexivity|]).
  destruct v as [| | | | str |items|fields]; try discriminate Helems.
  - (* a string: its first character has no ["name"] *)
    simpl in Hfirst.
    destruct (resolve 0 (String.length str)) as [p|]; [|discriminate Hfirst].
    destruct (String.get p str); [|discriminate Hfirst].
    injection Hfirst as <-. discriminate Hprimary.
  - (* a list *)
    simpl in Helems. injection Helems as <-.
    destruct items as [|x rest]; [discriminate Hfirst|].
    simpl in Hfirst. injection Hfirst as <-.
    inversion Hall as [|x' n rest' others Hx Hrest]; subst.
    simpl in Hx. rewrite Hprimary in Hx. injection Hx as <-.
    exists x, rest, primary, others.
    repeat (split; [reflexivity || assumption|]). exact Hrest.
  - (* a dictionary has no position 0 *)
    discriminate Hfirst.
Qed.

(** X16. A list returned by [process_album_songs_from_spotify] has one
    record per item of the track listing, in the same order, each with
    exactly the nine keys spotify_id, name, album, artists, primary_artist,
    spotify_url, release_date, duration_ms, explicit.  In every record
    [artists] is a non-empty list of the names of the song's artists and
    [primary_artist] is its first entry; [album] and [release_date] are
    those of the album record the stage was called with. *)
Theorem returned_songs_mirror_the_items
        (json_loads : string -> option json)
        (transport : nat -> Request -> Reply) (py_repr : json -> string)
        (album : json) (token : string) (songs_list : list json) :
  fst (process_album_songs_from_spotify json_loads transport py_repr
         album token pw0)
  = Done songs_list ->
  exists id response items_value items,
    subscript album (Key "spotify_id") = Done id
    /\ fst (fetch_album_songs_from_spotify json_loads transport
              (py_str py_repr id) token 3 1 w0)
       = Returned response
    /\ subscript response (Key "items") = Done items_value
    /\ elements items_value = Done items
    /\ Forall2
         (fun item s =>
            keys s = song_keys
            /\ subscript s (Key "spotify_id") = subscript item (Key "id")
            /\ subscript s (Key "name") = subscript item (Key "name")
            /\ subscript s (Key "album") = subscript album (Key "album")
            /\ subscript s (Key "release_date")
               = subscript album (Key "release_date")
            /\ subscript s (Key "duration_ms")
               = subscript item (Key "duration_ms")
            /\ subscript s (Key "explicit") = subscript item (Key "explicit")
            /\ exists first rest primary others,
                subscript item (Key "artists") = Done (JList (first :: rest))
                /\ subscript first (Key "name") = Done primary
                /\ subscript s (Key "artists")
                   = Done (JList (primary :: others))
                /\ subscript s (Key "primary_artist") = Done primary
                /\ Forall2 (fun a n => subscript a (Key "name") = Done n)
                           rest others)
         items songs_list.
Proof.
  unfold process_album_songs_from_spotify, p_try_except.
  unfold p_bind at 1. unfold pure at 1.
  destruct (subscript album (Key "spotify_id")) as [id|e] eqn:Hid.
  2:{ rewrite (subscript_is_exception _ _ _ Hid). simpl.
      intros H. discriminate H. }
  unfold p_bind at 1. unfold lift.
  change (mkWorld (pcalls pw0) [] None) with w0.
  destruct (fetch_album_songs_from_spotify json_loads transport
              (py_str py_repr id) token 3 1 w0) as [[response|e] w]
    eqn:Hfetch.
  2:{ destruct (is_pException (Low e)); simpl; intros H; discriminate H. }
  unfold p_bind at 1. unfold pure at 1.
  destruct (subscript response (Key "items")) as [items_value|e] eqn:Hitems.
  2:{ rewrite (subscript_is_exception _ _ _ Hitems). simpl.
      intros H. discriminate H. }
  unfold p_bind at 1. unfold pure at 1.
  destruct (elements items_value) as [items|e] eqn:Helems.
  2:{ rewrite (elements_is_exception _ _ Helems). simpl.
      intros H. discriminate H. }
  unfold p_bind at 1.
  match goal with
  | |- context [map_each ?f items ?pw] =>
      destruct (map_each f items pw) as [[songs|e] pw1] eqn:Hloop
  end.
  2:{ destruct (is_pException e); simpl; intros H; discriminate H. }
  destruct (map_each_done _ (fun x q => individual_song_pure x album q)
              _ _ _ _ Hloop) as [-> Hall].
  unfold p_ret. simpl. intros H. injection H as <-.
  exists id, response, items_value, items.
  split; [reflexivity|]. split; [rewrite Hfetch; reflexivity|].
  split; [assumption|]. split; [assumption|].
  eapply Forall2_impl; [|exact Hall].
  intros item s Hdone. cbv beta in Hdone.
  exact (individual_song_done _ _ _ _ Hdone).
Qed.

Lemma returned_songs_mirror_the_items_witness :
  exists id response items_value items,
    subscript stub_album (Key "spotify_id") = Done id
    /\ fst (fetch_album_songs_from_spotify stub_documents
              (always (ok_body "tracks")) (py_str stub_repr id) "T" 3 1 w0)
       = Returned response
    /\ subscript response (Key "items") = Done items_value
    /\ elements items_value = Done items
    /\ List.length items = 1%nat.
Proof.
  destruct (returned_songs_mirror_the_items
              stub_documents (always (ok_body "tracks")) stub_repr
              stub_album "T"
              [JObj [("spotify_id", JStr "t1"); ("name", JStr "Song");
                     ("album", JStr "One");
                     ("artists", JList [JStr "Ann"; JStr "Bob"]);
                     ("primary_artist", JStr "Ann");
                     ("spotify_url", JStr "https://x/t1");
                     ("release_date", JStr "2001");
                     ("duration_ms", JInt 1000);
                     ("explicit", JBool false)]]
              eq_refl)
    as (id & response & items_value & items & H1 & H2 & H3 & H4 & Hall).
  exists id, response, items_value, items.
  repeat (split; [assumption|]).
  apply Forall2_length in Hall. rewrite Hall. reflexivity.
Defined.

(** The records of the albums stage carry the album keys. *)
Lemma returned_albums_have_album_keys
      (json_loads : string -> option json)
      (transport : nat -> Request -> Reply) (py_repr : json -> string)
      (artist : json) (token : string) (album_list : list json) :
  fst (process_albums_from_spotify json_loads transport py_repr
         artist token pw0)
  = Done album_list ->
  Forall (fun a => keys a = album_keys) album_list.
Proof.
  unfold process_albums_from_spotify, p_try_except.
  unfold p_bind at 1. unfold pure at 1.
  destruct (subscript artist (Key "spotify_id")) as [id|e] eqn:Hid.
  2:{ rewrite (subscript_is_exception _ _ _ Hid). simpl.
      intros H. discriminate H. }
  unfold p_bind at 1. unfold lift.
  destruct (get_albums_from_spotify json_loads transport (py_str py_repr id)
              token 3 1 _) as [[response|e] w].
  2:{ destruct (is_pException (Low e)); simpl; intros H; discriminate H. }
  unfold p_bind at 1. unfold pure at 1.
  destruct (subscript response (Key "items")) as [items_value|e] eqn:Hitems.
  2:{ rewrite (subscript_is_exception _ _ _ Hitems). simpl.
      intros H. discriminate H. }
  unfold p_bind at 1. unfold pure at 1.
  destruct (elements items_value) as [items|e] eqn:Helems.
  2:{ rewrite (elements_is_exception _ _ Helems). simpl.
      intros H. discriminate H. }
  unfold p_bind at 1.
  match goal with
  | |- context [map_each ?f items ?pw] =>
      destruct (map_each f items pw) as [[albums|e] pw1] eqn:Hloop
  end.
  2:{ destruct (is_pException e); simpl; intros H; discriminate H. }
  destruct (map_each_done _ (fun x q => individual_album_pure x artist q)
              _ _ _ _ Hloop) as [-> Hall].
  unfold p_bind at 1. unfold pure at 1.
  destruct (subscript artist (Key "artist_name")) as [artist_name|e]
    eqn:Hname.
  2:{ rewrite (subscript_is_exception _ _ _ Hname). simpl.
      intros H. discriminate H. }
  unfold p_bind, logger_info, p_ret. simpl. intros H. injection H as <-.
  clear Hloop Helems.
  induction Hall as [|item a items albums Hdone _ IH]; [constructor|].
  constructor; [|exact IH].
  exact (proj1 (individual_album_done _ _ _ _ Hdone)).
Qed.

(** X17. The two stages do not compose as they are: a record built by
    [process_albums_from_spotify] has no ["spotify_id"] key (its id is
    under ["id"]), so [process_album_songs_from_spotify] applied to it
    raises [KeyError] wrapped in [Exception] before any request is sent. *)
Theorem album_records_are_rejected_by_the_songs_stage
        (json_loads json_loads' : string -> option json)
        (transport transport' : nat -> Request -> Reply)
        (py_repr py_repr' : json -> string)
        (artist : json) (token token' : string)
        (album_list : list json) (a : json) :
  fst (process_albums_from_spotify json_loads transport py_repr
         artist token pw0)
  = Done album_list ->
  In a album_list ->
  process_album_songs_from_spotify json_loads' transport' py_repr'
    a token' pw0
  = (Failed (Wrapped AsException "Error processing album songs from spotify"
                     (KeyError (Key "spotify_id"))),
     mkPWorld 0 [LogFailure "Error processing album songs from spotify"
                            (KeyError (Key "spotify_id"))]).
Proof.
  intros Hdone Hin.
  pose proof (returned_albums_have_album_keys _ _ _ _ _ _ Hdone) as Hkeys.
  rewrite Forall_forall in Hkeys. specialize (Hkeys a Hin).
  assert (Hsub : subscript a (Key "spotify_id")
                 = Failed (KeyError (Key "spotify_id"))).
  { destruct a as [| | | | |items|fields]; try discriminate Hkeys.
    simpl in Hkeys. simpl. rewrite lookup_absent; [reflexivity|].
    rewrite Hkeys. unfold album_keys. simpl.
    intros H. repeat (destruct H as [H|H]; [discriminate H|]). exact H. }
  unfold process_album_songs_from_spotify, p_try_except.
  unfold p_bind at 1. unfold pure at 1. rewrite Hsub. reflexivity.
Qed.

Lemma album_records_are_rejected_by_the_songs_stage_witness :
  process_album_songs_from_spotify stub_documents (always (ok_body "tracks"))
    stub_repr stub_album_record "T" pw0
  = (Failed (Wrapped AsException "Error processing album songs from spotify"
                     (KeyError (Key "spotify_id"))),
     mkPWorld 0 [LogFailure "Error processing album songs from spotify"
                            (KeyError (Key "spotify_id"))]).
Proof.
  apply (album_records_are_rejected_by_the_songs_stage
           stub_documents stub_documents
           (always (ok_body "albums")) (always (ok_body "tracks"))
           stub_repr stub_repr stub_artist "T" "T"
           [stub_album_record] stub_album_record).
  - reflexivity.
  - left. reflexivity.
Defined.

(** ** [process_spotify_response] *)

Section EnrichmentFacts.

Variable json_loads : string -> option json.
Variable transport : nat -> Request -> Reply.
Variable token_source : nat -> exn + string.
Variable int_of_text : json -> PResult Z.
Variable strftime_now : PWorld -> string.

Lemma lookup_update_other (k k' : string) (v : json)
      (fields : list (string * json)) :
  k' <> k -> lookup k' (update k v fields) = lookup k' fields.
Proof.
  intros Hne. induction fields as [|[k0 x] fields IH]; simpl.
  - destruct (String.eqb_spec k' k) as [Heq|_]; [contradiction|reflexivity].
  - destruct (String.eqb_spec k k0) as [->|Hk]; simpl.
    + destruct (String.eqb_spec k' k0) as [Heq|_];
        [contradiction|reflexivity].
    + destruct (String.eqb_spec k' k0); [reflexivity|exact IH].
Qed.

Lemma setitem_other (d d' v : json) (k k' : string) :
  setitem d k v = Done d' ->
  k' <> k ->
  subscript d' (Key k') = subscript d (Key k').
Proof.
  destruct d; simpl; intros H Hne; try discriminate H.
  injection H as <-. simpl. rewrite lookup_update_other by exact Hne.
  reflexivity.
Qed.

Lemma setitem_at_other (d d' v : json) (p k k' : string)
      (path : list string) :
  setitem_at d (p :: path) k v = Done d' ->
  k' <> p ->
  subscript d' (Key k') = subscript d (Key k').
Proof.
  simpl. intros H Hne.
  destruct (subscript d (Key p)) as [inner|]; [|discriminate H].
  destruct (setitem_at inner path k v) as [inner'|]; [|discriminate H].
  exact (setitem_other _ _ _ _ _ H Hne).
Qed.

Lemma setitem_at_present (d d' v : json) (p k : string)
      (path : list string) :
  setitem_at d (p :: path) k v = Done d' ->
  exists inner, subscript d (Key p) = Done inner.
Proof.
  simpl. intros H.
  destruct (subscript d (Key p)) as [inner|]; [|discriminate H].
  exists inner. reflexivity.
Qed.

Lemma entry_of_pure (response : json) (index : nat) (pw : PWorld) :
  snd (entry_of response index pw) = pw.
Proof.
  unfold entry_of, p_bind, pure.
  destruct (subscript response (Key "artists")); reflexivity.
Qed.

(** One step of [enrich]: a pure value, then the rest. *)
Ltac enrich_step H :=
  unfold p_bind at 1 in H;
  match type of H with
  | context [match pure ?r ?pw with _ => _ end] =>
      let x := fresh "x" in
      let Hx := fresh "Hx" in
      change (pure r pw) with (r, pw) in H;
      destruct r as [x|] eqn:Hx; [|discriminate H]
  | context [match entry_of ?r ?i ?pw with _ => _ end] =>
      let x := fresh "entry" in
      let Hx := fresh "Hentry" in
      let pw1 := fresh "pw" in
      let Hpw := fresh "Hpw" in
      pose proof (entry_of_pure r i pw) as Hpw;
      destruct (entry_of r i pw) as [[x|] pw1] eqn:Hx;
      [simpl in Hpw; subst pw1|discriminate H]
  | context [match now strftime_now ?pw with _ => _ end] =>
      change (now strftime_now pw) with (Done (strftime_now pw), pw) in H;
      cbv iota beta in H
  end.

Lemma enrich_pure (response artist : json) (index : nat) (pw : PWorld) :
  snd (enrich int_of_text strftime_now response index artist pw) = pw.
Proof.
  unfold enrich.
  repeat (unfold p_bind at 1;
          match goal with
          | |- context [match pure ?r ?q with _ => _ end] =>
              change (pure r q) with (r, q);
              destruct r; [|reflexivity]
          | |- context [match entry_of ?r ?i ?q with _ => _ end] =>
              let Hpw := fresh "Hpw" in
              let pw1 := fresh "pw" in
              pose proof (entry_of_pure r i q) as Hpw;
              destruct (entry_of r i q) as [[?|] pw1];
              simpl in Hpw; subst pw1; [|reflexivity]
          | |- context [match now strftime_now ?q with _ => _ end] =>
              change (now strftime_now q) with (Done (strftime_now q), q);
              cbv iota beta
          end).
  reflexivity.
Qed.

Lemma lookup_update_same (k : string) (v : json)
      (fields : list (string * json)) :
  lookup k (update k v fields) = Some v.
Proof.
  induction fields as [|[k0 x] fields IH]; simpl.
  - rewrite String.eqb_refl. reflexivity.
  - destruct (String.eqb_spec k k0) as [->|Hk]; simpl.
    + rewrite String.eqb_refl. reflexivity.
    + destruct (String.eqb_spec k k0); [contradiction|exact IH].
Qed.

Lemma setitem_same (d d' v : json) (k : string) :
  setitem d k v = Done d' -> subscript d' (Key k) = Done v.
Proof.
  destruct d; simpl; intros H; try discriminate H.
  injection H as <-. simpl. rewrite lookup_update_same. reflexivity.
Qed.

Lemma setitem_at_step (d d' v : json) (p k : string) (path : list string) :
  setitem_at d (p :: path) k v = Done d' ->
  exists inner inner',
    subscript d (Key p) = Done inner
    /\ setitem_at inner path k v = Done inner'
    /\ subscript d' (Key p) = Done inner'
    /\ forall k', k' <> p -> subscript d' (Key k') = subscript d (Key k').
Proof.
  simpl. intros H.
  destruct (subscript d (Key p)) as [inner|]; [|discriminate H].
  destruct (setitem_at inner path k v) as [inner'|] eqn:Hin;
    [|discriminate H].
  exists inner, inner'. split; [reflexivity|]. split; [exact Hin|].
  split; [exact (setitem_same _ _ _ _ H)|].
  intros k' Hne. exact (setitem_other _ _ _ _ _ H Hne).
Qed.

(** What [enrich] assigns and what it leaves alone. *)
Lemma enrich_from_entry (response artist artist' : json) (index : nat)
      (pw : PWorld) :
  fst (enrich int_of_text strftime_now response index artist pw)
  = Done artist' ->
  exists artists entry,
    subscript response (Key "artists") = Done artists
    /\ subscript artists (At (Z.of_nat index)) = Done entry
    /\ enriched_from int_of_text entry (strftime_now pw) artist artist'.
Proof.
  unfold enrich. intros H.
  do 26 (try enrich_step H).
  unfold p_ret in H. simpl in H. injection H as <-.
  repeat match goal with
         | Heq : (Done _, _) = (Done _, _) |- _ =>
             injection Heq as Heq; subst
         end.
  match goal with
  | Hentry : entry_of response index pw = _ |- _ =>
      unfold entry_of, p_bind, pure in Hentry;
      destruct (subscript response (Key "artists")) as [artists|] eqn:Ha;
      [|discriminate Hentry];
      injection Hentry as Hentry
  end.
  exists artists. eexists. split; [reflexivity|]. split; [eassumption|].
  (* the assignments, one by one *)
  pose proof (setitem_same _ _ _ _ Hx1) as Hurl1.
  pose proof (setitem_same _ _ _ _ Hx2) as Hstamp2.
  destruct (setitem_at_step _ _ _ _ _ _ Hx3)
    as (m0 & m1 & Hm0 & Hs3 & Hm1 & Ho3).
  simpl in Hs3.
  pose proof (setitem_same _ _ _ _ Hs3) as Hsp1.
  destruct (setitem_at_step _ _ _ _ _ _ Hx7)
    as (m1' & m2 & Hm1' & Hs7 & Hm2 & Ho7).
  rewrite Hm1 in Hm1'. injection Hm1' as <-.
  destruct (setitem_at_step _ _ _ _ _ _ Hs7)
    as (s0 & s1 & Hs0 & Hss7 & Hsp2 & Hom7).
  rewrite Hsp1 in Hs0. injection Hs0 as <-.
  simpl in Hss7. injection Hss7 as <-.
  destruct (setitem_at_step _ _ _ _ _ _ Hx10)
    as (m2' & m3 & Hm2' & Hs10 & Hm3 & Ho10).
  rewrite Hm2 in Hm2'. injection Hm2' as <-.
  destruct (setitem_at_step _ _ _ _ _ _ Hs10)
    as (s1' & s2 & Hs1' & Hss10 & Hsp3 & Hom10).
  rewrite Hsp2 in Hs1'. injection Hs1' as <-.
  simpl in Hss10. injection Hss10 as <-.
  pose proof (setitem_same _ _ _ _ Hx11) as Hmeta11.
  destruct (setitem_at_step _ _ _ _ _ _ Hx13)
    as (g0 & g1 & Hg0 & Hs13 & Hmeta13 & Ho13).
  rewrite Hmeta11 in Hg0. injection Hg0 as <-.
  simpl in Hs13. injection Hs13 as <-.
  destruct (setitem_at_step _ _ _ _ _ _ Hx15)
    as (g1' & g2 & Hg1' & Hs15 & Hmeta15 & Ho15).
  rewrite Hmeta13 in Hg1'. injection Hg1' as <-.
  simpl in Hs15. injection Hs15 as <-.
  assert (Hkeep : forall k,
             k <> "metrics" -> k <> "spotify_meta" ->
             subscript x15 (Key k) = subscript x2 (Key k)).
  { intros k Hk1 Hk2.
    rewrite (Ho15 k Hk2), (Ho13 k Hk2),
      (setitem_other _ _ _ _ k Hx11 Hk2), (Ho10 k Hk1), (Ho7 k Hk1),
      (Ho3 k Hk1).
    reflexivity. }
  exists x0, x5, x6, x8, x9, x12, x14, m0, m3.
  split; [simpl; rewrite Hx, Hx0; reflexivity|].
  split; [simpl; rewrite Hx4, Hx5; reflexivity|].
  split; [exact Hx6|].
  split; [simpl; rewrite Hx8; reflexivity|].
  split; [exact Hx9|].
  split; [simpl; rewrite Hx12; reflexivity|].
  split; [simpl; rewrite Hx14; reflexivity|].
  split.
  { rewrite Hkeep by discriminate.
    rewrite (setitem_other _ _ _ _ "spotify_url" Hx2) by discriminate.
    exact Hurl1. }
  split.
  { rewrite Hkeep by discriminate. exact Hstamp2. }
  split.
  { rewrite <- Hm0.
    rewrite (setitem_other _ _ _ _ "metrics" Hx2) by discriminate.
    rewrite (setitem_other _ _ _ _ "metrics" Hx1) by discriminate.
    reflexivity. }
  split.
  { rewrite (Ho15 "metrics") by discriminate.
    rewrite (Ho13 "metrics") by discriminate.
    rewrite (setitem_other _ _ _ _ "metrics" Hx11) by discriminate.
    exact Hm3. }
  split; [exact Hsp3|].
  split.
  { intros k Hk.
    rewrite (Hom10 k Hk), (Hom7 k Hk).
    exact (setitem_other _ _ _ _ k Hs3 Hk). }
  split; [exact Hmeta15|].
  intros k Hk.
  assert (Hne : k <> "spotify_url" /\ k <> "init_processed_at"
                /\ k <> "metrics" /\ k <> "spotify_meta").
  { repeat split; intros ->; apply Hk; simpl; auto. }
  destruct Hne as (H1 & H2 & H3 & H4).
  rewrite (Hkeep k H3 H4).
  rewrite (setitem_other _ _ _ _ k Hx2 H2).
  exact (setitem_other _ _ _ _ k Hx1 H1).
Qed.

End EnrichmentFacts.

Section EnrichmentRuns.

Variable json_loads : string -> option json.
Variable transport : nat -> Request -> Reply.
Variable token_source : nat -> exn + string.
Variable int_of_text : json -> PResult Z.
Variable strftime_now : PWorld -> string.

(** Replacing a slice by as many values leaves the rest of the list where
    it was. *)
Lemma replace_slice {A} (cur updated : list A) (i b : nat) :
  List.length updated = List.length (firstn b (skipn i cur)) ->
  let cur' := firstn i cur ++ updated
                ++ skipn (i + List.length (firstn b (skipn i cur))) cur in
  firstn (i + b) cur' = firstn i cur ++ updated
  /\ skipn (i + b) cur' = skipn (i + b) cur
  /\ List.length cur' = List.length cur.
Proof.
  intros Hlen cur'. subst cur'.
  rewrite length_firstn, length_skipn in Hlen.
  rewrite length_firstn, length_skipn.
  destruct (Nat.le_gt_cases i (List.length cur)) as [Hi|Hi].
  - assert (Hp : List.length (firstn i cur) = i)
      by (rewrite length_firstn; lia).
    destruct (Nat.le_gt_cases b (List.length cur - i)) as [Hb|Hb].
    + replace (Nat.min b (List.length cur - i)) with b in * by lia.
      split; [|split].
      * rewrite firstn_app, Hp.
        replace (i + b - i)%nat with b by lia.
        rewrite (@firstn_all2 _ (i + b) (firstn i cur)) by lia.
        rewrite firstn_app, Hlen, Nat.sub_diag. simpl.
        rewrite (@firstn_all2 _ b updated) by lia.
        rewrite app_nil_r. reflexivity.
      * rewrite skipn_app, Hp.
        replace (i + b - i)%nat with b by lia.
        rewrite (@skipn_all2 _ (i + b) (firstn i cur)) by lia. simpl.
        rewrite skipn_app, Hlen, Nat.sub_diag. simpl.
        rewrite (@skipn_all2 _ b updated) by lia. reflexivity.
      * rewrite !length_app, Hp, Hlen, length_skipn. lia.
    + replace (Nat.min b (List.length cur - i))
        with (List.length cur - i)%nat in * by lia.
      rewrite (@skipn_all2 _ (i + (List.length cur - i)) cur) by lia.
      rewrite app_nil_r.
      split; [|split].
      * apply firstn_all2. rewrite length_app, Hp, Hlen. lia.
      * rewrite (@skipn_all2 _ (i + b) cur) by lia.
        apply skipn_all2. rewrite length_app, Hp, Hlen. lia.
      * rewrite length_app, Hp, Hlen. lia.
  - replace (Nat.min b (List.length cur - i)) with 0%nat in * by lia.
    destruct updated; [|discriminate Hlen].
    rewrite (@skipn_all2 _ (i + 0) cur) by lia.
    rewrite (@firstn_all2 _ i cur) by lia. simpl. rewrite app_nil_r.
    split; [|split].
    + apply firstn_all2. lia.
    + rewrite (@skipn_all2 _ (i + b) cur) by lia. reflexivity.
    + reflexivity.
Qed.

End EnrichmentRuns.

Section EnrichmentTrace.

Variable json_loads : string -> option json.
Variable transport : nat -> Request -> Reply.
Variable token_source : nat -> exn + string.
Variable int_of_text : json -> PResult Z.
Variable strftime_now : PWorld -> string.

Lemma all_str_length (items : list (option string)) (ids : list string) :
  all_str items = Some ids -> List.length ids = List.length items.
Proof.
  revert ids. induction items as [|[x|] items IH]; intros ids H; simpl in H.
  - injection H as <-. reflexivity.
  - destruct (all_str items) as [l|]; [|discriminate H].
    injection H as <-. simpl. rewrite (IH l eq_refl). reflexivity.
  - discriminate H.
Qed.

(** One call of [get_artist_spotify], wherever the transport stands: the
    token is asked for first and once, and every request carries the ids
    of the batch. *)
Lemma artists_run_from (c : nat) (token_outcome : exn + string)
      (batch : list Artist) :
  exists evs,
    trace (snd (get_artist_spotify json_loads transport token_outcome batch
                  3 1 (mkWorld c [] None)))
    = TokenCall :: evs
    /\ token_calls_of evs = O
    /\ Forall (fun req =>
                 exists ids tok,
                   all_str (map spotify_id batch) = Some ids
                   /\ req = artists_request ids tok)
              (requests_of evs).
Proof.
  destruct token_outcome as [e|tok].
  - rewrite artists_token_failure.
    destruct (is_Exception e); eexists; simpl;
      (split; [reflexivity|]); split; try reflexivity; constructor.
  - rewrite artists_shape.
    destruct (retrying_sleeps
                (artists_attempt json_loads transport batch tok)
                "Error getting artist's metadata from spotify api"
                (artists_after 3) 1
                (quiet_artists_attempt _ _ _ _)
                (artists_attempt_never_falls_through _ _ _ _)
                (quiet_artists_after 3) (Z.to_nat 3) 0%nat
                (emit TokenCall (mkWorld c [] None)))
      as (m & evs & _ & Ht & _ & Htok).
    change (map Z.of_nat (seq 0 (Z.to_nat 3))) with (range 3) in Ht.
    exists evs. split; [exact Ht|]. split; [exact Htok|].
    assert (Hreq : requests_of evs
                   = requests_of
                       (trace (snd (retrying
                                      (artists_attempt json_loads transport
                                         batch tok)
                                      "Error getting artist's metadata from spotify api"
                                      (artists_after 3) (range 3) 1
                                      (emit TokenCall (mkWorld c [] None)))))).
    { rewrite Ht. reflexivity. }
    rewrite Hreq. clear Hreq Ht.
    destruct (all_str (map spotify_id batch)) as [ids|] eqn:Hids.
    + rewrite (retrying_ext _ _ _ _ _ _
                 (fun w => artists_attempt_wellformed json_loads transport
                             batch ids tok w Hids)).
      destruct (fetch_run_summary json_loads transport
                  (artists_request ids tok)
                  "Error getting artist's metadata from spotify api"
                  (artists_after 3) 3 1 (emit TokenCall (mkWorld c [] None))
                  eq_refl (artists_after_raises 3))
        as (m' & r & _ & _ & _ & Hreq & _).
      rewrite Hreq. simpl. apply Forall_forall. intros req Hin.
      apply repeat_spec in Hin. subst req. exists ids, tok. auto.
    + unfold range.
      rewrite (retrying_join_failures
                 (artists_attempt json_loads transport batch tok)
                 "Error getting artist's metadata from spotify api"
                 (artists_after 3) (ids_error batch) 1 (Z.to_nat 3)
                 (fun w => artists_attempt_illformed json_loads transport
                             batch tok w Hids)
                 (ids_error_is_exception batch)
                 0%nat (emit TokenCall (mkWorld c [] None))
                 default_delays_sleepable eq_refl).
      unfold artists_after, bind, logger_error, raise, emit. simpl.
      constructor.
Qed.


(** A call that returns hands back the decoded reply to a request for the
    ids of the batch. *)
Lemma artists_returned_from (c : nat) (token_outcome : exn + string)
      (batch : list Artist) (response : json) :
  fst (get_artist_spotify json_loads transport token_outcome batch 3 1
         (mkWorld c [] None))
  = Returned response ->
  exists ids tok c',
    all_str (map spotify_id batch) = Some ids
    /\ attempt_result json_loads (transport c' (artists_request ids tok))
       = Returned response.
Proof.
  destruct token_outcome as [e|tok].
  - rewrite artists_token_failure.
    destruct (is_Exception e); intros H; discriminate H.
  - rewrite artists_shape.
    destruct (all_str (map spotify_id batch)) as [ids|] eqn:Hids.
    + rewrite (retrying_ext _ _ _ _ _ _
                 (fun w => artists_attempt_wellformed json_loads transport
                             batch ids tok w Hids)).
      destruct (fetch_run_summary json_loads transport
                  (artists_request ids tok)
                  "Error getting artist's metadata from spotify api"
                  (artists_after 3) 3 1 (emit TokenCall (mkWorld c [] None))
                  eq_refl (artists_after_raises 3))
        as (m & r & _ & _ & _ & _ & _ & _ & Hret).
      intros H. destruct (Hret response H) as [_ Hbody].
      exists ids, tok. eexists. split; [reflexivity|exact Hbody].
    + unfold range.
      rewrite (retrying_join_failures
                 (artists_attempt json_loads transport batch tok)
                 "Error getting artist's metadata from spotify api"
                 (artists_after 3) (ids_error batch) 1 (Z.to_nat 3)
                 (fun w => artists_attempt_illformed json_loads transport
                             batch tok w Hids)
                 (ids_error_is_exception batch)
                 0%nat (emit TokenCall (mkWorld c [] None))
                 default_delays_sleepable eq_refl).
      unfold artists_after, bind, logger_error, raise, emit. simpl.
      intros H. discriminate H.
Qed.

End EnrichmentTrace.

Section EnrichmentLoop.

Variable json_loads : string -> option json.
Variable transport : nat -> Request -> Reply.
Variable token_source : nat -> exn + string.
Variable int_of_text : json -> PResult Z.
Variable strftime_now : PWorld -> string.

Lemma lift_sleep_1 (pw : PWorld) :
  lift (time_sleep 1) pw
  = (Done tt, mkPWorld (pcalls pw) (ptrace pw ++ [Net (Sleep 1)])).
Proof. reflexivity. Qed.

Lemma fetch_batch_done (batch : list json) (pw : PWorld) (response : json) :
  fst (fetch_batch json_loads transport token_source batch pw)
  = Done response ->
  fetched_for json_loads transport batch response.
Proof.
  unfold fetch_batch, lift. intros H.
  apply (artists_returned_from json_loads transport (pcalls pw)
           (token_source (token_calls_of (net_of (ptrace pw))))).
  destruct (get_artist_spotify json_loads transport
              (token_source (token_calls_of (net_of (ptrace pw))))
              (map as_artist batch) 3 1 (mkWorld (pcalls pw) [] None))
    as [[r|e] w]; simpl in *; [|discriminate H].
  injection H as <-. reflexivity.
Qed.

(** The inner loop gives one value per element, each made from the element
    at its own index. *)
Lemma map_enumerate_nth {B} (f : nat -> json -> P B) :
  (forall i x pw, snd (f i x pw) = pw) ->
  forall xs i pw ys pw',
    map_enumerate f i xs pw = (Done ys, pw') ->
    pw' = pw
    /\ List.length ys = List.length xs
    /\ forall j y, nth_error ys j = Some y ->
                   exists x, nth_error xs j = Some x
                             /\ fst (f (i + j)%nat x pw) = Done y.
Proof.
  intros Hpure. induction xs as [|x xs IH]; intros i pw ys pw' Hrun.
  - injection Hrun as <- <-. split; [reflexivity|]. split; [reflexivity|].
    intros [|j] y Hy; discriminate Hy.
  - simpl in Hrun. unfold p_bind in Hrun.
    pose proof (Hpure i x pw) as Hx.
    destruct (f i x pw) as [[y0|e] pw1] eqn:Hfx; [|discriminate Hrun].
    simpl in Hx. subst pw1.
    destruct (map_enumerate f (S i) xs pw) as [[ys'|e] pw2] eqn:Hrest;
      [|discriminate Hrun].
    destruct (IH (S i) pw ys' pw2 Hrest) as (-> & Hlen & Hnth).
    injection Hrun as <- <-. split; [reflexivity|].
    split; [simpl; rewrite Hlen; reflexivity|].
    intros [|j] y Hy; simpl in Hy.
    + injection Hy as <-. exists x. split; [reflexivity|].
      rewrite Nat.add_0_r, Hfx. reflexivity.
    + destruct (Hnth j y Hy) as (x' & Hx' & Hfx').
      exists x'. split; [exact Hx'|].
      replace (i + S j)%nat with (S i + j)%nat by lia. exact Hfx'.
Qed.

(** Where the elements of a list are once a slice of it is replaced by as
    many values. *)
Lemma nth_error_replace_slice {A} (cur updated : list A) (i b : nat) :
  List.length updated = List.length (firstn b (skipn i cur)) ->
  let cur' := firstn i cur ++ updated
                ++ skipn (i + List.length (firstn b (skipn i cur))) cur in
  forall p,
    nth_error cur' p
    = if (p <? i)%nat then nth_error cur p
      else if (p <? i + b)%nat then nth_error updated (p - i)
           else nth_error cur p.
Proof.
  intros Hlen cur' p.
  destruct (replace_slice cur updated i b Hlen) as (Hfirst & Hskip & Hsame).
  fold cur' in Hfirst, Hskip, Hsame.
  assert (Hupd : (List.length updated <= b)%nat).
  { rewrite Hlen, length_firstn. lia. }
  assert (Hupd' : (List.length updated <= List.length cur - i)%nat).
  { rewrite Hlen, length_firstn, length_skipn. lia. }
  destruct (Nat.ltb_spec p (i + b)) as [Hp|Hp].
  - assert (Hcut : nth_error cur' p = nth_error (firstn (i + b) cur') p).
    { rewrite nth_error_firstn.
      destruct (Nat.ltb_spec p (i + b)); [reflexivity|lia]. }
    rewrite Hcut, Hfirst.
    destruct (Nat.ltb_spec p i) as [Hpi|Hpi].
    + destruct (Nat.lt_ge_cases p (List.length cur)) as [Hin|Hout].
      * rewrite nth_error_app1 by (rewrite length_firstn; lia).
        rewrite nth_error_firstn.
        destruct (Nat.ltb_spec p i); [reflexivity|lia].
      * assert (Hnone : nth_error cur p = None)
          by (apply nth_error_None; exact Hout).
        rewrite Hnone. apply nth_error_None.
        rewrite length_app, length_firstn. lia.
    + destruct (Nat.le_gt_cases i (List.length cur)) as [Hi|Hi].
      * rewrite nth_error_app2 by (rewrite length_firstn; lia).
        rewrite length_firstn. f_equal. lia.
      * assert (Hnil : updated = []).
        { destruct updated; [reflexivity|simpl in Hupd'; lia]. }
        subst updated. rewrite app_nil_r.
        destruct (p - i)%nat; simpl; apply nth_error_None;
          rewrite length_firstn; lia.
  - destruct (Nat.ltb_spec p i) as [Hpi|_]; [lia|].
    replace p with ((i + b) + (p - (i + b)))%nat at 1 by lia.
    rewrite <- nth_error_skipn, Hskip, nth_error_skipn.
    f_equal. lia.
Qed.

Lemma block_position (b k p : nat) :
  (k * b <= p < (k + 1) * b)%nat ->
  (p / b = k /\ p mod b = p - k * b)%nat.
Proof.
  intros Hp.
  assert (Hb : (0 < b)%nat) by nia.
  assert (Heq : p = (b * k + (p - k * b))%nat) by nia.
  split.
  - symmetry. apply (Nat.div_unique p b k (p - k * b)); [nia|exact Heq].
  - symmetry. apply (Nat.mod_unique p b k (p - k * b)); [nia|exact Heq].
Qed.

Lemma skipn_from {A} (l l' : list A) (i j : nat) :
  skipn i l' = skipn i l -> (i <= j)%nat -> skipn j l' = skipn j l.
Proof.
  intros H Hij.
  replace j with ((j - i) + i)%nat by lia.
  rewrite <- !skipn_skipn, H. reflexivity.
Qed.

(** A run of the outer loop that succeeds has enriched every artist of the
    batches it went through, each at its own position and from the entry
    at its index in the document returned for its batch; the artists
    outside these batches are where they were. *)
Lemma for_batches_done (batch_size : Z) (n : nat) :
  0 < batch_size ->
  forall (k0 : nat) (cur : list json) (pw : PWorld) (res : list json)
         (pw' : PWorld),
    for_batches json_loads transport token_source int_of_text strftime_now
      (map (fun k => (k * Z.to_nat batch_size)%nat) (seq k0 n))
      batch_size cur pw
    = (Done res, pw') ->
    List.length res = List.length cur
    /\ (forall p,
           (p < k0 * Z.to_nat batch_size)%nat
           \/ ((k0 + n) * Z.to_nat batch_size <= p)%nat ->
           nth_error res p = nth_error cur p)
    /\ (forall p a',
           (k0 * Z.to_nat batch_size <= p
            < (k0 + n) * Z.to_nat batch_size)%nat ->
           nth_error res p = Some a' ->
           exists a response q,
             nth_error cur p = Some a
             /\ fetched_for json_loads transport
                  (slice cur (p / Z.to_nat batch_size * Z.to_nat batch_size)
                         batch_size)
                  response
             /\ fst (enrich int_of_text strftime_now response
                       (p mod Z.to_nat batch_size) a q)
                = Done a').
Proof.
  intros Hbs. set (b := Z.to_nat batch_size).
  assert (Hb : (0 < b)%nat) by (subst b; lia).
  induction n as [|n IH]; intros k0 cur pw res pw' Hrun.
  - simpl in Hrun. injection Hrun as <- <-.
    split; [reflexivity|]. split; [reflexivity|].
    intros p a' Hp. lia.
  - simpl in Hrun. fold b in Hrun.
    unfold p_bind at 1 in Hrun.
    destruct (fetch_batch json_loads transport token_source
                (slice cur (k0 * b) batch_size) pw)
      as [[response|e] pw1] eqn:Hfetch; [|discriminate Hrun].
    assert (Hfetched : fetched_for json_loads transport
                         (slice cur (k0 * b) batch_size) response).
    { apply (fetch_batch_done _ pw). rewrite Hfetch. reflexivity. }
    unfold p_bind at 1 in Hrun.
    destruct (map_enumerate (enrich int_of_text strftime_now response) 0
                (slice cur (k0 * b) batch_size) pw1)
      as [[updated|e] pw2] eqn:Hloop; [|discriminate Hrun].
    destruct (map_enumerate_nth _
                (fun i x q => enrich_pure int_of_text strftime_now
                                response x i q)
                _ _ _ _ _ Hloop) as (-> & Hsame & Hnth).
    unfold p_bind at 1 in Hrun. rewrite lift_sleep_1 in Hrun.
    unfold slice in Hrun, Hsame, Hnth, Hfetched. fold b in Hrun, Hsame, Hnth, Hfetched.
    pose proof (nth_error_replace_slice cur updated (k0 * b) b Hsame)
      as Hpos.
    destruct (replace_slice cur updated (k0 * b) b Hsame)
      as (_ & Hskip & Hlen').
    cbv zeta in Hpos, Hskip, Hlen'.
    apply IH in Hrun. destruct Hrun as (Hlen & Hout & Hin).
    split; [rewrite Hlen; exact Hlen'|]. split.
    + intros p Hp. rewrite Hout by lia. rewrite Hpos.
      destruct (Nat.ltb_spec p (k0 * b)) as [_|Hge]; [reflexivity|].
      destruct (Nat.ltb_spec p (k0 * b + b)) as [Hlt|_]; [lia|reflexivity].
    + intros p a' Hp Hres.
      destruct (Nat.lt_ge_cases p ((k0 + 1) * b)) as [Hblock|Hlater].
      * rewrite Hout in Hres by lia. rewrite Hpos in Hres.
        destruct (Nat.ltb_spec p (k0 * b)) as [Hlt|_]; [lia|].
        destruct (Nat.ltb_spec p (k0 * b + b)) as [_|Hge]; [|lia].
        destruct (Hnth _ _ Hres) as (x & Hx & Hfx).
        destruct (block_position b k0 p ltac:(lia)) as [Hdiv Hmod].
        exists x, response, pw1. unfold slice. fold b.
        rewrite Hdiv, Hmod. split; [|split; [exact Hfetched|exact Hfx]].
        rewrite nth_error_firstn in Hx.
        destruct (Nat.ltb_spec (p - k0 * b) b) as [_|Hge]; [|lia].
        rewrite nth_error_skipn in Hx. rewrite <- Hx. f_equal. lia.
      * destruct (Hin p a' ltac:(lia) Hres)
          as (a & response' & q & Ha & Hf & He).
        exists a, response', q.
        rewrite Hpos in Ha.
        destruct (Nat.ltb_spec p (k0 * b)) as [Hlt|_]; [lia|].
        destruct (Nat.ltb_spec p (k0 * b + b)) as [Hlt|_]; [lia|].
        split; [exact Ha|]. split; [|exact He].
        unfold slice in *. fold b in Hf |- *.
        assert (Hblock : (k0 * b + b <= p / b * b)%nat).
        { assert (Hq : (k0 + 1 <= p / b)%nat)
            by (apply Nat.div_le_lower_bound; lia).
          nia. }
        rewrite (skipn_from _ _ _ _ Hskip Hblock) in Hf. exact Hf.
Qed.

Lemma batches_within (len b : nat) :
  (0 < b)%nat ->
  forall k, (k < 0 + (len + b - 1) / b)%nat -> (k * b < len)%nat.
Proof.
  intros Hb k Hk.
  destruct (Nat.lt_ge_cases (k * b) len) as [Hlt|Hge]; [exact Hlt|].
  exfalso.
  assert (Hdiv : ((len + b - 1) / b < k + 1)%nat).
  { apply Nat.Div0.div_lt_upper_bound. nia. }
  lia.
Qed.

Lemma batches_cover (len b : nat) :
  (0 < b)%nat -> (len <= (len + b - 1) / b * b)%nat.
Proof.
  intros Hb.
  pose proof (Nat.div_mod_eq (len + b - 1) b) as Hdm.
  pose proof (Nat.mod_upper_bound (len + b - 1) b ltac:(lia)) as Hmod.
  nia.
Qed.

End EnrichmentLoop.

(** X18. [process_spotify_response] with a batch size that is not positive
    never reaches Spotify: no token is asked for, no request is sent,
    nothing is slept.  With [batch_size = 0] the [range] call raises
    [ValueError], which is logged and raised again wrapped in [Exception];
    with a negative [batch_size] the loop has no iteration and the artists
    are returned as they came. *)
Theorem non_positive_batch_size_fetches_nothing
        (json_loads : string -> option json)
        (transport : nat -> Request -> Reply)
        (token_source : nat -> exn + string)
        (int_of_text : json -> PResult Z)
        (strftime_now : PWorld -> string)
        (artist_list : list json) (batch_size : Z) :
  batch_size <= 0 ->
  let run := process_spotify_response json_loads transport token_source
               int_of_text strftime_now artist_list batch_size pw0 in
  net_of (ptrace (snd run)) = []
  /\ pcalls (snd run) = O
  /\ fst run
     = if batch_size =? 0
       then Failed (Wrapped AsException "Error processing spotify response"
                            (Low ValueError))
       else Done artist_list.
Proof.
  intros Hbs run. subst run.
  unfold process_spotify_response, p_try_except, p_bind, logger_info, pure,
    batch_starts.
  destruct (Z.eqb_spec batch_size 0) as [->|Hne]; simpl.
  - repeat split.
  - destruct (Z.ltb_spec batch_size 0) as [_|Hge]; [|lia].
    simpl. repeat split.
Qed.

Lemma non_positive_batch_size_fetches_nothing_witness :
  let run := process_spotify_response stub_documents
               (always (ok_body "albums")) (fun _ => inr "T")
               (fun _ => Failed (Low ValueError)) (fun _ => "now")
               [stub_artist] (-50) pw0 in
  net_of (ptrace (snd run)) = []
  /\ pcalls (snd run) = O
  /\ fst run = Done [stub_artist].
Proof.
  apply (non_positive_batch_size_fetches_nothing
           stub_documents (always (ok_body "albums")) (fun _ => inr "T")
           (fun _ => Failed (Low ValueError)) (fun _ => "now")
           [stub_artist] (-50)).
  lia.
Defined.

(** X19. When [process_spotify_response] returns, the list has the length
    and order of the input, and the artist at each position is the input
    artist at that position, enriched from the entry at its index within
    its batch (its position modulo [batch_size]) of the document Spotify
    returned for the ids of that batch: ["spotify_url"],
    ["init_processed_at"], the followers and the popularity under
    ["metrics"]["spotify"] and the genres and images under
    ["spotify_meta"] are assigned from that entry, and every other entry
    of the artist (spotify_id, artist_name, ...) and of its ["metrics"] is
    as it was.  It returns only if every artist already had a
    ["metrics"] entry. *)
Theorem enriched_artists_keep_their_place_and_identity
        (json_loads : string -> option json)
        (transport : nat -> Request -> Reply)
        (token_source : nat -> exn + string)
        (int_of_text : json -> PResult Z)
        (strftime_now : PWorld -> string)
        (artist_list result : list json) (batch_size : Z) :
  0 < batch_size ->
  fst (process_spotify_response json_loads transport token_source
         int_of_text strftime_now artist_list batch_size pw0)
  = Done result ->
  List.length result = List.length artist_list
  /\ forall p artist',
      nth_error result p = Some artist' ->
      exists artist response artists entry q,
        nth_error artist_list p = Some artist
        /\ fetched_for json_loads transport
             (slice artist_list
                    (p / Z.to_nat batch_size * Z.to_nat batch_size)
                    batch_size)
             response
        /\ subscript response (Key "artists") = Done artists
        /\ subscript artists (At (Z.of_nat (p mod Z.to_nat batch_size)))
           = Done entry
        /\ enriched_from int_of_text entry (strftime_now q) artist artist'.
Proof.
  intros Hbs.
  unfold process_spotify_response, p_try_except.
  unfold p_bind at 1. unfold logger_info at 1.
  unfold p_bind at 1. unfold pure at 1. unfold batch_starts.
  destruct (Z.eqb_spec batch_size 0) as [->|_]; [lia|].
  destruct (Z.ltb_spec batch_size 0) as [Hneg|_]; [lia|].
  unfold p_bind at 1.
  match goal with
  | |- context [for_batches _ _ _ _ _ ?starts _ _ ?pw] =>
      destruct (for_batches json_loads transport token_source int_of_text
                  strftime_now starts batch_size artist_list pw)
        as [[res|e] pw1] eqn:Hloop
  end.
  2:{ destruct (is_pException e); simpl; intros H; discriminate H. }
  unfold p_bind, logger_info, p_ret. simpl. intros H. injection H as <-.
  apply for_batches_done in Hloop; [|exact Hbs].
  destruct Hloop as (Hlen & _ & Hin).
  split; [exact Hlen|].
  intros p artist' Hp.
  assert (Hrange : (p < List.length res)%nat).
  { apply nth_error_Some. rewrite Hp. discriminate. }
  pose proof (batches_cover (List.length artist_list)
                (Z.to_nat batch_size) ltac:(lia)) as Hcover.
  destruct (Hin p artist' ltac:(simpl; lia) Hp)
    as (artist & response & q & Ha & Hfetched & Henrich).
  destruct (enrich_from_entry int_of_text strftime_now _ _ _ _ _ Henrich)
    as (artists & entry & Hartists & Hentry & Hfrom).
  exists artist, response, artists, entry, q.
  repeat split; assumption.
Qed.

Lemma enriched_artists_keep_their_place_and_identity_witness :
  List.length [stub_enriched_artist "x1" "A" "u1";
               stub_enriched_artist "x2" "B" "u2";
               stub_enriched_artist "x3" "C" "u1"] = 3%nat
  /\ exists entry q,
      subscript (JList [stub_entry "u1"; stub_entry "u2"])
                (At (Z.of_nat (2 mod Z.to_nat 2))) = Done entry
      /\ enriched_from (fun _ => Failed (Low ValueError)) entry
           ((fun _ : PWorld => "now") q)
           (stub_listed_artist "x3" "C")
           (stub_enriched_artist "x3" "C" "u1").
Proof.
  destruct (enriched_artists_keep_their_place_and_identity
              stub_two_entries (always (ok_body "x")) (fun _ => inr "T")
              (fun _ => Failed (Low ValueError)) (fun _ => "now")
              [stub_listed_artist "x1" "A"; stub_listed_artist "x2" "B";
               stub_listed_artist "x3" "C"]
              [stub_enriched_artist "x1" "A" "u1";
               stub_enriched_artist "x2" "B" "u2";
               stub_enriched_artist "x3" "C" "u1"]
              2 ltac:(lia) eq_refl)
    as [Hlen Hall].
  split; [exact Hlen|].
  destruct (Hall 2%nat (stub_enriched_artist "x3" "C" "u1") eq_refl)
    as (artist & response & artists & entry & q & Ha & Hf & Hr & He & Hfrom).
  injection Ha as <-.
  destruct Hf as (ids & tok & c & _ & Hreply).
  vm_compute in Hreply. injection Hreply as <-.
  vm_compute in Hr. injection Hr as <-.
  exists entry, q. split; [exact He|exact Hfrom].
Defined.

(** ** Requests and tokens of the enrichment stage *)

Section EnrichmentBatches.

Variable json_loads : string -> option json.
Variable transport : nat -> Request -> Reply.
Variable token_source : nat -> exn + string.
Variable int_of_text : json -> PResult Z.
Variable strftime_now : PWorld -> string.

Lemma map_enumerate_pure {B} (f : nat -> json -> P B) :
  (forall i x pw, snd (f i x pw) = pw) ->
  forall xs i pw, snd (map_enumerate f i xs pw) = pw.
Proof.
  intros Hpure. induction xs as [|x xs IH]; intros i pw; [reflexivity|].
  simpl. unfold p_bind.
  pose proof (Hpure i x pw) as Hx.
  destruct (f i x pw) as [[y|e] pw1]; simpl in Hx; subst pw1;
    [|reflexivity].
  pose proof (IH (S i) pw) as Hrest.
  destruct (map_enumerate f (S i) xs pw) as [[ys|e] pw2];
    simpl in Hrest; subst pw2; reflexivity.
Qed.

(** The outer loop asks for one token per batch it starts, and sends only
    requests for the ids of a batch of the list it was given: the artists
    of a batch are still as they came when their batch is fetched. *)
Lemma for_batches_trace (batch_size : Z) (orig : list json) (n : nat) :
  0 < batch_size ->
  forall (k0 : nat) (cur : list json) (pw : PWorld),
    skipn (k0 * Z.to_nat batch_size) cur
    = skipn (k0 * Z.to_nat batch_size) orig ->
    (forall k, (k < k0 + n)%nat ->
               (k * Z.to_nat batch_size < List.length orig)%nat) ->
    exists evs,
      ptrace (snd (for_batches json_loads transport token_source int_of_text
                     strftime_now
                     (map (fun k => (k * Z.to_nat batch_size)%nat)
                          (seq k0 n))
                     batch_size cur pw))
      = ptrace pw ++ evs
      /\ Forall (batch_request orig batch_size) (requests_of (net_of evs))
      /\ (token_calls_of (net_of evs) <= n)%nat
      /\ (forall res,
             fst (for_batches json_loads transport token_source int_of_text
                    strftime_now
                    (map (fun k => (k * Z.to_nat batch_size)%nat)
                         (seq k0 n))
                    batch_size cur pw)
             = Done res ->
             token_calls_of (net_of evs) = n).
Proof.
  intros Hbs. set (b := Z.to_nat batch_size).
  induction n as [|n IH]; intros k0 cur pw Hcur Hin.
  - exists []. simpl. rewrite app_nil_r.
    split; [reflexivity|]. split; [constructor|]. split; [lia|reflexivity].
  - remember (for_batches json_loads transport token_source int_of_text
                strftime_now
                (map (fun k => (k * b)%nat) (seq k0 (S n)))
                batch_size cur pw) as run eqn:Hrun.
    simpl for_batches in Hrun.
    unfold p_bind at 1 in Hrun. unfold fetch_batch in Hrun.
    unfold lift at 1 in Hrun.
    set (outcome := token_source (token_calls_of (net_of (ptrace pw))))
      in Hrun.
    set (batch := slice cur (k0 * b) batch_size) in Hrun.
    assert (Hbatch : batch = slice orig (k0 * b) batch_size).
    { unfold batch, slice. rewrite Hcur. reflexivity. }
    destruct (artists_run_from json_loads transport (pcalls pw) outcome
                (map as_artist batch))
      as (evs0 & Ht0 & Htok0 & Hreq0).
    assert (Hsmall : Forall (batch_request orig batch_size)
                            (requests_of evs0)).
    { eapply Forall_impl; [|exact Hreq0].
      intros req (ids & tok & Hids & ->). exists k0, ids, tok.
      fold b. rewrite <- Hbatch.
      pose proof (Hin k0 ltac:(lia)) as Hk0. fold b in Hk0.
      split; [exact Hk0|]. split; [exact Hids|]. split; [|reflexivity].
      rewrite (all_str_length _ _ Hids), !length_map.
      unfold batch, slice. rewrite Hcur, length_firstn, length_skipn.
      subst b. lia. }
    destruct (get_artist_spotify json_loads transport outcome
                (map as_artist batch) 3 1 (mkWorld (pcalls pw) [] None))
      as [[response|e] w].
    2:{ simpl in Ht0. subst run. cbn [fst snd ptrace].
        exists (map Net (trace w)).
        rewrite Ht0, net_of_map_Net. cbn [requests_of token_calls_of].
        split; [reflexivity|]. split; [exact Hsmall|].
        rewrite Htok0. split; [simpl; lia|]. intros res H. discriminate H. }
    simpl in Ht0.
    unfold p_bind at 1 in Hrun.
    match type of Hrun with
    | context [map_enumerate ?f 0 batch ?q] =>
        pose proof (map_enumerate_pure f
                      (fun j x q' => enrich_pure int_of_text strftime_now
                                       response x j q')
                      batch 0%nat q) as Hpure;
        pose proof (map_enumerate_nth f
                      (fun j x q' => enrich_pure int_of_text strftime_now
                                       response x j q')
                      batch 0%nat q) as Hnth;
        destruct (map_enumerate f 0 batch q) as [[updated|e] pw2]
    end; simpl in Hpure; subst pw2.
    2:{ subst run. cbn [fst snd ptrace].
        exists (map Net (trace w)).
        rewrite Ht0, net_of_map_Net. cbn [requests_of token_calls_of].
        split; [reflexivity|]. split; [exact Hsmall|].
        rewrite Htok0. split; [simpl; lia|]. intros res H. discriminate H. }
    destruct (Hnth updated _ eq_refl) as (_ & Hsame & _). clear Hnth.
    unfold p_bind at 1 in Hrun. rewrite lift_sleep_1 in Hrun.
    assert (Hnext : skipn (S k0 * b)
                      (firstn (k0 * b) cur ++ updated
                         ++ skipn (k0 * b + List.length batch) cur)
                    = skipn (S k0 * b) orig).
    { unfold batch, slice in Hsame |- *. fold b in Hsame |- *.
      destruct (replace_slice cur updated (k0 * b) b Hsame)
        as (_ & Hskip & _).
      cbv zeta in Hskip.
      replace (S k0 * b)%nat with (k0 * b + b)%nat by lia.
      rewrite Hskip.
      apply (skipn_from _ _ (k0 * b)); [exact Hcur|lia]. }
    match type of Hrun with
    | context [for_batches _ _ _ _ _ _ batch_size ?cur' ?pw'] =>
        destruct (IH (S k0) cur' pw' Hnext
                    ltac:(intros k Hk; apply Hin; lia))
          as (evs & Ht & Hreq & Hle & Hdone);
        exists (map Net (trace w) ++ [Net (Sleep 1)] ++ evs);
        destruct (for_batches json_loads transport token_source int_of_text
                    strftime_now
                    (map (fun k => (k * b)%nat) (seq (S k0) n))
                    batch_size cur' pw') as [out pw3]
    end.
    subst run. cbn [fst snd] in *.
    split.
    { rewrite Ht. simpl. rewrite <- !app_assoc. reflexivity. }
    rewrite !net_of_app, net_of_map_Net, Ht0.
    rewrite !requests_of_app, !token_calls_of_app.
    cbn [requests_of token_calls_of net_of app].
    rewrite Htok0.
    split; [apply Forall_app; split; assumption|].
    split; [simpl; lia|]. intros res Hres. rewrite (Hdone res Hres).
    reflexivity.
Qed.

End EnrichmentBatches.

(** X20. [process_spotify_response] asks Spotify for at most [batch_size]
    artists per request (50 by default, the limit of the endpoint): every
    request it sends is the request for one batch of the list, carrying
    the ids of the artists at positions [k * batch_size] up to
    [(k + 1) * batch_size] for some [k] within the list, joined by commas:
    at least one id and at most [batch_size] of them.  It asks for a
    new token for every batch: never more tokens than there are batches,
    and exactly one per batch when it returns. *)
Theorem enrichment_requests_stay_within_the_batch_size
        (json_loads : string -> option json)
        (transport : nat -> Request -> Reply)
        (token_source : nat -> exn + string)
        (int_of_text : json -> PResult Z)
        (strftime_now : PWorld -> string)
        (artist_list : list json) (batch_size : Z) :
  0 < batch_size ->
  let run := process_spotify_response json_loads transport token_source
               int_of_text strftime_now artist_list batch_size pw0 in
  let batches := ((List.length artist_list + Z.to_nat batch_size - 1)
                    / Z.to_nat batch_size)%nat in
  Forall (batch_request artist_list batch_size) (p_requests (snd run))
  /\ (token_calls_of (net_of (ptrace (snd run))) <= batches)%nat
  /\ (forall result,
         fst run = Done result ->
         token_calls_of (net_of (ptrace (snd run))) = batches).
Proof.
  intros Hbs run batches. subst batches. unfold p_requests.
  assert (Hrun : run = process_spotify_response json_loads transport
                         token_source int_of_text strftime_now artist_list
                         batch_size pw0) by reflexivity.
  clearbody run.
  unfold process_spotify_response, p_try_except in Hrun.
  unfold p_bind at 1 in Hrun. unfold logger_info at 1 in Hrun.
  unfold p_bind at 1 in Hrun. unfold pure at 1 in Hrun.
  unfold batch_starts in Hrun.
  destruct (Z.eqb_spec batch_size 0) as [->|_]; [lia|].
  destruct (Z.ltb_spec batch_size 0) as [Hneg|_]; [lia|].
  unfold p_bind at 1 in Hrun.
  match type of Hrun with
  | context [for_batches _ _ _ _ _ (map _ (seq 0 ?n)) _ _ ?pw] =>
      destruct (for_batches_trace json_loads transport token_source
                  int_of_text strftime_now batch_size artist_list n Hbs
                  0%nat artist_list pw eq_refl
                  (batches_within (List.length artist_list)
                     (Z.to_nat batch_size) ltac:(lia)))
        as (evs & Ht & Hreq & Hle & Hdone);
      destruct (for_batches json_loads transport token_source int_of_text
                  strftime_now
                  (map (fun k => (k * Z.to_nat batch_size)%nat) (seq 0 n))
                  batch_size artist_list pw)
        as [[res|e] pw1]
  end; cbn [fst snd ptrace app] in Ht.
  - unfold p_bind, logger_info, p_ret in Hrun. cbn [fst snd] in Hrun.
    subst run. cbn [fst snd ptrace]. rewrite Ht.
    change (LogInfo ?t :: evs) with ([LogInfo t] ++ evs).
    rewrite !net_of_app, !requests_of_app, !token_calls_of_app.
    cbn [net_of requests_of token_calls_of app Nat.add].
    rewrite !app_nil_r, !Nat.add_0_r.
    split; [exact Hreq|]. split; [exact Hle|].
    intros result _. exact (Hdone res eq_refl).
  - destruct (is_pException e);
      unfold p_bind, logger_failure, p_raise in Hrun;
      cbn [fst snd] in Hrun; subst run; cbn [fst snd ptrace]; rewrite Ht;
      change (LogInfo ?t :: evs) with ([LogInfo t] ++ evs);
      rewrite ?net_of_app, ?requests_of_app, ?token_calls_of_app;
      cbn [net_of requests_of token_calls_of app Nat.add];
      rewrite ?app_nil_r, ?Nat.add_0_r;
      (split; [exact Hreq|]); (split; [exact Hle|]);
      intros result H; discriminate H.
Qed.

Lemma enrichment_requests_stay_within_the_batch_size_witness :
  let run := process_spotify_response stub_two_entries
               (always (ok_body "x")) (fun _ => inr "T")
               (fun _ => Failed (Low ValueError)) (fun _ => "now")
               [stub_listed_artist "x1" "A"; stub_listed_artist "x2" "B";
                stub_listed_artist "x3" "C"] 2 pw0 in
  Forall (batch_request
            [stub_listed_artist "x1" "A"; stub_listed_artist "x2" "B";
             stub_listed_artist "x3" "C"] 2)
         (p_requests (snd run))
  /\ (token_calls_of (net_of (ptrace (snd run))) <= 2)%nat.
Proof.
  destruct (enrichment_requests_stay_within_the_batch_size
              stub_two_entries (always (ok_body "x")) (fun _ => inr "T")
              (fun _ => Failed (Low ValueError)) (fun _ => "now")
              [stub_listed_artist "x1" "A"; stub_listed_artist "x2" "B";
               stub_listed_artist "x3" "C"] 2 ltac:(lia))
    as (Hreq & Htok & _).
  split; [exact Hreq|exact Htok].
Defined.

(** ** The albums pipeline *)

Lemma uploads_of_app (t1 t2 : list PEvent) :
  uploads_of (t1 ++ t2) = uploads_of t1 ++ uploads_of t2.
Proof.
  induction t1 as [|ev t1 IH]; simpl; [reflexivity|].
  destruct ev; simpl; rewrite IH; reflexivity.
Qed.

Lemma uploads_of_map_Net (t : list Event) : uploads_of (map Net t) = [].
Proof.
  induction t as [|ev t IH]; simpl; [reflexivity|exact IH].
Qed.

Lemma adds_only_refl (ok : Request -> Prop) (t : list PEvent) :
  adds_only ok t t.
Proof.
  exists []. rewrite app_nil_r. repeat split; constructor.
Qed.

Lemma adds_only_trans (ok : Request -> Prop) (t1 t2 t3 : list PEvent) :
  adds_only ok t1 t2 -> adds_only ok t2 t3 -> adds_only ok t1 t3.
Proof.
  intros (e1 & -> & Hk1 & Hu1 & Hr1) (e2 & -> & Hk2 & Hu2 & Hr2).
  exists (e1 ++ e2). rewrite app_assoc. split; [reflexivity|].
  rewrite net_of_app, token_calls_of_app, uploads_of_app, requests_of_app.
  rewrite Hk1, Hk2, Hu1, Hu2. repeat split.
  apply Forall_app. split; assumption.
Qed.

Lemma adds_only_log_info (ok : Request -> Prop) (t : list PEvent)
      (text : string) :
  adds_only ok t (t ++ [LogInfo text]).
Proof.
  exists [LogInfo text]. repeat split. constructor.
Qed.

Lemma adds_only_log_failure (ok : Request -> Prop) (t : list PEvent)
      (text : string) (e : perr) :
  adds_only ok t (t ++ [LogFailure text e]).
Proof.
  exists [LogFailure text e]. repeat split. constructor.
Qed.

Section PipelineTrace.

Variable json_loads : string -> option json.
Variable transport : nat -> Request -> Reply.
Variable py_repr : json -> string.

(** One call of [get_albums_from_spotify], wherever the transport stands:
    no token is asked for and every request is the one for this artist. *)
Lemma albums_run_from (c : nat) (id tok : string) :
  token_calls_of
    (trace (snd (get_albums_from_spotify json_loads transport id tok 3 1
                   (mkWorld c [] None)))) = O
  /\ Forall (fun req => req = albums_request id tok)
            (requests_of
               (trace (snd (get_albums_from_spotify json_loads transport id
                              tok 3 1 (mkWorld c [] None))))).
Proof.
  rewrite albums_shape. split.
  - destruct (retrying_sleeps
                (attempt json_loads transport (albums_request id tok))
                "Error getting artist's metadata from spotify api"
                (albums_after 3) 1
                (quiet_attempt _ _ _) (attempt_never_falls_through _ _ _)
                (quiet_albums_after 3) (Z.to_nat 3) 0%nat
                (mkWorld c [] None))
      as (m & evs & _ & Ht & _ & Htok).
    change (map Z.of_nat (seq 0 (Z.to_nat 3))) with (range 3) in Ht.
    rewrite Ht. exact Htok.
  - destruct (fetch_run_summary json_loads transport
                (albums_request id tok)
                "Error getting artist's metadata from spotify api"
                (albums_after 3) 3 1 (mkWorld c [] None)
                eq_refl (albums_after_raises 3))
      as (m' & r & _ & _ & _ & Hreq & _).
    rewrite Hreq. simpl. apply Forall_forall. intros req Hin.
    apply repeat_spec in Hin. exact Hin.
Qed.

Lemma adds_only_lift_albums (ok : Request -> Prop) (id tok : string)
      (pw : PWorld) :
  ok (albums_request id tok) ->
  adds_only ok (ptrace pw)
    (ptrace (snd (lift (get_albums_from_spotify json_loads transport id tok
                          3 1) pw))).
Proof.
  intros Hok. unfold lift.
  destruct (albums_run_from (pcalls pw) id tok) as [Htok Hreq].
  destruct (get_albums_from_spotify json_loads transport id tok 3 1
              (mkWorld (pcalls pw) [] None)) as [r w].
  cbn [fst snd ptrace trace] in *.
  exists (map Net (trace w)). split; [reflexivity|].
  rewrite net_of_map_Net, uploads_of_map_Net.
  split; [exact Htok|]. split; [reflexivity|].
  eapply Forall_impl; [|exact Hreq]. intros req ->. exact Hok.
Qed.

(** [process_albums_from_spotify] asks for no token and writes nothing; its
    requests are those for the albums of this artist. *)
Lemma process_albums_trace (artist : json) (token : string) (pw : PWorld) :
  adds_only
    (fun req =>
       exists id,
         subscript artist (Key "spotify_id") = Done id
         /\ req = albums_request (py_str py_repr id) token)
    (ptrace pw)
    (ptrace (snd (process_albums_from_spotify json_loads transport py_repr
                    artist token pw))).
Proof.
  set (ok := fun req => exists id, _).
  unfold process_albums_from_spotify, p_try_except.
  unfold p_bind at 1. unfold pure at 1.
  destruct (subscript artist (Key "spotify_id")) as [id|e] eqn:Hid.
  2:{ rewrite (subscript_is_exception _ _ _ Hid).
      apply adds_only_log_failure. }
  unfold p_bind at 1.
  assert (Hfetch : adds_only ok (ptrace pw)
                     (ptrace (snd (lift (get_albums_from_spotify json_loads
                                           transport (py_str py_repr id)
                                           token 3 1) pw)))).
  { apply adds_only_lift_albums. exists id. split; reflexivity. }
  destruct (lift (get_albums_from_spotify json_loads transport
                    (py_str py_repr id) token 3 1) pw)
    as [[response|e] pw1]; cbn [fst snd] in Hfetch.
  2:{ destruct (is_pException e); cbn [fst snd ptrace]; [|exact Hfetch].
      eapply adds_only_trans; [exact Hfetch|].
      apply adds_only_log_failure. }
  apply (adds_only_trans ok _ _ _ Hfetch).
  unfold p_bind at 1. unfold pure at 1.
  destruct (subscript response (Key "items")) as [items_value|e] eqn:Hitems.
  2:{ rewrite (subscript_is_exception _ _ _ Hitems).
      apply adds_only_log_failure. }
  unfold p_bind at 1. unfold pure at 1.
  destruct (elements items_value) as [items|e] eqn:Helems.
  2:{ rewrite (elements_is_exception _ _ Helems).
      apply adds_only_log_failure. }
  unfold p_bind at 1.
  match goal with
  | |- context [map_each ?f items ?q] =>
      pose proof (map_each_pure f
                    (fun x q' => individual_album_pure x artist q')
                    items q) as Hpure;
      destruct (map_each f items q) as [[albums|e] pw2]
  end; simpl in Hpure; subst pw2.
  2:{ destruct (is_pException e); cbn [fst snd ptrace];
        [apply adds_only_log_failure|apply adds_only_refl]. }
  unfold p_bind at 1. unfold pure at 1.
  destruct (subscript artist (Key "artist_name")) as [artist_name|e]
    eqn:Hname.
  2:{ rewrite (subscript_is_exception _ _ _ Hname).
      apply adds_only_log_failure. }
  apply adds_only_log_info.
Qed.

End PipelineTrace.

Section PipelineLoop.

Variable json_loads : string -> option json.
Variable transport : nat -> Request -> Reply.
Variable py_repr : json -> string.
Variable token_outcome : exn + string.
Variable client_failure : option exn.
Variable json_dumps : json -> string.
Variable gcs : nat -> string -> string -> string -> option exn.

Lemma albums_blob_name_run (base_blob_name : string) (artist : json)
      (pw : PWorld) :
  albums_blob_name py_repr base_blob_name artist pw
  = (match subscript artist (Key "spotify_id") with
     | Done id =>
         match subscript artist (Key "artist_name") with
         | Done name =>
             Done (base_blob_name ++ "/" ++ py_str py_repr id ++ "_"
                     ++ py_str py_repr name ++ "/albums.json")%string
         | Failed e => Failed e
         end
     | Failed e => Failed e
     end, pw).
Proof.
  unfold albums_blob_name, p_bind, pure, p_ret.
  destruct (subscript artist (Key "spotify_id")); [|reflexivity].
  destruct (subscript artist (Key "artist_name")); reflexivity.
Qed.

(** The loop of [write_albums_to_gcs]: it uploads for the artists of a
    prefix of the list, in order, and stops at the first artist that
    fails. *)
Lemma write_albums_loop (bucket_name base_blob_name token : string)
      (artists : list json) :
  forall pw : PWorld,
  exists (k : nat) (evs : list PEvent),
    ptrace (snd (for_all (write_albums_of json_loads transport py_repr
                            json_dumps gcs bucket_name base_blob_name token)
                   artists pw))
    = ptrace pw ++ evs
    /\ token_calls_of (net_of evs) = O
    /\ (k <= List.length artists)%nat
    /\ Forall2 (albums_upload_of json_loads transport py_repr json_dumps
                  bucket_name base_blob_name token)
               (firstn k artists) (uploads_of evs)
    /\ (fst (for_all (write_albums_of json_loads transport py_repr
                        json_dumps gcs bucket_name base_blob_name token)
               artists pw) = Done tt ->
        k = List.length artists)
    /\ Forall (albums_request_of py_repr token (firstn (S k) artists))
              (requests_of (net_of evs)).
Proof.
  induction artists as [|a rest IH]; intros pw.
  - exists 0%nat, []. simpl. rewrite app_nil_r.
    repeat split; constructor.
  - remember (for_all (write_albums_of json_loads transport py_repr
                         json_dumps gcs bucket_name base_blob_name token)
                (a :: rest) pw) as run eqn:Hrun.
    simpl for_all in Hrun. unfold p_bind at 1 in Hrun.
    unfold write_albums_of at 1 in Hrun. unfold p_bind at 1 in Hrun.
    rewrite albums_blob_name_run in Hrun.
    destruct (subscript a (Key "spotify_id")) as [id|e] eqn:Hid.
    2:{ subst run. exists 0%nat, []. cbn [fst snd]. rewrite app_nil_r.
        repeat split; try constructor; try lia. intros H. discriminate H. }
    destruct (subscript a (Key "artist_name")) as [name|e] eqn:Hname.
    2:{ subst run. exists 0%nat, []. cbn [fst snd]. rewrite app_nil_r.
        repeat split; try constructor; try lia. intros H. discriminate H. }
    unfold p_bind at 1 in Hrun.
    destruct (process_albums_trace json_loads transport py_repr a token pw)
      as (evs0 & Ht0 & Hk0 & Hu0 & Hr0).
    assert (Hreq0 : Forall (albums_request_of py_repr token [a])
                           (requests_of (net_of evs0))).
    { eapply Forall_impl; [|exact Hr0].
      intros req (id' & Hid' & ->). exists a, id'.
      split; [left; reflexivity|]. split; [exact Hid'|reflexivity]. }
    destruct (process_albums_from_spotify json_loads transport py_repr a
                token pw) as [[albums|e] pw1] eqn:Hstage.
    2:{ subst run. cbn [fst snd] in *. exists 0%nat, evs0.
        split; [exact Ht0|]. split; [exact Hk0|]. split; [simpl; lia|].
        split; [rewrite Hu0; constructor|].
        split; [intros H; discriminate H|exact Hreq0]. }
    cbn [fst snd] in Ht0.
    unfold upload_from_string at 1 in Hrun.
    destruct (gcs (List.length (uploads_of (ptrace pw1))) bucket_name
                (base_blob_name ++ "/" ++ py_str py_repr id ++ "_"
                   ++ py_str py_repr name ++ "/albums.json")%string
                (json_dumps (JList albums))) as [e|].
    { subst run. cbn [fst snd] in *. exists 0%nat, evs0.
      split; [exact Ht0|]. split; [exact Hk0|]. split; [simpl; lia|].
      split; [rewrite Hu0; constructor|].
      split; [intros H; discriminate H|exact Hreq0]. }
    match type of Hrun with
    | context [for_all _ rest ?q] =>
        destruct (IH q) as (k & evs & Ht & Hk & Hle & Hup & Hdone & Hreq);
        destruct (for_all (write_albums_of json_loads transport py_repr
                             json_dumps gcs bucket_name base_blob_name
                             token) rest q) as [r pw3]
    end.
    subst run. cbn [fst snd ptrace] in *.
    exists (S k),
      (evs0 ++ [Upload bucket_name
                  (base_blob_name ++ "/" ++ py_str py_repr id ++ "_"
                     ++ py_str py_repr name ++ "/albums.json")%string
                  (json_dumps (JList albums))] ++ evs).
    split.
    { rewrite Ht, Ht0. rewrite <- !app_assoc. reflexivity. }
    rewrite !net_of_app, !token_calls_of_app, !uploads_of_app,
      !requests_of_app.
    cbn [net_of token_calls_of uploads_of requests_of app Nat.add].
    rewrite Hk0, Hk, Hu0.
    split; [reflexivity|]. split; [simpl; lia|].
    split.
    { cbn [firstn app]. constructor; [|exact Hup].
      exists id, name, albums, pw. rewrite Hstage.
      repeat split; assumption. }
    split.
    { intros H. rewrite (Hdone H). reflexivity. }
    apply Forall_app. split.
    + eapply Forall_impl; [|exact Hreq0].
      intros req (a' & id' & Hin & Hid' & ->). exists a', id'.
      destruct Hin as [<-|[]].
      split; [left; reflexivity|]. split; [exact Hid'|reflexivity].
    + eapply Forall_impl; [|exact Hreq].
      intros req (a' & id' & Hin & Hid' & ->). exists a', id'.
      split; [right; exact Hin|]. split; [exact Hid'|reflexivity].
Qed.

(** A run of [write_albums_to_gcs]: the token is asked for first and once,
    and what follows is the loop, if it is reached. *)
Lemma write_albums_run (bucket_name base_blob_name : string)
      (artists : list json) :
  exists (k : nat) (evs : list PEvent),
    ptrace (snd (write_albums_to_gcs json_loads transport py_repr
                   token_outcome client_failure json_dumps gcs bucket_name
                   base_blob_name artists pw0))
    = Net TokenCall :: evs
    /\ token_calls_of (net_of evs) = O
    /\ (k <= List.length artists)%nat
    /\ (forall token, token_outcome = inr token ->
          Forall2 (albums_upload_of json_loads transport py_repr json_dumps
                     bucket_name base_blob_name token)
                  (firstn k artists) (uploads_of evs)
          /\ Forall (albums_request_of py_repr token (firstn (S k) artists))
                    (requests_of (net_of evs)))
    /\ (fst (write_albums_to_gcs json_loads transport py_repr
               token_outcome client_failure json_dumps gcs bucket_name
               base_blob_name artists pw0) = Done tt ->
        k = List.length artists /\ client_failure = None
        /\ exists token, token_outcome = inr token)
    /\ ((forall token, token_outcome <> inr token)
        \/ client_failure <> None ->
        uploads_of evs = [] /\ requests_of (net_of evs) = []).
Proof.
  remember (write_albums_to_gcs json_loads transport py_repr token_outcome
              client_failure json_dumps gcs bucket_name base_blob_name
              artists pw0) as run eqn:Hrun.
  unfold write_albums_to_gcs, p_try_except in Hrun.
  unfold p_bind at 1 in Hrun.
  unfold lift, get_spotify_access_token in Hrun.
  destruct token_outcome as [e|token].
  { cbn in Hrun. exists 0%nat.
    destruct (is_Exception e); subst run; cbn [fst snd ptrace];
      eexists; (split; [reflexivity|]); cbn;
      (split; [reflexivity|]); (split; [lia|]);
      (split; [intros token H; discriminate H|]);
      (split; [intros H; discriminate H|]);
      intros _; split; reflexivity. }
  cbn [fst snd emit trace calls pcalls ptrace pw0 map app] in Hrun.
  unfold p_bind at 1 in Hrun. unfold storage_client at 1 in Hrun.
  destruct client_failure as [e|].
  { exists 0%nat.
    destruct (is_Exception e) eqn:Hexc; cbn in Hrun; rewrite ?Hexc in Hrun;
      subst run; cbn [fst snd ptrace];
      eexists; (split; [reflexivity|]); cbn;
      (split; [reflexivity|]); (split; [lia|]);
      (split; [intros token' _; split; constructor|]);
      (split; [intros H; discriminate H|]);
      intros _; split; reflexivity. }
  unfold p_bind at 1 in Hrun.
  match type of Hrun with
  | context [for_all _ artists ?q] =>
      destruct (write_albums_loop bucket_name base_blob_name token artists q)
        as (k & evs & Ht & Hk & Hle & Hup & Hdone & Hreq);
      destruct (for_all (write_albums_of json_loads transport py_repr
                           json_dumps gcs bucket_name base_blob_name token)
                  artists q) as [[[]|e] pw1]
  end; cbn [fst snd ptrace app] in *.
  - unfold logger_info in Hrun. subst run. cbn [fst snd ptrace].
    exists k, (evs ++ [LogInfo ("Successfully wrote albums for "
                                 ++ str_of_nat (List.length artists)
                                 ++ " artists to gcs bucket " ++ bucket_name
                                 ++ " with base blob name "
                                 ++ base_blob_name)%string]).
    split; [rewrite Ht; reflexivity|].
    rewrite net_of_app, token_calls_of_app, uploads_of_app, requests_of_app.
    cbn [net_of token_calls_of uploads_of requests_of].
    rewrite !app_nil_r, Nat.add_0_r.
    split; [exact Hk|]. split; [exact Hle|].
    split.
    { intros token' H. injection H as <-. split; assumption. }
    split.
    { intros _. split; [exact (Hdone eq_refl)|].
      split; [reflexivity|]. exists token. reflexivity. }
    intros [H|H]; [exfalso; exact (H token eq_refl)|].
    exfalso. apply H. reflexivity.
  - unfold p_bind, logger_failure, p_raise in Hrun.
    destruct (is_pException e); subst run; cbn [fst snd ptrace].
    + eexists k, (evs ++ [LogFailure _ e]).
      split; [rewrite Ht; rewrite app_comm_cons; reflexivity|].
      rewrite net_of_app, token_calls_of_app, uploads_of_app,
        requests_of_app.
      cbn [net_of token_calls_of uploads_of requests_of].
      rewrite !app_nil_r, Nat.add_0_r.
      split; [exact Hk|]. split; [exact Hle|].
      split.
      { intros token' H. injection H as <-. split; assumption. }
      split; [intros H; discriminate H|].
      intros [H|H]; [exfalso; exact (H token eq_refl)|].
      exfalso. apply H. reflexivity.
    + exists k, evs.
      split; [exact Ht|].
      split; [exact Hk|]. split; [exact Hle|].
      split.
      { intros token' H. injection H as <-. split; assumption. }
      split; [intros H; discriminate H|].
      intros [H|H]; [exfalso; exact (H token eq_refl)|].
      exfalso. apply H. reflexivity.
Qed.

End PipelineLoop.

(** X21. [write_albums_to_gcs] asks for one Spotify token per run, before
    anything else, and uses it for every artist: whatever the number of
    artists and however the run ends, the token service is called exactly
    once. *)
Theorem albums_pipeline_asks_for_one_token
        (json_loads : string -> option json)
        (transport : nat -> Request -> Reply) (py_repr : json -> string)
        (token_outcome : exn + string) (client_failure : option exn)
        (json_dumps : json -> string)
        (gcs : nat -> string -> string -> string -> option exn)
        (bucket_name base_blob_name : string) (artists : list json) :
  let run := write_albums_to_gcs json_loads transport py_repr token_outcome
               client_failure json_dumps gcs bucket_name base_blob_name
               artists pw0 in
  token_calls_of (net_of (ptrace (snd run))) = 1%nat
  /\ exists rest, ptrace (snd run) = Net TokenCall :: rest.
Proof.
  intros run. subst run.
  destruct (write_albums_run json_loads transport py_repr token_outcome
              client_failure json_dumps gcs bucket_name base_blob_name
              artists) as (k & evs & Ht & Hk & _).
  rewrite Ht. cbn [net_of token_calls_of]. rewrite Hk.
  split; [reflexivity|]. exists evs. reflexivity.
Qed.

(** X22. [write_albums_to_gcs] writes artist by artist, in the order of the
    list: the blobs uploaded by a run are those of the first [k] artists,
    each under [base/<id>_<name>/albums.json] and holding the albums the
    processing stage returned for that artist; only the artists up to the
    one after them are requested from Spotify; and [k] is the whole list
    when the run returns. *)
Theorem albums_are_uploaded_artist_by_artist
        (json_loads : string -> option json)
        (transport : nat -> Request -> Reply) (py_repr : json -> string)
        (token : string) (client_failure : option exn)
        (json_dumps : json -> string)
        (gcs : nat -> string -> string -> string -> option exn)
        (bucket_name base_blob_name : string) (artists : list json) :
  let run := write_albums_to_gcs json_loads transport py_repr (inr token)
               client_failure json_dumps gcs bucket_name base_blob_name
               artists pw0 in
  exists k : nat,
    (k <= List.length artists)%nat
    /\ Forall2 (albums_upload_of json_loads transport py_repr json_dumps
                  bucket_name base_blob_name token)
               (firstn k artists) (uploads_of (ptrace (snd run)))
    /\ Forall (albums_request_of py_repr token (firstn (S k) artists))
              (p_requests (snd run))
    /\ (fst run = Done tt -> k = List.length artists).
Proof.
  intros run. subst run. unfold p_requests.
  destruct (write_albums_run json_loads transport py_repr (inr token)
              client_failure json_dumps gcs bucket_name base_blob_name
              artists) as (k & evs & Ht & _ & Hle & Hup & Hdone & _).
  destruct (Hup token eq_refl) as [Hups Hreqs].
  exists k. rewrite Ht. cbn [uploads_of net_of requests_of].
  split; [exact Hle|]. split; [exact Hups|]. split; [exact Hreqs|].
  intros H. destruct (Hdone H) as [Hk _]. exact Hk.
Qed.

(** X23. Without a token or without a storage client [write_albums_to_gcs]
    does nothing: no request is sent to Spotify, nothing is uploaded, and
    the call raises. *)
Theorem no_token_or_no_client_writes_nothing
        (json_loads : string -> option json)
        (transport : nat -> Request -> Reply) (py_repr : json -> string)
        (token_outcome : exn + string) (client_failure : option exn)
        (json_dumps : json -> string)
        (gcs : nat -> string -> string -> string -> option exn)
        (bucket_name base_blob_name : string) (artists : list json) :
  (exists e, token_outcome = inl e) \/ (exists e, client_failure = Some e) ->
  let run := write_albums_to_gcs json_loads transport py_repr token_outcome
               client_failure json_dumps gcs bucket_name base_blob_name
               artists pw0 in
  p_requests (snd run) = []
  /\ uploads_of (ptrace (snd run)) = []
  /\ exists e, fst run = Failed e.
Proof.
  intros Hbad run. subst run. unfold p_requests.
  destruct (write_albums_run json_loads transport py_repr token_outcome
              client_failure json_dumps gcs bucket_name base_blob_name
              artists) as (k & evs & Ht & _ & _ & _ & Hdone & Hnone).
  assert (Hcase : (forall token, token_outcome <> inr token)
                  \/ client_failure <> None).
  { destruct Hbad as [[e ->]|[e ->]];
      [left; intros token H|right; intros H]; discriminate H. }
  destruct (Hnone Hcase) as [Hu Hr].
  rewrite Ht. cbn [uploads_of net_of requests_of].
  split; [exact Hr|]. split; [exact Hu|].
  destruct (fst (write_albums_to_gcs json_loads transport py_repr
                   token_outcome client_failure json_dumps gcs bucket_name
                   base_blob_name artists pw0)) as [[]|e] eqn:Hres.
  - exfalso. destruct (Hdone eq_refl) as (_ & Hclient & token & Htoken).
    destruct Hcase as [H|H]; [exact (H token Htoken)|exact (H Hclient)].
  - exists e. reflexivity.
Qed.

Lemma no_token_or_no_client_writes_nothing_witness :
  let run := write_albums_to_gcs stub_documents (always (ok_body "albums"))
               stub_repr (inr "T") (Some (Exception_ (FailedAfter "creds" 0)))
               stub_dumps stub_gcs "bucket" "base" [stub_artist] pw0 in
  p_requests (snd run) = []
  /\ uploads_of (ptrace (snd run)) = []
  /\ exists e, fst run = Failed e.
Proof.
  apply (no_token_or_no_client_writes_nothing
           stub_documents (always (ok_body "albums")) stub_repr (inr "T")
           (Some (Exception_ (FailedAfter "creds" 0))) stub_dumps stub_gcs
           "bucket" "base" [stub_artist]).
  right. exists (Exception_ (FailedAfter "creds" 0)). reflexivity.
Defined.

Lemma Forall2_nth_left {A B} (R : A -> B -> Prop) (l : list A)
      (l' : list B) :
  Forall2 R l l' ->
  forall (n : nat) (a : A),
    nth_error l n = Some a ->
    exists b, nth_error l' n = Some b /\ R a b.
Proof.
  induction 1 as [|x y l l' Hxy _ IH]; intros n a Hn.
  - destruct n; discriminate Hn.
  - destruct n as [|n]; simpl in Hn.
    + injection Hn as <-. exists y. split; [reflexivity|exact Hxy].
    + exact (IH n a Hn).
Qed.

(** X24. An artist without an id or a name stops [write_albums_to_gcs]:
    the call raises, and nothing is written for that artist or for any
    artist after it in the list, while what was uploaded for the artists
    before it stays uploaded. *)
Theorem artist_without_id_or_name_stops_the_albums_pipeline
        (json_loads : string -> option json)
        (transport : nat -> Request -> Reply) (py_repr : json -> string)
        (token_outcome : exn + string) (client_failure : option exn)
        (json_dumps : json -> string)
        (gcs : nat -> string -> string -> string -> option exn)
        (bucket_name base_blob_name : string)
        (before after : list json) (bad : json) (e : perr) :
  subscript bad (Key "spotify_id") = Failed e
  \/ subscript bad (Key "artist_name") = Failed e ->
  let run := write_albums_to_gcs json_loads transport py_repr token_outcome
               client_failure json_dumps gcs bucket_name base_blob_name
               (before ++ bad :: after) pw0 in
  (exists e', fst run = Failed e')
  /\ (List.length (uploads_of (ptrace (snd run))) <= List.length before)%nat.
Proof.
  intros Hbad run. subst run.
  destruct (write_albums_run json_loads transport py_repr token_outcome
              client_failure json_dumps gcs bucket_name base_blob_name
              (before ++ bad :: after))
    as (k & evs & Ht & _ & Hle & Hup & Hdone & Hnone).
  rewrite Ht. cbn [uploads_of].
  assert (Hk : (List.length (uploads_of evs) <= List.length before)%nat
               /\ (k <= List.length before
                   \/ forall token, token_outcome <> inr token)%nat).
  { destruct token_outcome as [e0|token].
    - destruct Hnone as [-> _];
        [left; intros token H; discriminate H|].
      split; [simpl; lia|]. right. intros token H. discriminate H.
    - destruct (Hup token eq_refl) as [Hups _].
      assert (Hkb : (k <= List.length before)%nat).
      { destruct (Nat.le_gt_cases k (List.length before)) as [H|H];
          [exact H|exfalso].
        assert (Hnth : nth_error (firstn k (before ++ bad :: after))
                         (List.length before) = Some bad).
        { rewrite nth_error_firstn.
          destruct (Nat.ltb_spec (List.length before) k) as [_|Hge];
            [|lia].
          rewrite nth_error_app2 by lia.
          rewrite Nat.sub_diag. reflexivity. }
        destruct (Forall2_nth_left _ _ _ Hups _ _ Hnth)
          as (up & _ & (id & name & albums & pw & Hid & Hname & _)).
        destruct Hbad as [H'|H']; congruence. }
      split; [|left; exact Hkb].
      rewrite <- (Forall2_length Hups), length_firstn. lia. }
  destruct Hk as [Hlen Hkb]. split; [|exact Hlen].
  destruct (fst (write_albums_to_gcs json_loads transport py_repr
                   token_outcome client_failure json_dumps gcs bucket_name
                   base_blob_name (before ++ bad :: after) pw0))
    as [[]|e'] eqn:Hres.
  - exfalso. destruct (Hdone eq_refl) as (Hall & _ & token & Htoken).
    rewrite length_app in Hall. simpl in Hall.
    destruct Hkb as [H|H]; [lia|exact (H token Htoken)].
  - exists e'. reflexivity.
Qed.

Lemma artist_without_id_or_name_stops_the_albums_pipeline_witness :
  let run := write_albums_to_gcs stub_documents (always (ok_body "albums"))
               stub_repr (inr "T") None stub_dumps stub_gcs "bucket" "base"
               ([stub_artist] ++ JObj [("spotify_id", JStr "ar2")]
                  :: [stub_artist]) pw0 in
  (exists e', fst run = Failed e')
  /\ (List.length (uploads_of (ptrace (snd run))) <= 1)%nat.
Proof.
  apply (artist_without_id_or_name_stops_the_albums_pipeline
           stub_documents (always (ok_body "albums")) stub_repr (inr "T")
           None stub_dumps stub_gcs "bucket" "base"
           [stub_artist] [stub_artist] (JObj [("spotify_id", JStr "ar2")])
           (KeyError (Key "artist_name"))).
  right. reflexivity.
Defined.
